(** * takopi swarm: ingress queue tailer and topic reconciliation

    A shallow embedding of [src/takopi/swarm/inbox.py] and
    [src/takopi/swarm/service.py], followed by the properties proved
    about them.

    Conventions.
    - Python [bytes] are lists of 8-bit characters ([ascii]).
    - Python [str] is a list of Unicode code points ([N]).
    - Python [int] is [Z].
    - [T | None] is [option T].
    - Code that raises returns a value of the sum type [outcome].
    - The generator [poll_swarm_inbox] is an infinite loop whose only
      input is the file found at the beginning of each cycle: it is
      modelled by one function for the body of the loop, iterated over
      the list of files observed by the successive cycles. *)

From Stdlib Require Import List ZArith NArith Ascii String Bool Lia.
From Stdlib Require Import Sorted Permutation.
From Stdlib Require Decimal DecimalFacts DecimalPos DecimalN DecimalZ.
Import ListNotations.

(* ===================================================================== *)
(** * Part I. Definitions                                                *)
(* ===================================================================== *)

(** ** Python values *)

Definition bytes := list ascii.
Definition pystr := list N.

(** Literals: [lit "abc"] is [b"abc"], [py "abc"] is ["abc"]. *)
Definition lit (s : string) : bytes := list_ascii_of_string s.
Definition py (s : string) : pystr := map N_of_ascii (list_ascii_of_string s).

Definition code (c : ascii) : N := N_of_ascii c.
Definition chr (n : N) : ascii := ascii_of_N n.

(** Truthiness of a sequence: empty is false. *)
Definition truthy {A} (l : list A) : bool :=
  match l with [] => false | _ :: _ => true end.

(** [x.strip()], for the whitespace predicate [sp] of the type of [x]. *)
Section Strip.
Context {A : Type} (sp : A -> bool).

Fixpoint lstrip (l : list A) : list A :=
  match l with
  | [] => []
  | c :: l' => if sp c then lstrip l' else l
  end.

Definition rstrip (l : list A) : list A := rev (lstrip (rev l)).

Definition strip (l : list A) : list A := rstrip (lstrip l).
End Strip.

(** Whitespace of [bytes.strip]: space, \t, \n, \v, \f, \r. *)
Definition bytes_isspace (c : ascii) : bool :=
  let n := code c in
  (n =? 32)%N || ((9 <=? n)%N && (n <=? 13)%N).

(** Whitespace of [str.strip]: the code points for which
    [str.isspace] holds. *)
Definition str_isspace (c : N) : bool :=
  ((9 <=? c) && (c <=? 13) || (28 <=? c) && (c <=? 32)
   || (c =? 133) || (c =? 160) || (c =? 5760)
   || (8192 <=? c) && (c <=? 8202)
   || (c =? 8232) || (c =? 8233) || (c =? 8239) || (c =? 8287)
   || (c =? 12288))%N.

Definition bytes_strip : bytes -> bytes := strip bytes_isspace.
Definition str_strip : pystr -> pystr := strip str_isspace.

(** [payload.split(LF)]: never empty; the empty bytes split into one
    empty segment. *)
Definition LF : ascii := chr 10.

Fixpoint split_lf (b : bytes) : list bytes :=
  match b with
  | [] => [[]]
  | c :: b' =>
      if Ascii.eqb c LF then [] :: split_lf b'
      else match split_lf b' with
           | [] => [[c]]
           | l :: ls => (c :: l) :: ls
           end
  end.

(** [lines.pop() if lines else empty]: the list without its last element,
    and that element. *)
Definition pop_or_empty (lines : list bytes) : list bytes * bytes :=
  match lines with
  | [] => ([], [])
  | _ :: _ => (removelast lines, last lines [])
  end.

(** ** The envelope (inbox.py, lines 18-29) *)

Inductive SwarmIntent := control | trigger.

Record SwarmEnvelope := {
  version : Z;
  event_id : pystr;
  intent : SwarmIntent;
  chat_id : Z;
  thread_id : option Z;
  text : pystr;
  origin_agent : option pystr;
  created_at : option pystr
}.

Definition intent_name (i : SwarmIntent) : pystr :=
  match i with control => py "control" | trigger => py "trigger" end.

Definition intent_eqb (a b : SwarmIntent) : bool :=
  match a, b with
  | control, control | trigger, trigger => true
  | _, _ => false
  end.

(** ** The JSON codec of the envelope

    [msgspec.json.encode] and [msgspec.json.decode(_, type=SwarmEnvelope)]
    are library calls.  They are modelled here at the level of bytes, for
    this struct: the encoder writes the compact object with every field in
    declaration order; the decoder is the strict typed decoder, with
    [forbid_unknown_fields=True]. *)

Definition DQUOTE : ascii := chr 34.
Definition BSLASH : ascii := chr 92.

(** *** UTF-8 *)

Definition is_surrogate (c : N) : bool := ((55296 <=? c) && (c <=? 57343))%N.

(** A code point that UTF-8 can encode. *)
Definition scalar_value (c : N) : bool :=
  ((c <? 1114112) && negb (is_surrogate c))%N.

Definition utf8_encode (c : N) : bytes :=
  (if c <? 128 then [chr c]
   else if c <? 2048 then [chr (192 + c / 64); chr (128 + c mod 64)]
   else if c <? 65536 then
     [chr (224 + c / 4096); chr (128 + (c / 64) mod 64); chr (128 + c mod 64)]
   else
     [chr (240 + c / 262144); chr (128 + (c / 4096) mod 64);
      chr (128 + (c / 64) mod 64); chr (128 + c mod 64)])%N.

(** The payload of a continuation byte [10xxxxxx]. *)
Definition cont (b : ascii) : option N :=
  let n := code b in
  if ((128 <=? n) && (n <? 192))%N then Some (n - 128)%N else None.

(** *** Strings *)

Definition hex_digit (d : N) : ascii :=
  (if d <? 10 then chr (48 + d) else chr (87 + d))%N.

Definition hex_value (c : ascii) : option N :=
  let n := code c in
  (if (48 <=? n) && (n <=? 57) then Some (n - 48)
   else if (97 <=? n) && (n <=? 102) then Some (n - 87)
   else if (65 <=? n) && (n <=? 70) then Some (n - 55)
   else None)%N.

Definition hex4 (a b c d : ascii) : option N :=
  match hex_value a, hex_value b, hex_value c, hex_value d with
  | Some x, Some y, Some z, Some w => Some (((x * 16 + y) * 16 + z) * 16 + w)%N
  | _, _, _, _ => None
  end.

(** One code point inside a JSON string: the short escapes, [\u00xx] for
    the other control characters, UTF-8 for the rest. *)
Definition encode_char (c : N) : bytes :=
  (if c =? 34 then [BSLASH; DQUOTE]
   else if c =? 92 then [BSLASH; BSLASH]
   else if c =? 8 then [BSLASH; "b"%char]
   else if c =? 9 then [BSLASH; "t"%char]
   else if c =? 10 then [BSLASH; "n"%char]
   else if c =? 12 then [BSLASH; "f"%char]
   else if c =? 13 then [BSLASH; "r"%char]
   else if c <? 32 then
     [BSLASH; "u"%char; "0"%char; "0"%char; hex_digit (c / 16); hex_digit (c mod 16)]
   else utf8_encode c)%N.

(** Encoding a [str] fails on a code point that has no UTF-8 form (a lone
    surrogate). *)
Fixpoint encode_chars (s : pystr) : option bytes :=
  match s with
  | [] => Some []
  | c :: s' =>
      if scalar_value c then
        match encode_chars s' with
        | Some b => Some (encode_char c ++ b)
        | None => None
        end
      else None
  end.

Definition encode_str (s : pystr) : option bytes :=
  match encode_chars s with
  | Some b => Some (DQUOTE :: b ++ [DQUOTE])
  | None => None
  end.

(** The body of a JSON string, after the opening quote: the decoded code
    points and the bytes that follow the closing quote. *)
Fixpoint decode_chars (s : bytes) (acc : list N) : option (pystr * bytes) :=
  match s with
  | [] => None
  | c :: s1 =>
      let n := code c in
      if (n =? 34)%N then Some (rev acc, s1)
      else if (n =? 92)%N then
        match s1 with
        | [] => None
        | e :: s2 =>
            let m := code e in
            if (m =? 34)%N then decode_chars s2 (34%N :: acc)
            else if (m =? 92)%N then decode_chars s2 (92%N :: acc)
            else if (m =? 47)%N then decode_chars s2 (47%N :: acc)
            else if (m =? 98)%N then decode_chars s2 (8%N :: acc)
            else if (m =? 102)%N then decode_chars s2 (12%N :: acc)
            else if (m =? 110)%N then decode_chars s2 (10%N :: acc)
            else if (m =? 114)%N then decode_chars s2 (13%N :: acc)
            else if (m =? 116)%N then decode_chars s2 (9%N :: acc)
            else if (m =? 117)%N then
              match s2 with
              | h1 :: h2 :: h3 :: h4 :: s3 =>
                  match hex4 h1 h2 h3 h4 with
                  | None => None
                  | Some hi =>
                      if ((55296 <=? hi) && (hi <=? 56319))%N then
                        match s3 with
                        | b1 :: u1 :: l1 :: l2 :: l3 :: l4 :: s4 =>
                            if ((code b1 =? 92) && (code u1 =? 117))%N then
                              match hex4 l1 l2 l3 l4 with
                              | None => None
                              | Some lo =>
                                  if ((56320 <=? lo) && (lo <=? 57343))%N then
                                    decode_chars s4
                                      ((65536 + (hi - 55296) * 1024
                                        + (lo - 56320))%N :: acc)
                                  else None
                              end
                            else None
                        | _ => None
                        end
                      else if is_surrogate hi then None
                      else decode_chars s3 (hi :: acc)
                  end
              | _ => None
              end
            else None
        end
      else if (n <? 32)%N then None
      else if (n <? 128)%N then decode_chars s1 (n :: acc)
      else if (n <? 194)%N then None
      else if (n <? 224)%N then
        match s1 with
        | b1 :: s2 =>
            match cont b1 with
            | Some x1 => decode_chars s2 (((n - 192) * 64 + x1)%N :: acc)
            | None => None
            end
        | _ => None
        end
      else if (n <? 240)%N then
        match s1 with
        | b1 :: b2 :: s3 =>
            match cont b1, cont b2 with
            | Some x1, Some x2 =>
                let v := ((n - 224) * 4096 + x1 * 64 + x2)%N in
                if ((2048 <=? v) && negb (is_surrogate v))%N
                then decode_chars s3 (v :: acc) else None
            | _, _ => None
            end
        | _ => None
        end
      else if (n <? 245)%N then
        match s1 with
        | b1 :: b2 :: b3 :: s4 =>
            match cont b1, cont b2, cont b3 with
            | Some x1, Some x2, Some x3 =>
                let v := ((n - 240) * 262144 + x1 * 4096 + x2 * 64 + x3)%N in
                if ((65536 <=? v) && (v <? 1114112))%N
                then decode_chars s4 (v :: acc) else None
            | _, _, _ => None
            end
        | _ => None
        end
      else None
  end.

(** A JSON string value: the opening quote, then the body. *)
Definition decode_str (s : bytes) : option (pystr * bytes) :=
  match s with
  | c :: s' => if (code c =? 34)%N then decode_chars s' [] else None
  | [] => None
  end.

(** *** Integers *)

Fixpoint uint_bytes (u : Decimal.uint) : bytes :=
  match u with
  | Decimal.Nil => []
  | Decimal.D0 u' => "0"%char :: uint_bytes u'
  | Decimal.D1 u' => "1"%char :: uint_bytes u'
  | Decimal.D2 u' => "2"%char :: uint_bytes u'
  | Decimal.D3 u' => "3"%char :: uint_bytes u'
  | Decimal.D4 u' => "4"%char :: uint_bytes u'
  | Decimal.D5 u' => "5"%char :: uint_bytes u'
  | Decimal.D6 u' => "6"%char :: uint_bytes u'
  | Decimal.D7 u' => "7"%char :: uint_bytes u'
  | Decimal.D8 u' => "8"%char :: uint_bytes u'
  | Decimal.D9 u' => "9"%char :: uint_bytes u'
  end.

(** [repr] of a Python [int]: the decimal text. *)
Definition int_repr (z : Z) : bytes :=
  match Z.to_int z with
  | Decimal.Pos u => uint_bytes u
  | Decimal.Neg u => "-"%char :: uint_bytes u
  end.

(** CPython converts between [int] and decimal text up to
    [sys.get_int_max_str_digits()] digits, 4300 as the interpreter starts;
    the sign is not counted. *)
Definition int_max_str_digits : nat := 4300.

Definition int_digits (z : Z) : nat :=
  match Z.to_int z with
  | Decimal.Pos u => Decimal.nb_digits u
  | Decimal.Neg u => Decimal.nb_digits u
  end.

(** An [int] as the encoder writes it; [None] when it raises: the
    ValueError of the conversion, for an int of more digits than the
    limit. *)
Definition encode_int (z : Z) : option bytes :=
  if (int_max_str_digits <? int_digits z)%nat then None
  else Some (int_repr z).

Definition digit_of (c : ascii) : option (Decimal.uint -> Decimal.uint) :=
  match code c with
  | 48%N => Some Decimal.D0 | 49%N => Some Decimal.D1
  | 50%N => Some Decimal.D2 | 51%N => Some Decimal.D3
  | 52%N => Some Decimal.D4 | 53%N => Some Decimal.D5
  | 54%N => Some Decimal.D6 | 55%N => Some Decimal.D7
  | 56%N => Some Decimal.D8 | 57%N => Some Decimal.D9
  | _ => None
  end.

(** The longest run of digits at the head of the input. *)
Fixpoint scan_digits (s : bytes) : Decimal.uint * bytes :=
  match s with
  | [] => (Decimal.Nil, [])
  | c :: s' =>
      match digit_of c with
      | Some d => let (u, rest) := scan_digits s' in (d u, rest)
      | None => (Decimal.Nil, s)
      end
  end.

(** JSON allows no leading zero: [0] is a number, [01] is not. *)
Definition leading_zero (u : Decimal.uint) : bool :=
  match u with
  | Decimal.D0 Decimal.Nil => false
  | Decimal.D0 _ => true
  | _ => false
  end.

(** The number goes on as a float: a fraction or an exponent follows. *)
Definition float_follows (s : bytes) : bool :=
  match s with
  | c :: _ => ((code c =? 46) || (code c =? 101) || (code c =? 69))%N
  | [] => false
  end.

(** A JSON number for a field of type [int]; a float is not accepted,
    and an integer of more digits than the limit is out of range. *)
Definition decode_int (s : bytes) : option (Z * bytes) :=
  let (neg, s1) :=
    match s with
    | c :: s' => if (code c =? 45)%N then (true, s') else (false, s)
    | [] => (false, s)
    end in
  let (u, rest) := scan_digits s1 in
  match u with
  | Decimal.Nil => None
  | _ =>
      if leading_zero u || float_follows rest then None
      else if (int_max_str_digits <? Decimal.nb_digits u)%nat then None
      else Some (Z.of_int (if neg then Decimal.Neg u else Decimal.Pos u), rest)
  end.

(** *** The object *)

Definition json_ws (c : ascii) : bool :=
  let n := code c in ((n =? 32) || (n =? 9) || (n =? 10) || (n =? 13))%N.

Definition skip_ws : bytes -> bytes := lstrip json_ws.

Fixpoint bytes_eqb (a b : bytes) : bool :=
  match a, b with
  | [], [] => true
  | x :: a', y :: b' => Ascii.eqb x y && bytes_eqb a' b'
  | _, _ => false
  end.

Fixpoint str_eqb (a b : pystr) : bool :=
  match a, b with
  | [], [] => true
  | x :: a', y :: b' => (x =? y)%N && str_eqb a' b'
  | _, _ => false
  end.

(** [T | None]: the literal [null], or a value of [T]. *)
Definition encode_opt {A} (enc : A -> option bytes) (o : option A)
  : option bytes :=
  match o with
  | None => Some (lit "null")
  | Some a => enc a
  end.

Definition decode_opt {A} (dec : bytes -> option (A * bytes)) (s : bytes)
  : option (option A * bytes) :=
  match s with
  | c :: _ =>
      if (code c =? 110)%N then
        if bytes_eqb (firstn 4 s) (lit "null") then Some (None, skipn 4 s)
        else None
      else match dec s with
           | Some (a, rest) => Some (Some a, rest)
           | None => None
           end
  | [] => None
  end.

(** ["name":value] *)
Definition member (name : string) (value : bytes) : bytes :=
  DQUOTE :: lit name ++ DQUOTE :: ":"%char :: value.

Fixpoint join_comma (ms : list bytes) : bytes :=
  match ms with
  | [] => []
  | [m] => m
  | m :: ms' => m ++ ","%char :: join_comma ms'
  end.

Definition encode_object (ms : list bytes) : bytes :=
  "{"%char :: join_comma ms ++ ["}"%char].

(** The members of the encoded envelope: every field, in declaration
    order. *)
Definition envelope_members (e : SwarmEnvelope) : option (list bytes) :=
  match encode_int (version e), encode_str (event_id e),
        encode_str (intent_name (intent e)), encode_int (chat_id e),
        encode_opt encode_int (thread_id e), encode_str (text e),
        encode_opt encode_str (origin_agent e),
        encode_opt encode_str (created_at e) with
  | Some ver, Some eid, Some int, Some cid, Some tid, Some txt, Some org,
    Some cat =>
      Some [ member "version" ver;
             member "event_id" eid;
             member "intent" int;
             member "chat_id" cid;
             member "thread_id" tid;
             member "text" txt;
             member "origin_agent" org;
             member "created_at" cat ]
  | _, _, _, _, _, _, _, _ => None
  end.

(** [msgspec.json.encode(envelope)]; [None] when it raises. *)
Definition msgspec_json_encode (e : SwarmEnvelope) : option bytes :=
  match envelope_members e with
  | Some ms => Some (encode_object ms)
  | None => None
  end.

(** The fields seen so far while an object is decoded. *)
Record fields := {
  f_version : option Z;
  f_event_id : option pystr;
  f_intent : option SwarmIntent;
  f_chat_id : option Z;
  f_thread_id : option (option Z);
  f_text : option pystr;
  f_origin_agent : option (option pystr);
  f_created_at : option (option pystr)
}.

Definition no_fields : fields :=
  {| f_version := None; f_event_id := None; f_intent := None;
     f_chat_id := None; f_thread_id := None; f_text := None;
     f_origin_agent := None; f_created_at := None |}.

Definition decode_intent (s : bytes) : option (SwarmIntent * bytes) :=
  match decode_str s with
  | Some (name, rest) =>
      if str_eqb name (py "control") then Some (control, rest)
      else if str_eqb name (py "trigger") then Some (trigger, rest)
      else None
  | None => None
  end.

Definition set_field {A} (dec : bytes -> option (A * bytes))
    (upd : A -> fields) (s : bytes) : option (fields * bytes) :=
  match dec s with
  | Some (a, rest) => Some (upd a, rest)
  | None => None
  end.

(** The fields, with one of them given. *)
Definition with_version (f : fields) (v : Z) : fields :=
  {| f_version := Some v;
     f_event_id := f_event_id f;
     f_intent := f_intent f;
     f_chat_id := f_chat_id f;
     f_thread_id := f_thread_id f;
     f_text := f_text f;
     f_origin_agent := f_origin_agent f;
     f_created_at := f_created_at f |}.

Definition with_event_id (f : fields) (v : pystr) : fields :=
  {| f_version := f_version f;
     f_event_id := Some v;
     f_intent := f_intent f;
     f_chat_id := f_chat_id f;
     f_thread_id := f_thread_id f;
     f_text := f_text f;
     f_origin_agent := f_origin_agent f;
     f_created_at := f_created_at f |}.

Definition with_intent (f : fields) (v : SwarmIntent) : fields :=
  {| f_version := f_version f;
     f_event_id := f_event_id f;
     f_intent := Some v;
     f_chat_id := f_chat_id f;
     f_thread_id := f_thread_id f;
     f_text := f_text f;
     f_origin_agent := f_origin_agent f;
     f_created_at := f_created_at f |}.

Definition with_chat_id (f : fields) (v : Z) : fields :=
  {| f_version := f_version f;
     f_event_id := f_event_id f;
     f_intent := f_intent f;
     f_chat_id := Some v;
     f_thread_id := f_thread_id f;
     f_text := f_text f;
     f_origin_agent := f_origin_agent f;
     f_created_at := f_created_at f |}.

Definition with_thread_id (f : fields) (v : option Z) : fields :=
  {| f_version := f_version f;
     f_event_id := f_event_id f;
     f_intent := f_intent f;
     f_chat_id := f_chat_id f;
     f_thread_id := Some v;
     f_text := f_text f;
     f_origin_agent := f_origin_agent f;
     f_created_at := f_created_at f |}.

Definition with_text (f : fields) (v : pystr) : fields :=
  {| f_version := f_version f;
     f_event_id := f_event_id f;
     f_intent := f_intent f;
     f_chat_id := f_chat_id f;
     f_thread_id := f_thread_id f;
     f_text := Some v;
     f_origin_agent := f_origin_agent f;
     f_created_at := f_created_at f |}.

Definition with_origin_agent (f : fields) (v : option pystr) : fields :=
  {| f_version := f_version f;
     f_event_id := f_event_id f;
     f_intent := f_intent f;
     f_chat_id := f_chat_id f;
     f_thread_id := f_thread_id f;
     f_text := f_text f;
     f_origin_agent := Some v;
     f_created_at := f_created_at f |}.

Definition with_created_at (f : fields) (v : option pystr) : fields :=
  {| f_version := f_version f;
     f_event_id := f_event_id f;
     f_intent := f_intent f;
     f_chat_id := f_chat_id f;
     f_thread_id := f_thread_id f;
     f_text := f_text f;
     f_origin_agent := f_origin_agent f;
     f_created_at := Some v |}.

(** The value of the member [key], decoded by the type of that field.  A
    key that is no field of the struct is an error
    ([forbid_unknown_fields=True]). *)
Definition decode_field (key : pystr) (s : bytes) (f : fields)
  : option (fields * bytes) :=
  if str_eqb key (py "version") then
    set_field decode_int (with_version f) s
  else if str_eqb key (py "event_id") then
    set_field decode_str (with_event_id f) s
  else if str_eqb key (py "intent") then
    set_field decode_intent (with_intent f) s
  else if str_eqb key (py "chat_id") then
    set_field decode_int (with_chat_id f) s
  else if str_eqb key (py "thread_id") then
    set_field (decode_opt decode_int) (with_thread_id f) s
  else if str_eqb key (py "text") then
    set_field decode_str (with_text f) s
  else if str_eqb key (py "origin_agent") then
    set_field (decode_opt decode_str) (with_origin_agent f) s
  else if str_eqb key (py "created_at") then
    set_field (decode_opt decode_str) (with_created_at f) s
  else None.

(** The members of an object, from the first key on.  Each turn consumes
    at least one byte, so the length of the input is fuel enough. *)
Fixpoint decode_members (fuel : nat) (s : bytes) (f : fields)
  : option (fields * bytes) :=
  match fuel with
  | O => None
  | S fuel' =>
      match decode_str s with
      | None => None
      | Some (key, s1) =>
          match skip_ws s1 with
          | [] => None
          | c :: s2 =>
              if (code c =? 58)%N then
                match decode_field key (skip_ws s2) f with
                | None => None
                | Some (f', s3) =>
                    match skip_ws s3 with
                    | [] => None
                    | c' :: s4 =>
                        if (code c' =? 44)%N
                        then decode_members fuel' (skip_ws s4) f'
                        else if (code c' =? 125)%N then Some (f', s4)
                        else None
                    end
                end
              else None
          end
      end
  end.

Definition decode_object (s : bytes) : option (fields * bytes) :=
  match s with
  | [] => None
  | c :: s1 =>
      if (code c =? 123)%N then
        match skip_ws s1 with
        | [] => None
        | c' :: s2 =>
            if (code c' =? 125)%N then Some (no_fields, s2)
            else decode_members (List.length s1) (skip_ws s1) no_fields
        end
      else None
  end.

(** The struct, once the object is read: a field without a default must
    have been given. *)
Definition finish (f : fields) : option SwarmEnvelope :=
  match f_event_id f, f_intent f, f_chat_id f, f_text f with
  | Some eid, Some int, Some cid, Some txt =>
      Some {| version := match f_version f with Some v => v | None => 1%Z end;
              event_id := eid;
              intent := int;
              chat_id := cid;
              thread_id := match f_thread_id f with Some t => t | None => None end;
              text := txt;
              origin_agent :=
                match f_origin_agent f with Some o => o | None => None end;
              created_at :=
                match f_created_at f with Some o => o | None => None end |}
  | _, _, _, _ => None
  end.

(** [msgspec.json.decode(raw_line, type=SwarmEnvelope)]; [None] when it
    raises. *)
Definition msgspec_json_decode (s : bytes) : option SwarmEnvelope :=
  match decode_object (skip_ws s) with
  | Some (f, rest) =>
      match skip_ws rest with
      | [] => finish f
      | _ :: _ => None
      end
  | None => None
  end.


(** ** Exceptions *)

Inductive exn :=
| FileNotFoundError
| OSError
| EncodeError                  (* what msgspec.json.encode raises *)
| RuntimeError (msg : pystr).

Inductive outcome (A : Type) :=
| Ok (a : A)
| Raise (e : exn).
Arguments Ok {A} a.
Arguments Raise {A} e.

(** ** The synthetic message (inbox.py, lines 59-88) *)

Module Message.
Record t := {
  transport : pystr;
  chat_id : Z;
  message_id : Z;
  text : pystr;
  reply_to_message_id : option Z;
  reply_to_text : option pystr;
  sender_id : option Z;
  thread_id : option Z;
  raw_swarm : SwarmEnvelope;      (* raw = {"swarm": to_builtins(envelope)} *)
  ingress_source : pystr;
  ingress_intent : SwarmIntent;
  origin_agent : option pystr
}.
End Message.
Definition TelegramIncomingMessage := Message.t.

(** What a consumer of the stream and the log can observe. *)
Inductive event :=
| Yield (message : TelegramIncomingMessage)
| LogDebug (name : pystr) (envelope : SwarmEnvelope)
| LogWarning (name : pystr)
| Sleep.

(** [_to_synthetic_message]: the events logged and the result. *)
Definition _to_synthetic_message (envelope : SwarmEnvelope) (message_id : Z)
  : list event * option TelegramIncomingMessage :=
  if negb (intent_eqb (intent envelope) trigger) then ([], None)
  else if negb (truthy (str_strip (text envelope))) then
    ([LogDebug (py "swarm.ingress.skip") envelope], None)
  else
    ([], Some {| Message.transport := py "telegram";
                 Message.chat_id := chat_id envelope;
                 Message.message_id := message_id;
                 Message.text := text envelope;
                 Message.reply_to_message_id := None;
                 Message.reply_to_text := None;
                 Message.sender_id := None;
                 Message.thread_id := thread_id envelope;
                 Message.raw_swarm := envelope;
                 Message.ingress_source := py "swarm";
                 Message.ingress_intent := intent envelope;
                 Message.origin_agent := origin_agent envelope |}).

(** ** Reading the file (inbox.py, lines 51-57 and 91-99) *)

(** What [path.open] finds at the beginning of a cycle. *)
Inductive file_state :=
| Missing                      (* open raises FileNotFoundError *)
| Unreadable                   (* open raises another OSError *)
| File (content : bytes).

(** [append_swarm_envelope]: the file after the call; a missing file is
    created.  When the encoder raises (a string that UTF-8 cannot carry,
    an int beyond the limit of the conversion) nothing is written. *)
Definition append_swarm_envelope (f : file_state) (envelope : SwarmEnvelope)
  : outcome file_state :=
  match msgspec_json_encode envelope with
  | None => Raise EncodeError
  | Some b =>
      let line := b ++ [LF] in
      match f with
      | Missing => Ok (File line)
      | Unreadable => Raise OSError
      | File content => Ok (File (content ++ line))
      end
  end.

Definition len (b : bytes) : Z := Z.of_nat (List.length b).

Definition _read_chunk (f : file_state) (offset : Z) : outcome (bytes * Z) :=
  match f with
  | Missing => Raise FileNotFoundError
  | Unreadable => Raise OSError
  | File content =>
      let size := len content in
      let offset := if (size <? offset)%Z then 0%Z else offset in
      if (offset <? 0)%Z then Raise OSError      (* seek before the start *)
      else
        let chunk := skipn (Z.to_nat offset) content in
        Ok (chunk, (offset + len chunk)%Z)
  end.

(** ** The poll loop (inbox.py, lines 102-146) *)

Record poll_state := {
  offset : Z;
  remainder : bytes;
  next_message_id : Z
}.

Definition initial_state : poll_state :=
  {| offset := 0; remainder := []; next_message_id := -1 |}.

(** The [for line in lines] loop: the events and the next message id. *)
Fixpoint process_lines (lines : list bytes) (next_id : Z) : list event * Z :=
  match lines with
  | [] => ([], next_id)
  | line :: rest =>
      let raw_line := bytes_strip line in
      if negb (truthy raw_line) then process_lines rest next_id
      else
        match msgspec_json_decode raw_line with
        | None =>
            let (evs, n) := process_lines rest next_id in
            (LogWarning (py "swarm.ingress.decode_failed") :: evs, n)
        | Some envelope =>
            match _to_synthetic_message envelope next_id with
            | (logs, None) =>
                let (evs, n) := process_lines rest next_id in
                (logs ++ evs, n)
            | (logs, Some message) =>
                let (evs, n) := process_lines rest (next_id - 1)%Z in
                (logs ++ Yield message :: evs, n)
            end
        end
  end.

(** One turn of [while True], for the file found by this turn: the events
    up to and including the sleep, then the state of the next turn, or
    the exception that leaves the generator. *)
Definition poll_cycle (f : file_state) (st : poll_state)
  : list event * outcome poll_state :=
  match _read_chunk f (offset st) with
  | Raise FileNotFoundError =>
      ([Sleep], Ok {| offset := 0; remainder := [];
                      next_message_id := next_message_id st |})
  | Raise e => ([], Raise e)
  | Ok (chunk, offset') =>
      if truthy chunk then
        let payload := remainder st ++ chunk in
        let lines := split_lf payload in
        let (lines', remainder') := pop_or_empty lines in
        let (evs, next') := process_lines lines' (next_message_id st) in
        (evs ++ [Sleep],
         Ok {| offset := offset'; remainder := remainder';
               next_message_id := next' |})
      else
        ([Sleep], Ok {| offset := offset'; remainder := remainder st;
                        next_message_id := next_message_id st |})
  end.

(** The loop from a given state, over the files found by the successive
    turns. *)
Fixpoint poll_from (st : poll_state) (files : list file_state)
  : list event * outcome poll_state :=
  match files with
  | [] => ([], Ok st)
  | f :: files' =>
      match poll_cycle f st with
      | (evs, Ok st') =>
          let (evs', r) := poll_from st' files' in (evs ++ evs', r)
      | (evs, Raise e) => (evs, Raise e)
      end
  end.

Definition poll_swarm_inbox (files : list file_state)
  : list event * outcome poll_state :=
  poll_from initial_state files.

(** The messages a consumer receives. *)
Fixpoint yielded (evs : list event) : list TelegramIncomingMessage :=
  match evs with
  | [] => []
  | Yield m :: evs' => m :: yielded evs'
  | _ :: evs' => yielded evs'
  end.

(** ** Topic statuses (service.py, lines 10-64) *)

Module RunContext.
Record t := { project : option pystr; branch : option pystr }.
End RunContext.

Module TopicThreadSnapshot.
Record t := {
  chat_id : Z;
  thread_id : Z;
  context : option RunContext.t;
  sessions : list (pystr * pystr);      (* a dict, keys without repeats *)
  topic_title : option pystr;
  default_engine : option pystr
}.
End TopicThreadSnapshot.

Module TopicStatus.
Record t := {
  chat_id : Z;
  thread_id : Z;
  project : option pystr;
  branch : option pystr;
  topic_title : option pystr;
  default_engine : option pystr;
  sessions : list pystr
}.
End TopicStatus.

Definition normalize_branch (value : option pystr) : option pystr :=
  match value with
  | None => None
  | Some v =>
      let stripped := str_strip v in
      if truthy stripped then Some stripped else None
  end.

Definition build_topic_title (project_alias : pystr) (branch : option pystr)
  : pystr :=
  match branch with
  | Some b => if truthy b then project_alias ++ py " @" ++ b else project_alias
  | None => project_alias
  end.

(** [d.get(key, default)] on a dict given by its items. *)
Fixpoint dict_get {V} (d : list (pystr * V)) (key : pystr) (default : V) : V :=
  match d with
  | [] => default
  | (k, v) :: d' => if str_eqb k key then v else dict_get d' key default
  end.

(** [sorted] on strings: code point by code point. *)
Fixpoint str_leb (a b : pystr) : bool :=
  match a, b with
  | [], _ => true
  | _ :: _, [] => false
  | x :: a', y :: b' =>
      if (x <? y)%N then true else if (y <? x)%N then false else str_leb a' b'
  end.

Fixpoint insert_sorted (x : pystr) (l : list pystr) : list pystr :=
  match l with
  | [] => [x]
  | y :: l' => if str_leb x y then x :: l else y :: insert_sorted x l'
  end.

Definition sorted (l : list pystr) : list pystr :=
  fold_right insert_sorted [] l.

Definition snapshot_to_status (snapshot : TopicThreadSnapshot.t)
    (project_aliases : list (pystr * pystr)) : TopicStatus.t :=
  let project_key :=
    match TopicThreadSnapshot.context snapshot with
    | Some c => RunContext.project c
    | None => None
    end in
  let project :=
    match project_key with
    | Some k => Some (dict_get project_aliases k k)
    | None => None
    end in
  let branch :=
    match TopicThreadSnapshot.context snapshot with
    | Some c => RunContext.branch c
    | None => None
    end in
  let sessions := sorted (map fst (TopicThreadSnapshot.sessions snapshot)) in
  {| TopicStatus.chat_id := TopicThreadSnapshot.chat_id snapshot;
     TopicStatus.thread_id := TopicThreadSnapshot.thread_id snapshot;
     TopicStatus.project := project;
     TopicStatus.branch := branch;
     TopicStatus.topic_title := TopicThreadSnapshot.topic_title snapshot;
     TopicStatus.default_engine := TopicThreadSnapshot.default_engine snapshot;
     TopicStatus.sessions := sessions |}.

(** ** The collaborators of the reconciliation

    [TopicStateStore] and [TelegramClient] are passed in by the caller.
    They are taken as interfaces: the methods [ensure_topic_thread] calls,
    acting on a state of the store and a state of the chat platform.  The
    two queries of the store read its state and leave it as it is. *)

Record ForumTopic := { message_thread_id : Z }.

Class TopicStateStore (St : Type) := {
  get_thread : St -> Z -> Z -> option TopicThreadSnapshot.t;
  find_thread_for_context : St -> Z -> RunContext.t -> option Z;
  set_context : St -> Z -> Z -> RunContext.t -> pystr -> St;
  delete_thread : St -> Z -> Z -> St
}.

Class TelegramClient (Bt : Type) := {
  create_forum_topic : Bt -> Z -> pystr -> option ForumTopic * Bt;
  edit_forum_topic : Bt -> Z -> Z -> pystr -> bool * Bt
}.

(** The calls made on the collaborators, in order. *)
Inductive call :=
| FindThreadForContext (chat : Z) (context : RunContext.t)
| EditForumTopic (chat thread : Z) (name : pystr)
| SetContext (chat thread : Z) (context : RunContext.t) (title : pystr)
| GetThread (chat thread : Z)
| DeleteThread (chat thread : Z)
| CreateForumTopic (chat : Z) (title : pystr).

Definition is_create (c : call) : bool :=
  match c with CreateForumTopic _ _ => true | _ => false end.

(** ** The reconciliation (service.py, lines 80-151) *)

Section Service.
Context {St Bt : Type} {store_ops : TopicStateStore St}
        {bot_ops : TelegramClient Bt}.

Record world := { store : St; bot : Bt; calls : list call }.

(** Code that awaits the collaborators: a state and error monad over
    the world. *)
Definition M (A : Type) : Type := world -> outcome A * world.

Definition ret {A} (a : A) : M A := fun w => (Ok a, w).

Definition raise {A} (e : exn) : M A := fun w => (Raise e, w).

Definition bind {A C} (m : M A) (k : A -> M C) : M C :=
  fun w =>
    match m w with
    | (Ok a, w') => k a w'
    | (Raise e, w') => (Raise e, w')
    end.

Notation "x <- m ;; k" := (bind m (fun x => k))
  (at level 61, m at next level, right associativity).
Notation "m ;;; k" := (bind m (fun _ => k))
  (at level 61, right associativity).

Definition logged (c : call) (w : world) : list call := calls w ++ [c].

Definition store_find_thread_for_context (chat : Z) (ctx : RunContext.t)
  : M (option Z) :=
  fun w =>
    (Ok (find_thread_for_context (store w) chat ctx),
     {| store := store w; bot := bot w;
        calls := logged (FindThreadForContext chat ctx) w |}).

Definition store_get_thread (chat thread : Z)
  : M (option TopicThreadSnapshot.t) :=
  fun w =>
    (Ok (get_thread (store w) chat thread),
     {| store := store w; bot := bot w;
        calls := logged (GetThread chat thread) w |}).

Definition store_set_context (chat thread : Z) (ctx : RunContext.t)
    (title : pystr) : M unit :=
  fun w =>
    (Ok tt,
     {| store := set_context (store w) chat thread ctx title; bot := bot w;
        calls := logged (SetContext chat thread ctx title) w |}).

Definition store_delete_thread (chat thread : Z) : M unit :=
  fun w =>
    (Ok tt,
     {| store := delete_thread (store w) chat thread; bot := bot w;
        calls := logged (DeleteThread chat thread) w |}).

Definition bot_edit_forum_topic (chat thread : Z) (name : pystr) : M bool :=
  fun w =>
    let (renamed, b) := edit_forum_topic (bot w) chat thread name in
    (Ok renamed,
     {| store := store w; bot := b;
        calls := logged (EditForumTopic chat thread name) w |}).

Definition bot_create_forum_topic (chat : Z) (title : pystr)
  : M (option ForumTopic) :=
  fun w =>
    let (topic, b) := create_forum_topic (bot w) chat title in
    (Ok topic,
     {| store := store w; bot := b;
        calls := logged (CreateForumTopic chat title) w |}).

(** The snapshot made up when the store has none for the thread. *)
Definition synthesized (chat_id thread_id : Z) (context : RunContext.t)
    (bind_state : bool) (title : pystr) : TopicThreadSnapshot.t :=
  {| TopicThreadSnapshot.chat_id := chat_id;
     TopicThreadSnapshot.thread_id := thread_id;
     TopicThreadSnapshot.context := if bind_state then Some context else None;
     TopicThreadSnapshot.sessions := [];
     TopicThreadSnapshot.topic_title := Some title;
     TopicThreadSnapshot.default_engine := None |}.

(** Lines 127-151: what follows the [if existing_thread_id is not None]
    block, when that block did not return. *)
Definition create_topic_thread (chat_id : Z) (project_key project_alias : pystr)
    (context : RunContext.t) (title : pystr) (bind_state : bool)
  : M (TopicStatus.t * bool) :=
  created_topic <- bot_create_forum_topic chat_id title ;;
  match created_topic with
  | None => raise (RuntimeError (py "failed to create telegram forum topic"))
  | Some topic =>
      let thread_id := message_thread_id topic in
      let created := true in
      (if bind_state
       then store_set_context chat_id thread_id context title
       else ret tt) ;;;
      snapshot <- store_get_thread chat_id thread_id ;;
      let snapshot :=
        match snapshot with
        | Some s => s
        | None => synthesized chat_id thread_id context bind_state title
        end in
      let status :=
        snapshot_to_status snapshot [(project_key, project_alias)] in
      ret (status, created)
  end.

Definition ensure_topic_thread (chat_id : Z) (project_key project_alias : pystr)
    (branch : option pystr) (bind_state : bool) : M (TopicStatus.t * bool) :=
  let context :=
    {| RunContext.project := Some project_key; RunContext.branch := branch |} in
  let title := build_topic_title project_alias branch in
  existing_thread_id <- store_find_thread_for_context chat_id context ;;
  let created := false in
  match existing_thread_id with
  | Some existing_thread_id =>
      renamed <- bot_edit_forum_topic chat_id existing_thread_id title ;;
      if renamed then
        (if bind_state
         then store_set_context chat_id existing_thread_id context title
         else ret tt) ;;;
        snapshot <- store_get_thread chat_id existing_thread_id ;;
        let snapshot :=
          match snapshot with
          | Some s => s
          | None =>
              synthesized chat_id existing_thread_id context bind_state title
          end in
        let status :=
          snapshot_to_status snapshot [(project_key, project_alias)] in
        ret (status, created)
      else
        store_delete_thread chat_id existing_thread_id ;;;
        create_topic_thread chat_id project_key project_alias context title
          bind_state
  | None =>
      create_topic_thread chat_id project_key project_alias context title
        bind_state
  end.

(** [n] calls in a row with the same arguments: the outcomes, oldest
    first, and the world they leave. *)
Fixpoint ensure_repeatedly (n : nat) (chat_id : Z)
    (project_key project_alias : pystr) (branch : option pystr)
    (bind_state : bool) (w : world)
  : list (outcome (TopicStatus.t * bool)) * world :=
  match n with
  | O => ([], w)
  | S n' =>
      let (r, w1) :=
        ensure_topic_thread chat_id project_key project_alias branch
          bind_state w in
      let (rs, w2) :=
        ensure_repeatedly n' chat_id project_key project_alias branch
          bind_state w1 in
      (r :: rs, w2)
  end.
End Service.

Arguments world : clear implicits.

(** ** Collaborators to run the reconciliation against *)

Definition opt_str_eqb (a b : option pystr) : bool :=
  match a, b with
  | None, None => true
  | Some x, Some y => str_eqb x y
  | _, _ => false
  end.

Definition context_eqb (a b : RunContext.t) : bool :=
  opt_str_eqb (RunContext.project a) (RunContext.project b)
  && opt_str_eqb (RunContext.branch a) (RunContext.branch b).

Definition is_thread (chat thread : Z) (s : TopicThreadSnapshot.t) : bool :=
  ((TopicThreadSnapshot.chat_id s =? chat)
   && (TopicThreadSnapshot.thread_id s =? thread))%Z.

Definition bound_to (chat : Z) (ctx : RunContext.t)
    (s : TopicThreadSnapshot.t) : bool :=
  (TopicThreadSnapshot.chat_id s =? chat)%Z
  && match TopicThreadSnapshot.context s with
     | Some c => context_eqb c ctx
     | None => false
     end.

(** Modelled from the spec: the state store ([TopicStateStore] of
    [takopi.telegram.topic_state], whose source is not part of the files
    at hand), as the spec describes its interface: snapshots keyed by chat
    and thread, a thread found by the context bound to it, [set_context]
    that binds a thread (creating its record when there is none) and
    [delete_thread] that removes the record.  The most recent binding
    comes first. *)
#[export] Instance memory_store : TopicStateStore (list TopicThreadSnapshot.t) := {
  get_thread s chat thread := find (is_thread chat thread) s;
  find_thread_for_context s chat ctx :=
    option_map TopicThreadSnapshot.thread_id (find (bound_to chat ctx) s);
  set_context s chat thread ctx title :=
    {| TopicThreadSnapshot.chat_id := chat;
       TopicThreadSnapshot.thread_id := thread;
       TopicThreadSnapshot.context := Some ctx;
       TopicThreadSnapshot.sessions :=
         match find (is_thread chat thread) s with
         | Some old => TopicThreadSnapshot.sessions old
         | None => []
         end;
       TopicThreadSnapshot.topic_title := Some title;
       TopicThreadSnapshot.default_engine :=
         match find (is_thread chat thread) s with
         | Some old => TopicThreadSnapshot.default_engine old
         | None => None
         end |}
    :: filter (fun x => negb (is_thread chat thread x)) s;
  delete_thread s chat thread :=
    filter (fun x => negb (is_thread chat thread x)) s
}.

(** Modelled from the spec: a state store that has not caught up with its
    writes (the open question of the spec's design notes): it knows which
    thread a context is bound to and has no snapshot to give. *)
#[export] Instance index_only_store : TopicStateStore (list (Z * RunContext.t * Z)) := {
  get_thread _ _ _ := None;
  find_thread_for_context s chat ctx :=
    option_map snd
      (find (fun e => (fst (fst e) =? chat)%Z && context_eqb (snd (fst e)) ctx) s);
  set_context s chat thread ctx _ := (chat, ctx, thread) :: s;
  delete_thread s chat thread :=
    filter (fun e => negb ((fst (fst e) =? chat) && (snd e =? thread))%Z) s
}.

(** Modelled from the spec: the chat platform behind [TelegramClient]
    ([takopi.telegram.client], not part of the files at hand): the forum
    topics that exist, and the id the next topic gets.  A topic is renamed
    when it exists; creation always succeeds. *)
Record platform := { topics : list (Z * Z); next_thread : Z }.

Definition topic_exists (b : platform) (chat thread : Z) : bool :=
  existsb (fun t => ((fst t =? chat) && (snd t =? thread))%Z) (topics b).

#[export] Instance forum_platform : TelegramClient platform := {
  create_forum_topic b chat title :=
    (Some {| message_thread_id := next_thread b |},
     {| topics := (chat, next_thread b) :: topics b;
        next_thread := next_thread b + 1 |});
  edit_forum_topic b chat thread name := (topic_exists b chat thread, b)
}.

(** ** A healthy external resource

    What the reconciliation relies on to be idempotent: the store finds
    the thread a context was bound to and answers for the thread it is
    asked about; the platform creates topics, and renames the topics that
    exist. *)
Class Healthy (St Bt : Type) {store_ops : TopicStateStore St}
    {bot_ops : TelegramClient Bt} (exists_on : Bt -> Z -> Z -> Prop) : Prop := {
  find_after_set_context :
    forall (s : St) chat thread ctx title,
      find_thread_for_context (set_context s chat thread ctx title) chat ctx
      = Some thread;
  get_thread_answers :
    forall (s : St) chat thread snapshot,
      get_thread s chat thread = Some snapshot ->
      TopicThreadSnapshot.thread_id snapshot = thread;
  create_succeeds :
    forall (b : Bt) chat title,
      exists topic b',
        create_forum_topic b chat title = (Some topic, b')
        /\ exists_on b' chat (message_thread_id topic);
  edit_succeeds :
    forall (b : Bt) chat thread name,
      exists_on b chat thread ->
      exists b',
        edit_forum_topic b chat thread name = (true, b')
        /\ exists_on b' chat thread
}.

(** ** Vocabulary of the properties *)

(** A [str] can be encoded when all its code points are scalar values. *)
Definition valid_str (s : pystr) : bool := forallb scalar_value s.

Definition valid_opt_str (o : option pystr) : bool :=
  match o with Some s => valid_str s | None => true end.

(** An [int] that the codec carries: its decimal text has at most
    [int_max_str_digits] characters, the sign included. *)
Definition valid_int (z : Z) : bool :=
  (List.length (int_repr z) <=? int_max_str_digits)%nat.

Definition valid_opt_int (o : option Z) : bool :=
  match o with Some z => valid_int z | None => true end.

(** An envelope with well-typed fields that the codec carries: the
    strings are text that UTF-8 can carry, the integers are within the
    limit of the conversion; the intent is one of the two literals by its
    type. *)
Definition valid_envelope (e : SwarmEnvelope) : bool :=
  valid_str (event_id e) && valid_str (text e)
  && valid_opt_str (origin_agent e) && valid_opt_str (created_at e)
  && valid_int (version e) && valid_int (chat_id e)
  && valid_opt_int (thread_id e).



(** The first byte of an encoded integer is a digit or the sign. *)
Definition int_start (c : ascii) : bool :=
  match digit_of c with Some _ => true | None => (code c =? 45)%N end.

(** The byte after a value in an encoded object. *)
Definition closes_value (c : ascii) : bool :=
  ((code c =? 44) || (code c =? 125))%N.

(** A member that [decode_members] reads as the update [upd] of the
    fields, before a comma or the closing brace. *)
Definition reads_as (m : bytes) (upd : fields -> fields) : Prop :=
  forall fuel rest c f,
    closes_value c = true ->
    decode_members (S fuel) (m ++ c :: rest) f =
    if (code c =? 44)%N then decode_members fuel (skip_ws rest) (upd f)
    else Some (upd f, rest).

(** Bytes that begin with the quote of a key. *)
Definition quoted (m : bytes) : Prop := exists tl, m = DQUOTE :: tl.

(** Members that are read one after the other, with the updates they
    make. *)
Inductive members_read : list bytes -> (fields -> fields) -> Prop :=
| read_none : members_read [] (fun f => f)
| read_more m upd ms upds :
    reads_as m upd -> quoted m -> members_read ms upds ->
    members_read (m :: ms) (fun f => upds (upd f)).


(** The complete lines of a file: all the segments but the last. *)
Definition complete_lines (content : bytes) : list bytes :=
  removelast (split_lf content).

(** The pending fragment of a file: the last segment. *)
Definition pending (content : bytes) : bytes := last (split_lf content) [].

(** The files found by the successive cycles when the file holds
    [content] and [a1], [a2], ... are appended to it, one before each
    cycle. *)
Fixpoint observed (content : bytes) (appended : list bytes)
  : list file_state :=
  match appended with
  | [] => []
  | a :: rest => File (content ++ a) :: observed (content ++ a) rest
  end.

(** The envelope a line gives rise to a message for, if any: the line is
    not blank, it decodes, and the envelope is a trigger with text. *)
Definition line_trigger (line : bytes) : option SwarmEnvelope :=
  let raw_line := bytes_strip line in
  if truthy raw_line then
    match msgspec_json_decode raw_line with
    | Some envelope =>
        match _to_synthetic_message envelope 0 with
        | (_, Some _) => Some envelope
        | (_, None) => None
        end
    | None => None
    end
  else None.

Fixpoint triggers (lines : list bytes) : list SwarmEnvelope :=
  match lines with
  | [] => []
  | line :: rest =>
      match line_trigger line with
      | Some e => e :: triggers rest
      | None => triggers rest
      end
  end.

(** The ids [first], [first - 1], ... of [n] messages. *)
Fixpoint ids_from (first : Z) (n : nat) : list Z :=
  match n with
  | O => []
  | S n' => first :: ids_from (first - 1) n'
  end.

(** Bytes without control characters, so without a line feed. *)
Definition printable (b : bytes) : bool :=
  forallb (fun c => (32 <=? code c)%N) b.

(** The state of a loop that has read [content]: the offset is at its
    end and the fragment held back is its last segment. *)
Definition tracks (st : poll_state) (content : bytes) : Prop :=
  offset st = len content /\ remainder st = pending content.

(** The bytes of a file from the stored offset on, as [_read_chunk] reads
    them. *)
Definition chunk_read (content : bytes) (offset : Z) : bytes :=
  skipn (Z.to_nat (if (len content <? offset)%Z then 0%Z else offset)) content.

(** The line [append_swarm_envelope] writes for an envelope. *)
Definition line_of (e : SwarmEnvelope) : bytes :=
  match msgspec_json_encode e with
  | Some b => b ++ [LF]
  | None => []
  end.

(** An envelope that is translated into a message: a trigger whose text
    is not blank. *)
Definition translated (e : SwarmEnvelope) : bool :=
  intent_eqb (intent e) trigger && negb (forallb str_isspace (text e)).

(** The context and the title [ensure_topic_thread] works with. *)
Definition requested_context (project_key : pystr) (branch : option pystr)
  : RunContext.t :=
  {| RunContext.project := Some project_key; RunContext.branch := branch |}.

(** How many topics were created by a sequence of calls. *)
Definition creations (cs : list call) : nat :=
  List.length (filter is_create cs).

(** The outcome "reused thread [t]". *)
Definition reused (t : Z) (r : outcome (TopicStatus.t * bool)) : Prop :=
  exists status, r = Ok (status, false) /\ TopicStatus.thread_id status = t.

(** The status for a thread: from the snapshot of the store when it has
    one, made up otherwise. *)
Definition status_of {St : Type} {store_ops : TopicStateStore St} (s : St)
    (chat thread : Z) (key alias : pystr) (branch : option pystr)
    (bind_state : bool) : TopicStatus.t :=
  snapshot_to_status
    (match get_thread s chat thread with
     | Some snapshot => snapshot
     | None =>
         synthesized chat thread (requested_context key branch) bind_state
           (build_topic_title alias branch)
     end)
    [(key, alias)].

(** ** Examples *)

(** The envelopes of [tests/test_swarm_ingress.py]. *)
Definition hello : SwarmEnvelope :=
  {| version := 1;
     event_id := py "0a1b2c3d4e5f60718293a4b5c6d7e8f9";
     intent := trigger;
     chat_id := 123;
     thread_id := Some 19%Z;
     text := py "hello from swarm";
     origin_agent := Some (py "manager");
     created_at := Some (py "2025-01-01T00:00:00+00:00") |}.

Definition control_only : SwarmEnvelope :=
  {| version := 1;
     event_id := py "ffeeddccbbaa99887766554433221100";
     intent := control;
     chat_id := 123;
     thread_id := Some 19%Z;
     text := py "control only";
     origin_agent := None;
     created_at := Some (py "2025-01-01T00:00:01+00:00") |}.

Definition second : SwarmEnvelope :=
  {| version := 1;
     event_id := py "00000000000000000000000000000002";
     intent := trigger;
     chat_id := 123;
     thread_id := None;
     text := py "second";
     origin_agent := None;
     created_at := None |}.

Definition third : SwarmEnvelope :=
  {| version := 1;
     event_id := py "00000000000000000000000000000003";
     intent := trigger;
     chat_id := -100123;
     thread_id := Some 7%Z;
     text := [116; 104; 105; 114; 100; 10; 8364]%N;
     origin_agent := Some (py "worker");
     created_at := None |}.

(** A file with the record of [hello] and the first 40 bytes of the
    record of [second]; the same file once the rest of [second] and the
    record of [third] were appended. *)
Definition partial_file : bytes :=
  line_of hello ++ firstn 40 (line_of second).

Definition completed_file : bytes :=
  line_of hello ++ line_of second ++ line_of third.

(** A loop that had read 500 bytes and holds a fragment back. *)
Definition far_state : poll_state :=
  {| offset := 500; remainder := lit "{frag"; next_message_id := -3 |}.

(** The world of the test: chat 1, nothing bound, no topic yet. *)
Definition fresh_world : world (list TopicThreadSnapshot.t) platform :=
  {| store := []; bot := {| topics := []; next_thread := 1 |}; calls := [] |}.

(** A world whose store binds project "demo" to the thread 5 of chat 1,
    a topic that is gone from the platform. *)
Definition drifted_world : world (list TopicThreadSnapshot.t) platform :=
  {| store :=
       [ {| TopicThreadSnapshot.chat_id := 1;
            TopicThreadSnapshot.thread_id := 5;
            TopicThreadSnapshot.context :=
              Some (requested_context (py "demo") None);
            TopicThreadSnapshot.sessions := [(py "codex", py "resume-1")];
            TopicThreadSnapshot.topic_title := Some (py "demo");
            TopicThreadSnapshot.default_engine := None |} ];
     bot := {| topics := [(1, 6)%Z]; next_thread := 7 |};
     calls := [] |}.

(** A world whose store has no snapshot to give. *)
Definition lagging_world : world (list (Z * RunContext.t * Z)) platform :=
  {| store := []; bot := {| topics := []; next_thread := 1 |}; calls := [] |}.

(** ** More of the inbox (inbox.py, lines 32-57) *)

(** [new_swarm_envelope]: the event id is the hex form of a fresh uuid4
    and the time is the clock's, in ISO format; both are arguments
    here. *)
Definition new_swarm_envelope (uuid4_hex now_iso : pystr)
    (intent : SwarmIntent) (chat_id : Z) (thread_id : option Z)
    (text : pystr) (origin_agent : option pystr) : SwarmEnvelope :=
  {| version := 1;
     event_id := uuid4_hex;
     intent := intent;
     chat_id := chat_id;
     thread_id := thread_id;
     text := text;
     origin_agent := origin_agent;
     created_at := Some now_iso |}.

(** Calls of [append_swarm_envelope] in a row, on the same path. *)
Fixpoint append_all (f : file_state) (es : list SwarmEnvelope)
  : outcome file_state :=
  match es with
  | [] => Ok f
  | e :: es' =>
      match append_swarm_envelope f e with
      | Ok f' => append_all f' es'
      | Raise x => Raise x
      end
  end.

(** The files found by the cycles of a reader when a writer appends the
    envelopes of one batch before each cycle (a batch may be empty); the
    list stops at a batch the writer fails on. *)
Fixpoint written (f : file_state) (batches : list (list SwarmEnvelope))
  : list file_state :=
  match batches with
  | [] => []
  | b :: rest =>
      match append_all f b with
      | Ok f' => f' :: written f' rest
      | Raise _ => []
      end
  end.

(** The message [_to_synthetic_message] builds for an envelope. *)
Definition message_of (envelope : SwarmEnvelope) (message_id : Z)
  : TelegramIncomingMessage :=
  {| Message.transport := py "telegram";
     Message.chat_id := chat_id envelope;
     Message.message_id := message_id;
     Message.text := text envelope;
     Message.reply_to_message_id := None;
     Message.reply_to_text := None;
     Message.sender_id := None;
     Message.thread_id := thread_id envelope;
     Message.raw_swarm := envelope;
     Message.ingress_source := py "swarm";
     Message.ingress_intent := intent envelope;
     Message.origin_agent := origin_agent envelope |}.



(** A state the loop can be in: the offset is a position in a file and
    the fragment held back has no line feed. *)
Definition settled (st : poll_state) : Prop :=
  (0 <= offset st)%Z /\ ~ In LF (remainder st).

(** A file that can be opened, or that is not there. *)
Definition readable (f : file_state) : Prop := f <> Unreadable.

(** ** More of the service *)

(** The order of [sorted] on strings. *)
Definition str_le (a b : pystr) : Prop := str_leb a b = true.

Definition is_set_context (c : call) : bool :=
  match c with SetContext _ _ _ _ => true | _ => false end.

(** Modelled from the spec: a chat platform that refuses what it is asked
    (the bot has no right to manage topics): no topic is created, none is
    renamed. *)
#[export] Instance closed_platform : TelegramClient unit := {
  create_forum_topic b _ _ := (None, b);
  edit_forum_topic b _ _ _ := (false, b)
}.

(** The world of [drifted_world], on the platform that refuses. *)
Definition refused_world : world (list TopicThreadSnapshot.t) unit :=
  {| store := store drifted_world; bot := tt; calls := [] |}.

(** ** More of the vocabulary *)

(** The envelopes that the lines of a file decode to, in the order of the
    lines. *)
Fixpoint decoded (lines : list bytes) : list SwarmEnvelope :=
  match lines with
  | [] => []
  | line :: rest =>
      match msgspec_json_decode (bytes_strip line) with
      | Some e => e :: decoded rest
      | None => decoded rest
      end
  end.

(** The messages for a list of envelopes, with the ids [first],
    [first - 1], ... *)
Fixpoint numbered (first : Z) (es : list SwarmEnvelope)
  : list TelegramIncomingMessage :=
  match es with
  | [] => []
  | e :: es' => message_of e first :: numbered (first - 1) es'
  end.

(** The outcome "created a topic". *)
Definition created_anew (r : outcome (TopicStatus.t * bool)) : Prop :=
  exists status, r = Ok (status, true).

(** An id of 4301 digits, 1 followed by 4300 zeros, and [hello] with that
    chat id. *)
Definition huge_id : Z :=
  Z.of_int (Decimal.Pos (Decimal.D1 (Nat.iter 4300 Decimal.D0 Decimal.Nil))).

Definition oversized : SwarmEnvelope :=
  {| version := 1;
     event_id := event_id hello;
     intent := trigger;
     chat_id := huge_id;
     thread_id := None;
     text := text hello;
     origin_agent := None;
     created_at := None |}.

(** An envelope with an int of more digits than the limit. *)
Definition beyond_limit (e : SwarmEnvelope) : Prop :=
  (int_max_str_digits < int_digits (version e))%nat
  \/ (int_max_str_digits < int_digits (chat_id e))%nat
  \/ (exists t, thread_id e = Some t
                /\ (int_max_str_digits < int_digits t)%nat).

(* ===================================================================== *)
(** * Part II. Properties                                                *)
(* ===================================================================== *)

(** ** Bytes and code points *)

Lemma code_chr (n : N) : (n < 256)%N -> code (chr n) = n.
Proof. apply N_ascii_embedding. Qed.

Lemma chr_code (c : ascii) : chr (code c) = c.
Proof. apply ascii_N_embedding. Qed.

Lemma code_bound (c : ascii) : (code c < 256)%N.
Proof. apply N_ascii_bounded. Qed.

Lemma str_eqb_refl (s : pystr) : str_eqb s s = true.
Proof. induction s; simpl; [reflexivity | now rewrite N.eqb_refl]. Qed.

Lemma str_eqb_eq (a b : pystr) : str_eqb a b = true <-> a = b.
Proof.
  split; [| intros ->; apply str_eqb_refl].
  revert b; induction a as [| x a IH]; destruct b as [| y b]; simpl;
    try congruence.
  intros H; apply andb_prop in H; destruct H as [H1 H2].
  apply N.eqb_eq in H1; apply IH in H2; congruence.
Qed.

(** The base-64 digits of a code point, as UTF-8 lays them out. *)
Lemma base64_digits (c : N) :
  exists q1 r1 q2 r2 q3 r3 : N,
    (c = 64 * q1 + r1 /\ r1 < 64 /\ q1 = 64 * q2 + r2 /\ r2 < 64
     /\ q2 = 64 * q3 + r3 /\ r3 < 64
     /\ c / 64 = q1 /\ c mod 64 = r1 /\ (c / 64) mod 64 = r2
     /\ c / 4096 = q2 /\ (c / 4096) mod 64 = r3 /\ c / 262144 = q3)%N.
Proof.
  exists (c / 64)%N, (c mod 64)%N, (c / 64 / 64)%N, ((c / 64) mod 64)%N,
         (c / 64 / 64 / 64)%N, ((c / 64 / 64) mod 64)%N.
  assert (E2 : (c / 4096 = c / 64 / 64)%N) by now rewrite N.Div0.div_div.
  assert (E3 : (c / 262144 = c / 64 / 64 / 64)%N)
    by now rewrite !N.Div0.div_div.
  rewrite E2, E3.
  repeat split; try reflexivity;
    try (apply N.mod_lt; discriminate); apply N.div_mod; discriminate.
Qed.

(** Decides the tests of the decoder on a byte whose value is known by
    arithmetic. *)
Ltac decide_tests :=
  repeat first
  [ progress cbn [andb negb orb]
  | match goal with
    | |- context [N.eqb ?a ?b] =>
        destruct (N.eqb_spec a b); try lia
    | |- context [N.ltb ?a ?b] =>
        destruct (N.ltb_spec a b); try lia
    | |- context [N.leb ?a ?b] =>
        destruct (N.leb_spec a b); try lia
    end ].

Lemma decode_utf8 (c : N) (rest : bytes) (acc : list N) :
  scalar_value c = true -> (32 <= c)%N -> c <> 34%N -> c <> 92%N ->
  decode_chars (utf8_encode c ++ rest) acc = decode_chars rest (c :: acc).
Proof.
  unfold scalar_value, is_surrogate. intros V L Q K.
  apply andb_prop in V. destruct V as [V1 V2].
  apply N.ltb_lt in V1. apply negb_true_iff in V2.
  assert (V3 : (c < 55296 \/ 57343 < c)%N).
  { apply andb_false_iff in V2. destruct V2 as [V2 | V2];
      [apply N.leb_gt in V2 | apply N.leb_gt in V2]; lia. }
  destruct (base64_digits c)
    as (q1 & r1 & q2 & r2 & q3 & r3 & E1 & B1 & E2 & B2 & E3 & B3
        & D1 & M1 & M2 & D2 & M3 & D3).
  unfold utf8_encode.
  destruct (N.ltb_spec c 128).
  { cbn [decode_chars app]. rewrite code_chr by lia. decide_tests.
    reflexivity. }
  destruct (N.ltb_spec c 2048).
  { rewrite D1, M1. cbn [decode_chars app]. unfold cont.
    rewrite !code_chr by lia. decide_tests. f_equal. f_equal. lia. }
  destruct (N.ltb_spec c 65536).
  { rewrite D2, M2, M1. cbn [decode_chars app]. unfold cont, is_surrogate.
    rewrite !code_chr by lia. decide_tests; f_equal; f_equal; lia. }
  rewrite D3, M3, M2, M1. cbn [decode_chars app]. unfold cont.
  rewrite !code_chr by lia. decide_tests; f_equal; f_equal; lia.
Qed.

Lemma decode_encode_char (c : N) (rest : bytes) (acc : list N) :
  scalar_value c = true ->
  decode_chars (encode_char c ++ rest) acc = decode_chars rest (c :: acc).
Proof.
  intros V. unfold encode_char.
  destruct (N.eqb_spec c 34); [subst; reflexivity |].
  destruct (N.eqb_spec c 92); [subst; reflexivity |].
  destruct (N.eqb_spec c 8); [subst; reflexivity |].
  destruct (N.eqb_spec c 9); [subst; reflexivity |].
  destruct (N.eqb_spec c 10); [subst; reflexivity |].
  destruct (N.eqb_spec c 12); [subst; reflexivity |].
  destruct (N.eqb_spec c 13); [subst; reflexivity |].
  destruct (N.ltb_spec c 32) as [L | L].
  - destruct c as [| p]; [reflexivity |].
    do 5 (try destruct p as [p | p |]); try lia; reflexivity.
  - now apply decode_utf8.
Qed.

Lemma decode_encode_chars (s : pystr) :
  forall b rest acc,
    encode_chars s = Some b ->
    decode_chars (b ++ DQUOTE :: rest) acc = Some (rev acc ++ s, rest).
Proof.
  induction s as [| c s IH]; intros b rest acc E; simpl in E.
  - injection E as <-. simpl. now rewrite app_nil_r.
  - destruct (scalar_value c) eqn:V; [| discriminate].
    destruct (encode_chars s) as [b' |] eqn:E'; [| discriminate].
    injection E as <-. rewrite <- app_assoc, decode_encode_char by assumption.
    rewrite (IH b' rest (c :: acc) eq_refl). simpl.
    now rewrite <- app_assoc.
Qed.

Lemma encode_str_inv (s : pystr) (b : bytes) :
  encode_str s = Some b ->
  exists body, encode_chars s = Some body /\ b = DQUOTE :: body ++ [DQUOTE].
Proof.
  unfold encode_str. destruct (encode_chars s) as [body |]; [| discriminate].
  intros E. injection E as <-. now exists body.
Qed.

(** A string that was encoded decodes to itself, whatever follows the
    closing quote. *)
Lemma decode_encode_str (s : pystr) (b rest : bytes) :
  encode_str s = Some b -> decode_str (b ++ rest) = Some (s, rest).
Proof.
  intros E. apply encode_str_inv in E. destruct E as (body & E & ->).
  change ((DQUOTE :: body ++ [DQUOTE]) ++ rest)
    with (DQUOTE :: (body ++ [DQUOTE]) ++ rest).
  rewrite <- app_assoc. cbn [decode_str app].
  change (code DQUOTE =? 34)%N with true. cbn iota.
  now rewrite (decode_encode_chars s body rest [] E).
Qed.

Lemma encode_chars_total (s : pystr) :
  valid_str s = true -> exists b, encode_chars s = Some b.
Proof.
  induction s as [| c s IH]; simpl; intros V; [now exists [] |].
  apply andb_prop in V. destruct V as [V1 V2]. rewrite V1.
  destruct (IH V2) as [b ->]. eauto.
Qed.

Lemma encode_str_total (s : pystr) :
  valid_str s = true -> exists b, encode_str s = Some b.
Proof.
  intros V. destruct (encode_chars_total s V) as [b E].
  unfold encode_str. rewrite E. eauto.
Qed.

(** ** Integers *)

Lemma scan_uint_bytes (u : Decimal.uint) (rest : bytes) :
  scan_digits rest = (Decimal.Nil, rest) ->
  scan_digits (uint_bytes u ++ rest) = (u, rest).
Proof.
  intros R. induction u; simpl; try assumption;
    change (digit_of _) with (Some Decimal.D0) ||
    change (digit_of _) with (Some Decimal.D1) ||
    change (digit_of _) with (Some Decimal.D2) ||
    change (digit_of _) with (Some Decimal.D3) ||
    change (digit_of _) with (Some Decimal.D4) ||
    change (digit_of _) with (Some Decimal.D5) ||
    change (digit_of _) with (Some Decimal.D6) ||
    change (digit_of _) with (Some Decimal.D7) ||
    change (digit_of _) with (Some Decimal.D8) ||
    change (digit_of _) with (Some Decimal.D9);
    now rewrite IHu.
Qed.

Lemma nzhead_no_zero (d u : Decimal.uint) :
  Decimal.nzhead d <> Decimal.D0 u.
Proof. induction d; simpl; try discriminate; assumption. Qed.

Lemma to_uint_normal (p : positive) :
  Pos.to_uint p = Decimal.unorm (Pos.to_uint p).
Proof.
  rewrite <- (DecimalPos.Unsigned.to_of (Pos.to_uint p)).
  now rewrite DecimalPos.Unsigned.of_to.
Qed.

Lemma to_uint_no_leading_zero (p : positive) :
  leading_zero (Pos.to_uint p) = false.
Proof.
  rewrite to_uint_normal. unfold Decimal.unorm.
  destruct (Decimal.nzhead (Pos.to_uint p)) eqn:E; try reflexivity.
  now apply nzhead_no_zero in E.
Qed.

Lemma uint_bytes_head (u : Decimal.uint) :
  u <> Decimal.Nil ->
  exists c tl, uint_bytes u = c :: tl /\ digit_of c <> None.
Proof.
  destruct u; intros H; try congruence; simpl; eexists; eexists;
    (split; [reflexivity | discriminate]).
Qed.

Lemma int_repr_head (z : Z) :
  exists c tl, int_repr z = c :: tl /\ int_start c = true.
Proof.
  unfold int_repr, int_start. destruct z as [| p | p]; simpl.
  - eexists; eexists; split; reflexivity.
  - destruct (uint_bytes_head _ (DecimalPos.Unsigned.to_uint_nonnil p))
      as (c & tl & E & D).
    exists c, tl. split; [assumption |]. now destruct (digit_of c).
  - eexists; eexists; split; reflexivity.
Qed.

(** An integer that was encoded decodes to itself, when what follows is
    neither a digit nor the rest of a float. *)
Lemma decode_int_repr (z : Z) (rest : bytes) :
  (int_digits z <= int_max_str_digits)%nat ->
  scan_digits rest = (Decimal.Nil, rest) -> float_follows rest = false ->
  decode_int (int_repr z ++ rest) = Some (z, rest).
Proof.
  intros L R F. apply Nat.ltb_ge in L. revert L.
  unfold decode_int, int_repr, int_digits.
  destruct z as [| p | p]; simpl Z.to_int; intros L.
  - cbn [uint_bytes app]. change (code "0" =? 45)%N with false. cbn iota.
    cbn [scan_digits]. change (digit_of "0") with (Some Decimal.D0).
    rewrite R. cbn [leading_zero orb]. rewrite F, L. reflexivity.
  - destruct (uint_bytes_head _ (DecimalPos.Unsigned.to_uint_nonnil p))
      as (c & tl & E & D).
    rewrite E. cbn [app].
    assert (M : (code c =? 45)%N = false).
    { destruct (N.eqb_spec (code c) 45) as [K |]; [| reflexivity].
      exfalso; apply D. unfold digit_of. now rewrite K. }
    rewrite M. change (c :: tl ++ rest) with ((c :: tl) ++ rest).
    rewrite <- E, scan_uint_bytes by assumption.
    rewrite to_uint_no_leading_zero, F, L.
    destruct (Pos.to_uint p) eqn:U;
      try (now apply DecimalPos.Unsigned.to_uint_nonnil in U);
      cbn [orb]; rewrite <- U;
      change (Z.of_int (Decimal.Pos (Pos.to_uint p)))
        with (Z.of_int (Z.to_int (Z.pos p)));
      now rewrite DecimalZ.of_to.
  - cbn [app]. change (code "-" =? 45)%N with true. cbn iota.
    rewrite scan_uint_bytes by assumption.
    rewrite to_uint_no_leading_zero, F, L.
    destruct (Pos.to_uint p) eqn:U;
      try (now apply DecimalPos.Unsigned.to_uint_nonnil in U);
      cbn [orb]; rewrite <- U;
      change (Z.of_int (Decimal.Neg (Pos.to_uint p)))
        with (Z.of_int (Z.to_int (Z.neg p)));
      now rewrite DecimalZ.of_to.
Qed.

(** ** Members of the object *)

Lemma closes_value_cases (c : ascii) :
  closes_value c = true -> c = ","%char \/ c = "}"%char.
Proof.
  unfold closes_value. intros H. apply orb_prop in H.
  destruct H as [H | H]; apply N.eqb_eq in H;
    [left | right]; rewrite <- (chr_code c), H; reflexivity.
Qed.

Lemma int_start_not_ws (c : ascii) : int_start c = true -> json_ws c = false.
Proof.
  unfold int_start, json_ws, digit_of.
  destruct (N.eqb_spec (code c) 32) as [-> |]; [discriminate |].
  destruct (N.eqb_spec (code c) 9) as [-> |]; [discriminate |].
  destruct (N.eqb_spec (code c) 10) as [-> |]; [discriminate |].
  destruct (N.eqb_spec (code c) 13) as [-> |]; [discriminate |].
  reflexivity.
Qed.

Lemma int_start_not_null (c : ascii) :
  int_start c = true -> (code c =? 110)%N = false.
Proof.
  unfold int_start, digit_of.
  destruct (N.eqb_spec (code c) 110) as [-> |]; [discriminate | reflexivity].
Qed.

(** One turn of [decode_members] on a member whose key is [k] and whose
    value [v] is read by [decode_field]. *)
Lemma members_step (fuel : nat) (k : pystr) (kb v rest : bytes) (c : ascii)
    (f f' : fields) :
  encode_str k = Some kb ->
  closes_value c = true ->
  skip_ws (v ++ c :: rest) = v ++ c :: rest ->
  decode_field k (v ++ c :: rest) f = Some (f', c :: rest) ->
  decode_members (S fuel) (kb ++ ":"%char :: v ++ c :: rest) f =
  if (code c =? 44)%N then decode_members fuel (skip_ws rest) f'
  else Some (f', rest).
Proof.
  intros K C W D. cbn [decode_members].
  rewrite (decode_encode_str k kb _ K).
  change (skip_ws (":"%char :: v ++ c :: rest)) with (":"%char :: v ++ c :: rest).
  change (code ":" =? 58)%N with true. cbn iota.
  rewrite W, D.
  destruct (closes_value_cases c C) as [-> | ->]; reflexivity.
Qed.



Lemma closes_value_ends_int (c : ascii) (rest : bytes) :
  closes_value c = true ->
  scan_digits (c :: rest) = (Decimal.Nil, c :: rest)
  /\ float_follows (c :: rest) = false.
Proof.
  intros C. destruct (closes_value_cases c C) as [-> | ->]; now split.
Qed.

Lemma member_reads (name : string) (v : bytes) (upd : fields -> fields) :
  encode_str (py name) = Some (DQUOTE :: lit name ++ [DQUOTE]) ->
  (forall c rest, skip_ws (v ++ c :: rest) = v ++ c :: rest) ->
  (forall c rest f,
      closes_value c = true ->
      decode_field (py name) (v ++ c :: rest) f = Some (upd f, c :: rest)) ->
  reads_as (member name v) upd.
Proof.
  intros K W D fuel rest c f C. unfold member.
  replace ((DQUOTE :: lit name ++ DQUOTE :: ":"%char :: v) ++ c :: rest)
    with ((DQUOTE :: lit name ++ [DQUOTE]) ++ ":"%char :: v ++ c :: rest)
    by (cbn [app]; now rewrite <- !app_assoc).
  apply members_step with (k := py name); auto.
Qed.

Lemma encode_int_inv (z : Z) (b : bytes) :
  encode_int z = Some b ->
  b = int_repr z /\ (int_digits z <= int_max_str_digits)%nat.
Proof.
  unfold encode_int.
  destruct (Nat.ltb_spec int_max_str_digits (int_digits z)) as [| L];
    [discriminate |].
  intros H. injection H as <-. now split.
Qed.

Lemma encode_opt_int_inv (o : option Z) (b : bytes) :
  encode_opt encode_int o = Some b ->
  b = match o with Some t => int_repr t | None => lit "null" end
  /\ (forall t, o = Some t -> (int_digits t <= int_max_str_digits)%nat).
Proof.
  destruct o as [t |]; cbn [encode_opt]; intros E.
  - apply encode_int_inv in E. destruct E as [-> L].
    split; [reflexivity |]. now intros t' [= <-].
  - injection E as <-. split; [reflexivity | discriminate].
Qed.

Lemma skip_ws_int (z : Z) (rest : bytes) :
  skip_ws (int_repr z ++ rest) = int_repr z ++ rest.
Proof.
  destruct (int_repr_head z) as (c & tl & -> & I).
  cbn [app]. unfold skip_ws. cbn [lstrip].
  now rewrite (int_start_not_ws c I).
Qed.

Lemma skip_ws_str (s : pystr) (b rest : bytes) :
  encode_str s = Some b -> skip_ws (b ++ rest) = b ++ rest.
Proof.
  intros E. apply encode_str_inv in E. destruct E as (body & _ & ->).
  reflexivity.
Qed.

Lemma decode_opt_int (o : option Z) (c : ascii) (rest : bytes) :
  (forall t, o = Some t -> (int_digits t <= int_max_str_digits)%nat) ->
  closes_value c = true ->
  decode_opt decode_int
    (match o with Some t => int_repr t | None => lit "null" end ++ c :: rest)
  = Some (o, c :: rest).
Proof.
  intros L C. destruct o as [t |]; [| reflexivity].
  destruct (closes_value_ends_int c rest C) as [R F].
  unfold decode_opt. rewrite (decode_int_repr t _ (L t eq_refl) R F).
  destruct (int_repr_head t) as (c0 & tl & -> & I).
  cbn [app]. now rewrite (int_start_not_null c0 I).
Qed.

Lemma decode_opt_str (o : option pystr) (b rest : bytes) :
  encode_opt encode_str o = Some b ->
  decode_opt decode_str (b ++ rest) = Some (o, rest).
Proof.
  destruct o as [s |]; cbn [encode_opt]; intros E.
  - unfold decode_opt. rewrite (decode_encode_str s b _ E).
    apply encode_str_inv in E. destruct E as (body & _ & ->). reflexivity.
  - injection E as <-. reflexivity.
Qed.

Lemma skip_ws_opt_str (o : option pystr) (b rest : bytes) :
  encode_opt encode_str o = Some b -> skip_ws (b ++ rest) = b ++ rest.
Proof.
  destruct o as [s |]; cbn [encode_opt]; intros E.
  - eapply skip_ws_str; eassumption.
  - injection E as <-. reflexivity.
Qed.

Lemma decode_intent_name (i : SwarmIntent) (b rest : bytes) :
  encode_str (intent_name i) = Some b ->
  decode_intent (b ++ rest) = Some (i, rest).
Proof.
  intros E. unfold decode_intent. rewrite (decode_encode_str _ b _ E).
  now destruct i.
Qed.

(** The eight members of an encoded envelope, read one by one. *)

Lemma version_reads (z : Z) (b : bytes) :
  encode_int z = Some b ->
  reads_as (member "version" b) (fun f => with_version f z).
Proof.
  intros E. apply encode_int_inv in E. destruct E as [-> L].
  apply member_reads; [reflexivity | intros; apply skip_ws_int |].
  intros c rest f C. destruct (closes_value_ends_int c rest C) as [R F].
  change (decode_field (py "version") ?s f)
    with (set_field decode_int (with_version f) s).
  unfold set_field. now rewrite decode_int_repr.
Qed.

Lemma event_id_reads (s : pystr) (b : bytes) :
  encode_str s = Some b ->
  reads_as (member "event_id" b) (fun f => with_event_id f s).
Proof.
  intros E.
  apply member_reads;
    [reflexivity | intros; eapply skip_ws_str; eassumption |].
  intros c rest f C.
  change (decode_field (py "event_id") ?s f)
    with (set_field decode_str (with_event_id f) s).
  unfold set_field. now rewrite (decode_encode_str s b _ E).
Qed.

Lemma intent_reads (i : SwarmIntent) (b : bytes) :
  encode_str (intent_name i) = Some b ->
  reads_as (member "intent" b) (fun f => with_intent f i).
Proof.
  intros E.
  apply member_reads;
    [reflexivity | intros; eapply skip_ws_str; eassumption |].
  intros c rest f C.
  change (decode_field (py "intent") ?s f)
    with (set_field decode_intent (with_intent f) s).
  unfold set_field. now rewrite (decode_intent_name i b _ E).
Qed.

Lemma chat_id_reads (z : Z) (b : bytes) :
  encode_int z = Some b ->
  reads_as (member "chat_id" b) (fun f => with_chat_id f z).
Proof.
  intros E. apply encode_int_inv in E. destruct E as [-> L].
  apply member_reads; [reflexivity | intros; apply skip_ws_int |].
  intros c rest f C. destruct (closes_value_ends_int c rest C) as [R F].
  change (decode_field (py "chat_id") ?s f)
    with (set_field decode_int (with_chat_id f) s).
  unfold set_field. now rewrite decode_int_repr.
Qed.

Lemma thread_id_reads (o : option Z) (b : bytes) :
  encode_opt encode_int o = Some b ->
  reads_as (member "thread_id" b) (fun f => with_thread_id f o).
Proof.
  intros E. apply encode_opt_int_inv in E. destruct E as [-> L].
  apply member_reads; [reflexivity | |].
  - intros c rest. destruct o; [apply skip_ws_int | reflexivity].
  - intros c rest f C.
    change (decode_field (py "thread_id") ?s f)
      with (set_field (decode_opt decode_int) (with_thread_id f) s).
    unfold set_field. now rewrite decode_opt_int.
Qed.

Lemma text_reads (s : pystr) (b : bytes) :
  encode_str s = Some b ->
  reads_as (member "text" b) (fun f => with_text f s).
Proof.
  intros E.
  apply member_reads;
    [reflexivity | intros; eapply skip_ws_str; eassumption |].
  intros c rest f C.
  change (decode_field (py "text") ?s f)
    with (set_field decode_str (with_text f) s).
  unfold set_field. now rewrite (decode_encode_str s b _ E).
Qed.

Lemma origin_agent_reads (o : option pystr) (b : bytes) :
  encode_opt encode_str o = Some b ->
  reads_as (member "origin_agent" b) (fun f => with_origin_agent f o).
Proof.
  intros E.
  apply member_reads;
    [reflexivity | intros; eapply skip_ws_opt_str; eassumption |].
  intros c rest f C.
  change (decode_field (py "origin_agent") ?s f)
    with (set_field (decode_opt decode_str) (with_origin_agent f) s).
  unfold set_field. now rewrite (decode_opt_str o b _ E).
Qed.

Lemma created_at_reads (o : option pystr) (b : bytes) :
  encode_opt encode_str o = Some b ->
  reads_as (member "created_at" b) (fun f => with_created_at f o).
Proof.
  intros E.
  apply member_reads;
    [reflexivity | intros; eapply skip_ws_opt_str; eassumption |].
  intros c rest f C.
  change (decode_field (py "created_at") ?s f)
    with (set_field (decode_opt decode_str) (with_created_at f) s).
  unfold set_field. now rewrite (decode_opt_str o b _ E).
Qed.

(** ** The object *)

Lemma join_comma_cons (m : bytes) (ms : list bytes) :
  ms <> [] -> join_comma (m :: ms) = m ++ ","%char :: join_comma ms.
Proof. destruct ms; [congruence | reflexivity]. Qed.

Lemma skip_ws_quoted (m rest : bytes) :
  quoted m -> skip_ws (m ++ rest) = m ++ rest.
Proof. intros [tl ->]. reflexivity. Qed.

Lemma join_comma_quoted (m : bytes) (ms : list bytes) :
  quoted m -> quoted (join_comma (m :: ms)).
Proof.
  intros [tl ->]. destruct ms; cbn [join_comma app]; eexists; reflexivity.
Qed.

Lemma member_quoted (name : string) (v : bytes) : quoted (member name v).
Proof. unfold member. eexists; reflexivity. Qed.

Lemma closes_comma : closes_value ","%char = true.
Proof. reflexivity. Qed.

Lemma closes_brace : closes_value "}"%char = true.
Proof. reflexivity. Qed.

(** The members of an object are read to the closing brace. *)
Lemma read_members (ms : list bytes) (upd : fields -> fields) :
  members_read ms upd -> ms <> [] ->
  forall fuel rest f,
    decode_members (List.length ms + fuel) (join_comma ms ++ "}"%char :: rest) f
    = Some (upd f, rest).
Proof.
  induction 1 as [| m u ms us Hm Qm Hms IH]; [congruence |].
  intros _ fuel rest f. destruct ms as [| m' ms'].
  - inversion Hms; subst. cbn [join_comma List.length Nat.add].
    now rewrite (Hm fuel rest "}"%char f closes_brace).
  - rewrite join_comma_cons by discriminate.
    rewrite <- app_assoc. cbn [app List.length Nat.add].
    rewrite (Hm _ _ ","%char f closes_comma).
    change (code "," =? 44)%N with true. cbn iota.
    inversion Hms as [| ? ? ? ? ? Qm' ?]; subst.
    rewrite skip_ws_quoted by now apply join_comma_quoted.
    apply (IH ltac:(discriminate) fuel rest (u f)).
Qed.


Lemma decode_members_more_fuel (n : nat) :
  forall m s f r,
    decode_members n s f = Some r -> n <= m -> decode_members m s f = Some r.
Proof.
  induction n as [| n IH]; intros m s f r D L; [discriminate |].
  destruct m as [| m]; [lia |].
  cbn [decode_members] in *.
  destruct (decode_str s) as [[key s1] |]; [| discriminate].
  destruct (skip_ws s1) as [| c s2]; [discriminate |].
  destruct (code c =? 58)%N; [| discriminate].
  destruct (decode_field key (skip_ws s2) f) as [[f' s3] |]; [| discriminate].
  destruct (skip_ws s3) as [| c' s4]; [discriminate |].
  destruct (code c' =? 44)%N; [| assumption].
  apply IH; [assumption | lia].
Qed.

Lemma encode_intent_name (i : SwarmIntent) :
  exists b, encode_str (intent_name i) = Some b.
Proof. destruct i; eexists; reflexivity. Qed.

Lemma encode_opt_str_total (o : option pystr) :
  valid_opt_str o = true -> exists b, encode_opt encode_str o = Some b.
Proof.
  destruct o as [s |]; cbn; [apply encode_str_total | eauto].
Qed.

(** The fields once the eight members of the envelope [e] are read. *)
(** The members of an envelope that was encoded. *)
Lemma envelope_members_inv (e : SwarmEnvelope) (ms : list bytes) :
  envelope_members e = Some ms ->
  exists ver eid int cid tid txt org cat,
    encode_int (version e) = Some ver
    /\ encode_str (event_id e) = Some eid
    /\ encode_str (intent_name (intent e)) = Some int
    /\ encode_int (chat_id e) = Some cid
    /\ encode_opt encode_int (thread_id e) = Some tid
    /\ encode_str (text e) = Some txt
    /\ encode_opt encode_str (origin_agent e) = Some org
    /\ encode_opt encode_str (created_at e) = Some cat
    /\ ms = [ member "version" ver; member "event_id" eid;
              member "intent" int; member "chat_id" cid;
              member "thread_id" tid; member "text" txt;
              member "origin_agent" org; member "created_at" cat ].
Proof.
  unfold envelope_members.
  destruct (encode_int (version e)) as [ver |]; [| discriminate].
  destruct (encode_str (event_id e)) as [eid |]; [| discriminate].
  destruct (encode_str (intent_name (intent e))) as [int |]; [| discriminate].
  destruct (encode_int (chat_id e)) as [cid |]; [| discriminate].
  destruct (encode_opt encode_int (thread_id e)) as [tid |]; [| discriminate].
  destruct (encode_str (text e)) as [txt |]; [| discriminate].
  destruct (encode_opt encode_str (origin_agent e)) as [org |];
    [| discriminate].
  destruct (encode_opt encode_str (created_at e)) as [cat |];
    [| discriminate].
  intros H. injection H as <-.
  exists ver, eid, int, cid, tid, txt, org, cat. repeat split.
Qed.

Lemma envelope_members_read (e : SwarmEnvelope) (ms : list bytes) :
  envelope_members e = Some ms ->
  exists upd,
    members_read ms upd
    /\ List.length ms = 8
    /\ forall f,
        upd f =
        with_created_at
          (with_origin_agent
             (with_text
                (with_thread_id
                   (with_chat_id
                      (with_intent
                         (with_event_id (with_version f (version e))
                            (event_id e))
                         (intent e))
                      (chat_id e))
                   (thread_id e))
                (text e))
             (origin_agent e))
          (created_at e).
Proof.
  intros H. apply envelope_members_inv in H.
  destruct H
    as (ver & eid & int & cid & tid & txt & org & cat
        & E0 & E1 & E2 & E6 & E7 & E3 & E4 & E5 & ->).
  eexists. split; [| split; [reflexivity |]].
  - eapply read_more;
      [apply version_reads; exact E0 | apply member_quoted |].
    eapply read_more;
      [apply event_id_reads; exact E1 | apply member_quoted |].
    eapply read_more; [apply intent_reads; exact E2 | apply member_quoted |].
    eapply read_more;
      [apply chat_id_reads; exact E6 | apply member_quoted |].
    eapply read_more;
      [apply thread_id_reads; exact E7 | apply member_quoted |].
    eapply read_more; [apply text_reads; exact E3 | apply member_quoted |].
    eapply read_more;
      [apply origin_agent_reads; exact E4 | apply member_quoted |].
    eapply read_more;
      [apply created_at_reads; exact E5 | apply member_quoted |].
    exact read_none.
  - reflexivity.
Qed.

Lemma length_join_comma (ms : list bytes) (upd : fields -> fields) :
  members_read ms upd -> List.length ms <= List.length (join_comma ms).
Proof.
  induction 1 as [| m u ms us Hm [tl ->] Hms IH]; [apply Nat.le_refl |].
  destruct ms as [| m' ms'].
  - cbn. lia.
  - rewrite join_comma_cons by discriminate.
    rewrite length_app. cbn [List.length] in *. lia.
Qed.

(** An encoded object is read back as the updates of its members. *)
Lemma decode_object_encoded (ms : list bytes) (upd : fields -> fields)
    (rest : bytes) :
  members_read ms upd -> ms <> [] ->
  decode_object (encode_object ms ++ rest) = Some (upd no_fields, rest).
Proof.
  intros R NE. unfold encode_object.
  assert (Q : quoted (join_comma ms)).
  { destruct R as [| m u ms us Hm Qm Hms]; [congruence |].
    now apply join_comma_quoted. }
  cbn [app decode_object]. change (code "{" =? 123)%N with true. cbn iota.
  rewrite <- app_assoc. cbn [app].
  rewrite skip_ws_quoted by assumption.
  destruct Q as [tl Q]. rewrite Q. cbn [app].
  change (code DQUOTE =? 125)%N with false. cbn iota.
  change (DQUOTE :: tl ++ "}"%char :: rest)
    with ((DQUOTE :: tl) ++ "}"%char :: rest).
  rewrite <- Q.
  apply decode_members_more_fuel with (n := List.length ms + 0).
  - now apply read_members.
  - rewrite length_app. pose proof (length_join_comma ms upd R). lia.
Qed.

Lemma length_uint_bytes (u : Decimal.uint) :
  List.length (uint_bytes u) = Decimal.nb_digits u.
Proof. induction u; cbn [uint_bytes List.length Decimal.nb_digits]; auto. Qed.

Lemma int_digits_repr (z : Z) :
  (int_digits z <= List.length (int_repr z))%nat.
Proof.
  unfold int_digits, int_repr.
  destruct (Z.to_int z); cbn [List.length]; rewrite length_uint_bytes; lia.
Qed.

Lemma encode_int_total (z : Z) :
  valid_int z = true -> encode_int z = Some (int_repr z).
Proof.
  unfold valid_int, encode_int. intros V. apply Nat.leb_le in V.
  pose proof (int_digits_repr z).
  destruct (Nat.ltb_spec int_max_str_digits (int_digits z)); [lia |].
  reflexivity.
Qed.

Lemma encode_opt_int_total (o : option Z) :
  valid_opt_int o = true -> exists b, encode_opt encode_int o = Some b.
Proof.
  destruct o as [z |]; cbn [valid_opt_int encode_opt]; intros V;
    [rewrite (encode_int_total z V) |]; eauto.
Qed.

Lemma envelope_members_total (e : SwarmEnvelope) :
  valid_envelope e = true -> exists ms, envelope_members e = Some ms.
Proof.
  unfold valid_envelope, envelope_members. intros V.
  apply andb_prop in V. destruct V as [V V7].
  apply andb_prop in V. destruct V as [V V6].
  apply andb_prop in V. destruct V as [V V5].
  apply andb_prop in V. destruct V as [V V4].
  apply andb_prop in V. destruct V as [V V3].
  apply andb_prop in V. destruct V as [V1 V2].
  rewrite (encode_int_total _ V5), (encode_int_total _ V6).
  destruct (encode_opt_int_total _ V7) as [b0 ->].
  destruct (encode_str_total _ V1) as [b1 ->].
  destruct (encode_intent_name (intent e)) as [b2 ->].
  destruct (encode_str_total _ V2) as [b3 ->].
  destruct (encode_opt_str_total _ V3) as [b4 ->].
  destruct (encode_opt_str_total _ V4) as [b5 ->].
  eauto.
Qed.

Lemma msgspec_json_encode_total (e : SwarmEnvelope) :
  valid_envelope e = true -> exists b, msgspec_json_encode e = Some b.
Proof.
  intros V. destruct (envelope_members_total e V) as [ms E].
  unfold msgspec_json_encode. rewrite E. eauto.
Qed.

(** What was encoded decodes to the envelope it came from. *)
Lemma decode_encoded (e : SwarmEnvelope) (b : bytes) :
  msgspec_json_encode e = Some b -> msgspec_json_decode b = Some e.
Proof.
  unfold msgspec_json_encode.
  destruct (envelope_members e) as [ms |] eqn:E; [| discriminate].
  intros H. injection H as <-.
  destruct (envelope_members_read e ms E) as (upd & R & L & U).
  unfold msgspec_json_decode.
  change (skip_ws (encode_object ms)) with (encode_object ms).
  rewrite <- (app_nil_r (encode_object ms)).
  rewrite (decode_object_encoded ms upd [] R)
    by (intros ->; discriminate).
  cbn [skip_ws lstrip]. rewrite U. now destruct e.
Qed.

(** C8, as the code has it.  Round trip of the envelope codec: every
    envelope whose strings are text that UTF-8 can carry and whose ints
    are within the limit of the conversion is encoded, and decoding the
    bytes of the encoding gives back an envelope equal to the original. *)
Theorem envelope_round_trip (e : SwarmEnvelope) :
  valid_envelope e = true ->
  exists b, msgspec_json_encode e = Some b /\ msgspec_json_decode b = Some e.
Proof.
  intros V. destruct (msgspec_json_encode_total e V) as [b E].
  exists b. split; [assumption | now apply decode_encoded].
Qed.

(** ** Lines *)

Lemma split_lf_nonempty (b : bytes) : split_lf b <> [].
Proof.
  destruct b as [| c b]; simpl; [discriminate |].
  destruct (Ascii.eqb c LF); [discriminate |].
  destruct (split_lf b); discriminate.
Qed.

Lemma removelast_cons {A} (x : A) (l : list A) :
  l <> [] -> removelast (x :: l) = x :: removelast l.
Proof. destruct l; [congruence | reflexivity]. Qed.

Lemma last_cons {A} (x : A) (l : list A) (d : A) :
  l <> [] -> last (x :: l) d = last l d.
Proof. destruct l; [congruence | reflexivity]. Qed.

(** Splitting what was appended, after the pending fragment, continues
    the split of the file. *)
Lemma split_lf_app (a b : bytes) :
  split_lf (a ++ b) = complete_lines a ++ split_lf (pending a ++ b).
Proof.
  unfold complete_lines, pending.
  induction a as [| c a IH]; [reflexivity |].
  cbn [app split_lf]. destruct (Ascii.eqb c LF) eqn:C.
  - rewrite removelast_cons, last_cons by apply split_lf_nonempty.
    cbn [app]. now rewrite IH.
  - rewrite IH. destruct (split_lf a) as [| l ls] eqn:E.
    + now apply split_lf_nonempty in E.
    + destruct ls as [| l' ls'].
      * cbn [removelast last app split_lf]. now rewrite C.
      * rewrite (removelast_cons l), (removelast_cons (c :: l)),
          (last_cons l), (last_cons (c :: l)) by discriminate.
        reflexivity.
Qed.


Lemma last_app_nonempty {A} (l l' : list A) (d : A) :
  l' <> [] -> last (l ++ l') d = last l' d.
Proof.
  intros NE. induction l as [| x l IH]; [reflexivity |].
  cbn [app]. rewrite last_cons; [assumption |].
  destruct l; [assumption | discriminate].
Qed.

Lemma complete_lines_app (a b : bytes) :
  complete_lines (a ++ b)
  = complete_lines a ++ complete_lines (pending a ++ b).
Proof.
  unfold complete_lines at 1. rewrite split_lf_app.
  now rewrite removelast_app by apply split_lf_nonempty.
Qed.

Lemma pending_app (a b : bytes) : pending (a ++ b) = pending (pending a ++ b).
Proof.
  unfold pending at 1. rewrite split_lf_app.
  now rewrite last_app_nonempty by apply split_lf_nonempty.
Qed.

Lemma LF_eqb (c : ascii) : Ascii.eqb c LF = true <-> c = LF.
Proof. apply Ascii.eqb_eq. Qed.

(** A segment holds no line feed. *)
Lemma split_lf_segments (b : bytes) :
  Forall (fun seg => ~ In LF seg) (split_lf b).
Proof.
  induction b as [| c b IH]; cbn [split_lf].
  - constructor; [intros [] | constructor].
  - destruct (Ascii.eqb c LF) eqn:C.
    + constructor; [intros [] | assumption].
    + destruct (split_lf b) as [| l ls]; [repeat constructor |].
      * intros [H | []]. apply LF_eqb in H. congruence.
      * inversion IH as [| ? ? Hl Hls]; subst. constructor; [| assumption].
        intros [H | H]; [| now apply Hl].
        apply LF_eqb in H. congruence.
Qed.

Lemma split_lf_no_lf (s : bytes) : ~ In LF s -> split_lf s = [s].
Proof.
  induction s as [| c s IH]; intros N; [reflexivity |].
  cbn [split_lf]. destruct (Ascii.eqb c LF) eqn:C.
  - exfalso. apply N. left. now apply LF_eqb.
  - rewrite IH; [reflexivity |]. intros H. apply N. now right.
Qed.

Lemma split_lf_line (a rest : bytes) :
  ~ In LF a -> split_lf (a ++ LF :: rest) = a :: split_lf rest.
Proof.
  induction a as [| c a IH]; intros N.
  - reflexivity.
  - cbn [app split_lf]. destruct (Ascii.eqb c LF) eqn:C.
    + exfalso. apply N. left. now apply LF_eqb.
    + rewrite IH; [reflexivity |]. intros H. apply N. now right.
Qed.

Lemma pending_no_lf (b : bytes) : ~ In LF (pending b).
Proof.
  unfold pending. pose proof (split_lf_segments b) as F.
  pose proof (split_lf_nonempty b) as NE.
  rewrite Forall_forall in F. apply F.
  destruct (split_lf b) as [| l ls]; [congruence |].
  rewrite (app_removelast_last [] (l := l :: ls)) at 2 by discriminate.
  apply in_or_app. right. now left.
Qed.

Lemma complete_lines_pending (b : bytes) : complete_lines (pending b) = [].
Proof.
  unfold complete_lines. now rewrite split_lf_no_lf by apply pending_no_lf.
Qed.

Lemma pending_pending (b : bytes) : pending (pending b) = pending b.
Proof.
  unfold pending at 1. now rewrite split_lf_no_lf by apply pending_no_lf.
Qed.

Lemma pop_or_empty_split (b : bytes) :
  pop_or_empty (split_lf b) = (complete_lines b, pending b).
Proof.
  unfold pop_or_empty, complete_lines, pending.
  destruct (split_lf b) eqn:E; [now apply split_lf_nonempty in E | reflexivity].
Qed.

(** ** The loop over the lines *)

Lemma process_lines_app (l1 l2 : list bytes) (n : Z) :
  process_lines (l1 ++ l2) n =
  (fst (process_lines l1 n)
     ++ fst (process_lines l2 (snd (process_lines l1 n))),
   snd (process_lines l2 (snd (process_lines l1 n)))).
Proof.
  revert n. induction l1 as [| line l1 IH]; intros n.
  - cbn. now destruct (process_lines l2 n).
  - cbn [app process_lines].
    destruct (negb (truthy (bytes_strip line))); [apply IH |].
    destruct (msgspec_json_decode (bytes_strip line)) as [e |].
    + destruct (_to_synthetic_message e n) as [logs [m |]].
      * rewrite IH. destruct (process_lines l1 (n - 1)) as [evs k].
        cbn [fst snd]. now rewrite <- app_assoc.
      * rewrite IH. destruct (process_lines l1 n) as [evs k].
        cbn [fst snd]. now rewrite <- app_assoc.
    + rewrite IH. now destruct (process_lines l1 n) as [evs k].
Qed.

Lemma yielded_app (a b : list event) :
  yielded (a ++ b) = yielded a ++ yielded b.
Proof.
  induction a as [| e a IH]; [reflexivity |].
  destruct e; cbn [app yielded]; now rewrite IH.
Qed.

(** Whether an envelope is translated does not depend on the id. *)
Lemma synthetic_message_cases (e : SwarmEnvelope) (n : Z) :
  (exists m, _to_synthetic_message e n = ([], Some m)
             /\ Message.raw_swarm m = e /\ Message.message_id m = n
             /\ forall k, exists m', _to_synthetic_message e k = ([], Some m'))
  \/ (exists logs, forall k, _to_synthetic_message e k = (logs, None)
                             /\ yielded logs = []).
Proof.
  unfold _to_synthetic_message.
  destruct (negb (intent_eqb (intent e) trigger)).
  - right. exists []. now split.
  - destruct (negb (truthy (str_strip (text e)))).
    + right. eexists. now split.
    + left. eexists. repeat split. intros k. eexists. reflexivity.
Qed.

(** The messages of the loop: one for each line that gives rise to one,
    in the order of the lines, with ids that go down one by one. *)
Lemma process_lines_yields (lines : list bytes) :
  forall n,
    map Message.raw_swarm (yielded (fst (process_lines lines n)))
    = triggers lines
    /\ map Message.message_id (yielded (fst (process_lines lines n)))
       = ids_from n (List.length (triggers lines))
    /\ snd (process_lines lines n)
       = (n - Z.of_nat (List.length (triggers lines)))%Z.
Proof.
  induction lines as [| line lines IH]; intros n.
  - cbn. repeat split. lia.
  - cbn [process_lines triggers]. unfold line_trigger.
    destruct (truthy (bytes_strip line)); cbn [negb]; [| apply IH].
    destruct (msgspec_json_decode (bytes_strip line)) as [e |].
    + destruct (synthetic_message_cases e n)
        as [(m & E & R & I & A) | (logs & A)].
      * rewrite E. destruct (A 0%Z) as [m' ->].
        destruct (IH (n - 1)%Z) as (H1 & H2 & H3).
        destruct (process_lines lines (n - 1)) as [evs k].
        cbn [fst snd app yielded map List.length ids_from] in *.
        rewrite H1, H2, H3, R, I. repeat split. lia.
      * destruct (A n) as [-> Y]. destruct (A 0%Z) as [-> _].
        destruct (IH n) as (H1 & H2 & H3).
        destruct (process_lines lines n) as [evs k].
        cbn [fst snd] in *. rewrite yielded_app, Y. cbn [app].
        now rewrite H1, H2, H3.
    + destruct (IH n) as (H1 & H2 & H3).
      destruct (process_lines lines n) as [evs k].
      cbn [fst snd yielded] in *. now rewrite H1, H2, H3.
Qed.

(** ** One cycle *)

Lemma len_app (a b : bytes) : len (a ++ b) = (len a + len b)%Z.
Proof. unfold len. rewrite length_app. lia. Qed.

Lemma len_nonneg (a : bytes) : (0 <= len a)%Z.
Proof. unfold len. lia. Qed.

Lemma skipn_len_app (a b : bytes) : skipn (Z.to_nat (len a)) (a ++ b) = b.
Proof.
  unfold len. rewrite Nat2Z.id. induction a; [reflexivity | assumption].
Qed.

(** On a file that grew, the chunk is what was appended and the offset
    moves on by its length. *)
Lemma read_chunk_appended (content more : bytes) :
  _read_chunk (File (content ++ more)) (len content)
  = Ok (more, (len content + len more)%Z).
Proof.
  unfold _read_chunk. rewrite len_app.
  pose proof (len_nonneg content). pose proof (len_nonneg more).
  destruct (Z.ltb_spec (len content + len more) (len content)); [lia |].
  destruct (Z.ltb_spec (len content) 0); [lia |].
  now rewrite skipn_len_app.
Qed.

Lemma poll_cycle_appended (content more : bytes) (st : poll_state) :
  tracks st content ->
  poll_cycle (File (content ++ more)) st =
  (fst (process_lines (complete_lines (pending content ++ more))
          (next_message_id st)) ++ [Sleep],
   Ok {| offset := (offset st + len more)%Z;
         remainder := pending (content ++ more);
         next_message_id :=
           snd (process_lines (complete_lines (pending content ++ more))
                  (next_message_id st)) |}).
Proof.
  intros [HO HR]. unfold poll_cycle. rewrite HO, read_chunk_appended.
  destruct more as [| c more]; cbn [truthy].
  - rewrite !app_nil_r, complete_lines_pending, HR. reflexivity.
  - rewrite HR, pop_or_empty_split, <- pending_app.
    now destruct (process_lines _ _).
Qed.

Lemma tracks_appended (content more : bytes) (st : poll_state) (n : Z) :
  tracks st content ->
  tracks {| offset := (offset st + len more)%Z;
            remainder := pending (content ++ more);
            next_message_id := n |} (content ++ more).
Proof.
  intros [HO HR]. split; cbn; [rewrite len_app; lia | reflexivity].
Qed.

(** ** The loop over a file that is appended to *)

Lemma poll_from_observed (appended : list bytes) :
  forall content st,
    tracks st content ->
    exists evs st',
      poll_from st (observed content appended) = (evs, Ok st')
      /\ tracks st' (content ++ List.concat appended)
      /\ yielded evs
         = yielded (fst (process_lines
                           (complete_lines (pending content ++ List.concat appended))
                           (next_message_id st)))
      /\ next_message_id st'
         = snd (process_lines
                  (complete_lines (pending content ++ List.concat appended))
                  (next_message_id st)).
Proof.
  induction appended as [| a appended IH]; intros content st T.
  - exists [], st. cbn [observed poll_from List.concat].
    rewrite !app_nil_r, complete_lines_pending.
    split; [reflexivity | split; [assumption | split; reflexivity]].
  - cbn [observed poll_from List.concat].
    rewrite (poll_cycle_appended content a st T).
    set (p := process_lines (complete_lines (pending content ++ a))
                (next_message_id st)).
    destruct (IH (content ++ a) _ (tracks_appended content a st (snd p) T))
      as (evs & st' & E & T' & Y & N).
    rewrite E. eexists; eexists. split; [reflexivity |].
    cbn [next_message_id] in Y, N.
    rewrite (app_assoc (pending content) a),
      (complete_lines_app (pending content ++ a)).
    rewrite <- pending_app, process_lines_app. fold p. cbn [fst snd].
    rewrite <- app_assoc in T'. split; [assumption |].
    rewrite !yielded_app, Y. cbn [yielded]. rewrite app_nil_r.
    now split.
Qed.

(** C5. Over a file that is only appended to, the tailer yields the
    records in file order, each of them once: whatever the appends seen by
    the successive cycles, the messages are those of one pass over the
    complete lines of the whole file, one for each line that gives rise to
    a message, in the order of the lines; a cycle reads exactly the bytes
    appended since the previous one and moves the offset by their
    number, so that the offset ends at the end of the file. *)
Theorem tailing_in_file_order (appended : list bytes) :
  (exists evs st,
     poll_swarm_inbox (observed [] appended) = (evs, Ok st)
     /\ offset st = len (List.concat appended)
     /\ remainder st = pending (List.concat appended)
     /\ yielded evs
        = yielded (fst (process_lines (complete_lines (List.concat appended))
                          (-1)))
     /\ map Message.raw_swarm (yielded evs)
        = triggers (complete_lines (List.concat appended)))
  /\ (forall content more st,
        tracks st content ->
        _read_chunk (File (content ++ more)) (offset st)
        = Ok (more, (offset st + len more)%Z)
        /\ exists evs st',
             poll_cycle (File (content ++ more)) st = (evs, Ok st')
             /\ offset st' = (offset st + len more)%Z
             /\ tracks st' (content ++ more)).
Proof.
  split.
  - assert (T : tracks initial_state []) by (split; reflexivity).
    destruct (poll_from_observed appended [] initial_state T)
      as (evs & st & E & [HO HR] & Y & _).
    exists evs, st. cbn [app] in *.
    change (pending [] ++ List.concat appended) with (List.concat appended) in Y.
    repeat split; try assumption.
    rewrite Y. apply process_lines_yields.
  - intros content more st T. split.
    + destruct T as [-> _]. apply read_chunk_appended.
    + rewrite (poll_cycle_appended content more st T).
      eexists; eexists. split; [reflexivity |]. split; [reflexivity |].
      now apply tracks_appended.
Qed.

(** ** A file that is not there *)

Lemma poll_cycle_missing (st : poll_state) :
  poll_cycle Missing st
  = ([Sleep], Ok {| offset := 0; remainder := [];
                    next_message_id := next_message_id st |}).
Proof. reflexivity. Qed.

Lemma poll_from_missing (n : nat) (files : list file_state) :
  poll_from initial_state (repeat Missing n ++ files)
  = (repeat Sleep n ++ fst (poll_from initial_state files),
     snd (poll_from initial_state files)).
Proof.
  induction n as [| n IH]; cbn [repeat app].
  - now destruct (poll_from initial_state files).
  - cbn [poll_from]. rewrite poll_cycle_missing.
    change {| offset := 0; remainder := [];
              next_message_id := next_message_id initial_state |}
      with initial_state.
    now rewrite IH.
Qed.

Lemma yielded_sleeps (n : nat) : yielded (repeat Sleep n) = [].
Proof. induction n; [reflexivity | assumption]. Qed.

(** C7. Polling a path with no file never raises: a cycle whose open
    fails with file-not-found puts the offset and the fragment back to 0
    and empty, yields nothing and sleeps; after any number of such cycles
    the loop goes on as from the start, so that the messages are those of
    the files found once the file is there. *)
Theorem missing_file_is_an_empty_queue (n : nat) (files : list file_state) :
  (forall st,
     poll_cycle Missing st
     = ([Sleep], Ok {| offset := 0; remainder := [];
                       next_message_id := next_message_id st |}))
  /\ poll_swarm_inbox (repeat Missing n) = (repeat Sleep n, Ok initial_state)
  /\ yielded (fst (poll_swarm_inbox (repeat Missing n))) = []
  /\ poll_swarm_inbox (repeat Missing n ++ files)
     = (repeat Sleep n ++ fst (poll_swarm_inbox files),
        snd (poll_swarm_inbox files))
  /\ yielded (fst (poll_swarm_inbox (repeat Missing n ++ files)))
     = yielded (fst (poll_swarm_inbox files)).
Proof.
  unfold poll_swarm_inbox.
  assert (E : poll_from initial_state (repeat Missing n)
              = (repeat Sleep n, Ok initial_state)).
  { rewrite <- (app_nil_r (repeat Missing n)), poll_from_missing.
    cbn [poll_from fst snd]. now rewrite app_nil_r. }
  split; [apply poll_cycle_missing |].
  split; [exact E |].
  split; [rewrite E; apply yielded_sleeps |].
  split; [apply poll_from_missing |].
  rewrite poll_from_missing. cbn [fst].
  now rewrite yielded_app, yielded_sleeps.
Qed.

(** ** A file that shrank *)

(** C9. When the file is shorter than the stored offset, [_read_chunk]
    starts again from 0 and returns the whole file, with the length of the
    file as the new offset; the loop keeps the pending fragment, so the
    bytes of the file are handled after the bytes of that fragment (and
    when the file is empty the fragment stays as it is). *)
Theorem shrunken_file_read_again (content : bytes) (st : poll_state) :
  (len content < offset st)%Z ->
  _read_chunk (File content) (offset st) = Ok (content, len content)
  /\ poll_cycle (File content) st =
     if truthy content then
       (fst (process_lines (complete_lines (remainder st ++ content))
               (next_message_id st)) ++ [Sleep],
        Ok {| offset := len content;
              remainder := pending (remainder st ++ content);
              next_message_id :=
                snd (process_lines (complete_lines (remainder st ++ content))
                       (next_message_id st)) |})
     else
       ([Sleep], Ok {| offset := 0; remainder := remainder st;
                       next_message_id := next_message_id st |}).
Proof.
  intros L.
  assert (R : _read_chunk (File content) (offset st) = Ok (content, len content)).
  { unfold _read_chunk. destruct (Z.ltb_spec (len content) (offset st)); [| lia].
    reflexivity. }
  split; [exact R |]. unfold poll_cycle. rewrite R.
  destruct content as [| c content]; cbn [truthy]; [reflexivity |].
  rewrite pop_or_empty_split. now destruct (process_lines _ _).
Qed.

(** ** Blank text *)

Section StripFacts.
Context {A : Type} (sp : A -> bool).

Lemma lstrip_all (l : list A) : forallb sp l = true -> lstrip sp l = [].
Proof.
  induction l as [| c l IH]; [reflexivity |]. cbn.
  intros H. apply andb_prop in H. destruct H as [-> H]. auto.
Qed.

Lemma lstrip_keeps_last (l : list A) (c : A) :
  sp c = false -> lstrip sp (l ++ [c]) <> [].
Proof.
  intros C. induction l as [| x l IH]; cbn.
  - rewrite C. discriminate.
  - destruct (sp x); [assumption | discriminate].
Qed.

Lemma lstrip_head (l : list A) (c : A) (l' : list A) :
  lstrip sp l = c :: l' -> sp c = false.
Proof.
  induction l as [| x l IH]; cbn; [discriminate |].
  destruct (sp x) eqn:X; [assumption |].
  intros H. injection H as -> _. assumption.
Qed.

Lemma lstrip_not_all (l : list A) :
  forallb sp l = false -> lstrip sp l <> [].
Proof.
  induction l as [| c l IH]; cbn; [discriminate |].
  destruct (sp c); [assumption | discriminate].
Qed.

(** What [strip] leaves is empty exactly when all is whitespace. *)
Lemma strip_truthy (l : list A) :
  truthy (strip sp l) = negb (forallb sp l).
Proof.
  unfold strip, rstrip. destruct (forallb sp l) eqn:F.
  - rewrite (lstrip_all l F). reflexivity.
  - destruct (lstrip sp l) as [| c l'] eqn:E.
    + now apply lstrip_not_all in E.
    + apply lstrip_head in E. cbn [rev].
      pose proof (lstrip_keeps_last (rev l') c E) as NE.
      destruct (lstrip sp (rev l' ++ [c])) as [| y ys]; [congruence |].
      cbn [rev]. now destruct (rev ys).
Qed.

(** [strip] leaves alone what neither begins nor ends with
    whitespace. *)
Lemma strip_fixed (a z : A) (mid : list A) :
  sp a = false -> sp z = false ->
  strip sp (a :: mid ++ [z]) = a :: mid ++ [z].
Proof.
  intros Ha Hz. unfold strip, rstrip. cbn [lstrip]. rewrite Ha.
  change (a :: mid ++ [z]) with ((a :: mid) ++ [z]).
  rewrite rev_app_distr. cbn [rev app lstrip]. rewrite Hz.
  change (z :: rev mid ++ [a]) with ([z] ++ rev (a :: mid)).
  rewrite rev_app_distr, rev_involutive. reflexivity.
Qed.
End StripFacts.

(** ** Message ids *)

Lemma ids_from_app (first : Z) (a b : nat) :
  ids_from first (a + b)
  = ids_from first a ++ ids_from (first - Z.of_nat a) b.
Proof.
  revert first. induction a as [| a IH]; intros first; cbn [Nat.add ids_from app].
  - f_equal. cbn. lia.
  - rewrite IH. do 3 f_equal. lia.
Qed.

Lemma ids_from_nth (n : nat) :
  forall first i z,
    nth_error (ids_from first n) i = Some z -> z = (first - Z.of_nat i)%Z.
Proof.
  induction n as [| n IH]; intros first i z; cbn [ids_from].
  - destruct i; discriminate.
  - destruct i as [| i]; cbn [nth_error].
    + intros H. injection H as <-. lia.
    + intros H. apply IH in H. lia.
Qed.

Lemma poll_cycle_ids (f : file_state) (st : poll_state) :
  map Message.message_id (yielded (fst (poll_cycle f st)))
  = ids_from (next_message_id st)
      (List.length (yielded (fst (poll_cycle f st))))
  /\ forall st',
       snd (poll_cycle f st) = Ok st' ->
       next_message_id st'
       = (next_message_id st
          - Z.of_nat (List.length (yielded (fst (poll_cycle f st)))))%Z.
Proof.
  unfold poll_cycle. destruct (_read_chunk f (offset st)) as [[chunk o] | e].
  - destruct (truthy chunk).
    + destruct (pop_or_empty (split_lf (remainder st ++ chunk))) as [ls r].
      destruct (process_lines_yields ls (next_message_id st)) as (H1 & H2 & H3).
      destruct (process_lines ls (next_message_id st)) as [evs k].
      cbn [fst snd] in *. rewrite yielded_app. cbn [yielded].
      rewrite app_nil_r. rewrite <- H1, length_map in H2, H3.
      split; [assumption |]. intros st' E. injection E as <-. exact H3.
    + cbn. split; [reflexivity |]. intros st' E. injection E as <-. cbn. lia.
  - destruct e; cbn; (split; [reflexivity |]); intros st' E;
      try discriminate. injection E as <-. cbn. lia.
Qed.

Lemma poll_from_ids (files : list file_state) :
  forall st,
    map Message.message_id (yielded (fst (poll_from st files)))
    = ids_from (next_message_id st)
        (List.length (yielded (fst (poll_from st files)))).
Proof.
  induction files as [| f files IH]; intros st; [reflexivity |].
  cbn [poll_from]. destruct (poll_cycle_ids f st) as [H1 H2].
  destruct (poll_cycle f st) as [evs [st' | e]]; cbn [fst snd] in *;
    [| assumption].
  specialize (IH st'). destruct (poll_from st' files) as [evs' r].
  cbn [fst] in *. rewrite yielded_app, map_app, length_app, ids_from_app.
  f_equal; [exact H1 | rewrite <- (H2 st' eq_refl); exact IH].
Qed.

(** ** The translation *)

Lemma blank_text (t : pystr) :
  truthy (str_strip t) = negb (forallb str_isspace t).
Proof. apply strip_truthy. Qed.

(** What [_to_synthetic_message] returns, by whether the envelope is a
    trigger with text. *)
Lemma to_synthetic_translated (e : SwarmEnvelope) (n : Z) :
  _to_synthetic_message e n
  = if translated e then ([], Some (message_of e n))
    else (if intent_eqb (intent e) trigger
          then [LogDebug (py "swarm.ingress.skip") e] else [], None).
Proof.
  unfold _to_synthetic_message, translated, message_of. rewrite blank_text.
  destruct (intent_eqb (intent e) trigger); cbn [negb andb]; [| reflexivity].
  now destruct (forallb str_isspace (text e)).
Qed.

Lemma decode_nothing : msgspec_json_decode [] = None.
Proof. reflexivity. Qed.

(** The loop on a line that decodes. *)
Lemma process_lines_record (line : bytes) (e : SwarmEnvelope)
    (rest : list bytes) (n : Z) :
  msgspec_json_decode (bytes_strip line) = Some e ->
  process_lines (line :: rest) n
  = if translated e
    then (Yield (message_of e n) :: fst (process_lines rest (n - 1)),
          snd (process_lines rest (n - 1)))
    else ((if intent_eqb (intent e) trigger
           then [LogDebug (py "swarm.ingress.skip") e] else [])
          ++ fst (process_lines rest n),
          snd (process_lines rest n)).
Proof.
  intros D. cbn [process_lines].
  destruct (bytes_strip line) as [| c raw] eqn:S;
    [rewrite decode_nothing in D; discriminate |].
  cbn [truthy negb]. rewrite D, to_synthetic_translated.
  destruct (translated e).
  - now destruct (process_lines rest (n - 1)).
  - now destruct (process_lines rest n).
Qed.

(** The messages of the loop are those of the envelopes that the lines
    decode to and that are triggers with text, numbered downwards. *)
Lemma process_lines_numbered (lines : list bytes) :
  forall n,
    yielded (fst (process_lines lines n))
    = numbered n (filter translated (decoded lines)).
Proof.
  induction lines as [| line lines IH]; intros n; [reflexivity |].
  cbn [decoded].
  destruct (msgspec_json_decode (bytes_strip line)) as [e |] eqn:D.
  - rewrite (process_lines_record line e lines n D). cbn [filter].
    destruct (translated e); cbn [fst numbered yielded].
    + now rewrite IH.
    + rewrite yielded_app, IH.
      now destruct (intent_eqb (intent e) trigger).
  - cbn [process_lines]. rewrite D.
    destruct (negb (truthy (bytes_strip line))); [apply IH |].
    specialize (IH n). destruct (process_lines lines n) as [evs k].
    cbn [fst yielded] in *. exact IH.
Qed.

Lemma poll_observed_numbered (appended : list bytes) :
  yielded (fst (poll_swarm_inbox (observed [] appended)))
  = numbered (-1)
      (filter translated (decoded (complete_lines (List.concat appended)))).
Proof.
  assert (T : tracks initial_state []) by (split; reflexivity).
  destruct (poll_from_observed appended [] initial_state T)
    as (evs & st & E & _ & Y & _).
  unfold poll_swarm_inbox. rewrite E. cbn [fst]. rewrite Y.
  change (pending [] ++ List.concat appended) with (List.concat appended).
  apply process_lines_numbered.
Qed.

Lemma decoded_In (lines : list bytes) (line : bytes) (e : SwarmEnvelope) :
  In line lines -> msgspec_json_decode (bytes_strip line) = Some e ->
  In e (decoded lines).
Proof.
  induction lines as [| l lines IH]; [contradiction |].
  intros [-> | H] D; cbn [decoded].
  - rewrite D. now left.
  - destruct (msgspec_json_decode (bytes_strip l)); [right |]; now apply IH.
Qed.

Lemma numbered_In (es : list SwarmEnvelope) (e : SwarmEnvelope) :
  In e es ->
  forall n, exists k, (k <= n)%Z /\ In (message_of e k) (numbered n es).
Proof.
  induction es as [| x es IH]; [contradiction |].
  intros [-> | H] n; cbn [numbered].
  - exists n. split; [lia | now left].
  - destruct (IH H (n - 1)%Z) as (k & L & I).
    exists k. split; [lia | now right].
Qed.

Lemma numbered_translated (es : list SwarmEnvelope) :
  forall n m,
    In m (numbered n (filter translated es)) ->
    translated (Message.raw_swarm m) = true
    /\ m = message_of (Message.raw_swarm m) (Message.message_id m).
Proof.
  induction es as [| x es IH]; intros n m; [contradiction |].
  cbn [filter]. destruct (translated x) eqn:T; [| apply IH].
  cbn [numbered]. intros [<- | H]; [now split | now apply IH in H].
Qed.

Lemma poll_cycle_translated (f : file_state) (st : poll_state)
    (m : TelegramIncomingMessage) :
  In m (yielded (fst (poll_cycle f st))) ->
  translated (Message.raw_swarm m) = true
  /\ m = message_of (Message.raw_swarm m) (Message.message_id m).
Proof.
  unfold poll_cycle. destruct (_read_chunk f (offset st)) as [[chunk o] | e].
  - destruct (truthy chunk); [| contradiction].
    destruct (pop_or_empty (split_lf (remainder st ++ chunk))) as [ls r].
    pose proof (process_lines_numbered ls (next_message_id st)) as H.
    destruct (process_lines ls (next_message_id st)) as [evs k].
    cbn [fst] in *. rewrite yielded_app. cbn [yielded].
    rewrite app_nil_r, H. apply numbered_translated.
  - destruct e; contradiction.
Qed.

Lemma poll_from_translated (files : list file_state)
    (m : TelegramIncomingMessage) :
  forall st,
    In m (yielded (fst (poll_from st files))) ->
    translated (Message.raw_swarm m) = true
    /\ m = message_of (Message.raw_swarm m) (Message.message_id m).
Proof.
  induction files as [| f files IH]; intros st; [contradiction |].
  cbn [poll_from]. pose proof (poll_cycle_translated f st m) as H.
  destruct (poll_cycle f st) as [evs [st' | e]]; cbn [fst] in *;
    [| assumption].
  specialize (IH st'). destruct (poll_from st' files) as [evs' r].
  cbn [fst] in *. rewrite yielded_app, in_app_iff. intros [I | I]; auto.
Qed.

(** C4. A control record is never translated.  A trigger record whose
    text is not blank is translated into a message with the chat id, thread
    id, text and origin agent of the envelope, marked as coming from the
    swarm with the intent "trigger", under the id it is given.  A
    trigger record whose text is empty or all whitespace is dropped: no
    message, no exception.  The ids of the messages of one stream are -1,
    -2, -3, ... in the order the messages are yielded: they start at -1,
    go down strictly and are negative.

    In the loop, a line that decodes to a trigger with text gives the
    message of its envelope under the next id, and the id goes down by
    one; a line that decodes to another envelope gives no message and
    leaves the id.  So, over a file that is appended to, the messages of
    the stream are exactly the messages of the envelopes that the
    complete lines decode to and that are triggers with text, in the
    order of the lines, numbered from -1 downwards: each such record has
    its message, with a negative id.  And in any stream, whatever the
    files, a message is the translation of a trigger with text: no
    message comes from a control record. *)
Theorem synthetic_messages :
  (forall e id, intent e = control -> _to_synthetic_message e id = ([], None))
  /\ (forall e id,
        intent e = trigger -> forallb str_isspace (text e) = false ->
        exists m,
          _to_synthetic_message e id = ([], Some m)
          /\ Message.chat_id m = chat_id e
          /\ Message.thread_id m = thread_id e
          /\ Message.text m = text e
          /\ Message.origin_agent m = origin_agent e
          /\ Message.ingress_source m = py "swarm"
          /\ Message.ingress_intent m = trigger
          /\ Message.message_id m = id)
  /\ (forall e id,
        intent e = trigger -> forallb str_isspace (text e) = true ->
        exists logs,
          _to_synthetic_message e id = (logs, None) /\ yielded logs = [])
  /\ (forall files i m,
        nth_error (yielded (fst (poll_swarm_inbox files))) i = Some m ->
        Message.message_id m = (-1 - Z.of_nat i)%Z
        /\ (Message.message_id m < 0)%Z)
  /\ (forall line e rest n,
        msgspec_json_decode (bytes_strip line) = Some e ->
        yielded (fst (process_lines (line :: rest) n))
        = (if translated e
           then message_of e n :: yielded (fst (process_lines rest (n - 1)))
           else yielded (fst (process_lines rest n)))
        /\ snd (process_lines (line :: rest) n)
           = (if translated e then snd (process_lines rest (n - 1))
              else snd (process_lines rest n)))
  /\ (forall appended,
        yielded (fst (poll_swarm_inbox (observed [] appended)))
        = numbered (-1)
            (filter translated
               (decoded (complete_lines (List.concat appended)))))
  /\ (forall appended line e,
        In line (complete_lines (List.concat appended)) ->
        msgspec_json_decode (bytes_strip line) = Some e ->
        intent e = trigger -> forallb str_isspace (text e) = false ->
        exists m,
          In m (yielded (fst (poll_swarm_inbox (observed [] appended))))
          /\ Message.raw_swarm m = e
          /\ Message.chat_id m = chat_id e
          /\ Message.thread_id m = thread_id e
          /\ Message.text m = text e
          /\ Message.origin_agent m = origin_agent e
          /\ Message.ingress_source m = py "swarm"
          /\ Message.ingress_intent m = trigger
          /\ (Message.message_id m < 0)%Z)
  /\ (forall files m,
        In m (yielded (fst (poll_swarm_inbox files))) ->
        intent (Message.raw_swarm m) = trigger
        /\ forallb str_isspace (text (Message.raw_swarm m)) = false
        /\ m = message_of (Message.raw_swarm m) (Message.message_id m)
        /\ (Message.message_id m < 0)%Z).
Proof.
  assert (IDS : forall files i m,
            nth_error (yielded (fst (poll_swarm_inbox files))) i = Some m ->
            Message.message_id m = (-1 - Z.of_nat i)%Z).
  { intros files i m H. apply (map_nth_error Message.message_id) in H.
    unfold poll_swarm_inbox in H. rewrite poll_from_ids in H.
    apply ids_from_nth in H. exact H. }
  assert (TR : forall e,
            translated e = true ->
            intent e = trigger /\ forallb str_isspace (text e) = false).
  { intros e T. unfold translated in T. apply andb_prop in T.
    destruct T as [T1 T2]. split; [now destruct (intent e) |].
    now destruct (forallb str_isspace (text e)). }
  split; [| split; [| split; [| split; [| split; [| split; [| split]]]]]].
  - intros e id I. unfold _to_synthetic_message. now rewrite I.
  - intros e id I T. unfold _to_synthetic_message.
    rewrite I, blank_text, T. cbn [intent_eqb negb].
    eexists. split; [reflexivity |]. cbn. repeat split; auto.
  - intros e id I T. unfold _to_synthetic_message.
    rewrite I, blank_text, T. cbn [intent_eqb negb].
    eexists. split; reflexivity.
  - intros files i m H. pose proof (IDS files i m H) as E.
    split; [exact E | lia].
  - intros line e rest n D. rewrite (process_lines_record line e rest n D).
    destruct (translated e); cbn [fst snd yielded]; split; try reflexivity.
    rewrite yielded_app. now destruct (intent_eqb (intent e) trigger).
  - apply poll_observed_numbered.
  - intros appended line e L D I T.
    assert (Tr : translated e = true)
      by (unfold translated; now rewrite I, T).
    assert (M : In e (filter translated
                        (decoded (complete_lines (List.concat appended)))))
      by (apply filter_In; split; [now apply decoded_In with line | exact Tr]).
    destruct (numbered_In _ e M (-1)%Z) as (k & K & N).
    exists (message_of e k). rewrite poll_observed_numbered.
    split; [exact N |]. cbn. repeat split; auto. lia.
  - intros files m H.
    destruct (poll_from_translated files m initial_state H) as [T E].
    destruct (TR _ T) as [I B]. repeat split; try assumption.
    destruct (In_nth_error _ _ H) as [i N].
    rewrite (IDS files i m N). lia.
Qed.

(** ** An encoded envelope is one line *)

Lemma printable_app (a b : bytes) :
  printable (a ++ b) = printable a && printable b.
Proof. apply forallb_app. Qed.

Lemma printable_no_lf (b : bytes) : printable b = true -> ~ In LF b.
Proof.
  unfold printable. rewrite forallb_forall. intros P H.
  specialize (P LF H). discriminate.
Qed.

Lemma utf8_printable (c : N) :
  (32 <= c)%N -> (c < 1114112)%N -> printable (utf8_encode c) = true.
Proof.
  intros L U.
  destruct (base64_digits c)
    as (q1 & r1 & q2 & r2 & q3 & r3 & E1 & B1 & E2 & B2 & E3 & B3
        & D1 & M1 & M2 & D2 & M3 & D3).
  unfold utf8_encode.
  destruct (N.ltb_spec c 128);
    [| destruct (N.ltb_spec c 2048); [| destruct (N.ltb_spec c 65536)]];
    rewrite ?M2, ?M3, ?M1, ?D1, ?D2, ?D3; cbn [printable forallb];
    rewrite !code_chr by lia; decide_tests; reflexivity.
Qed.

Lemma encode_char_printable (c : N) :
  scalar_value c = true -> printable (encode_char c) = true.
Proof.
  intros V. unfold encode_char.
  destruct (N.eqb_spec c 34); [reflexivity |].
  destruct (N.eqb_spec c 92); [reflexivity |].
  destruct (N.eqb_spec c 8); [reflexivity |].
  destruct (N.eqb_spec c 9); [reflexivity |].
  destruct (N.eqb_spec c 10); [reflexivity |].
  destruct (N.eqb_spec c 12); [reflexivity |].
  destruct (N.eqb_spec c 13); [reflexivity |].
  destruct (N.ltb_spec c 32) as [L | L].
  - destruct c as [| p]; [reflexivity |].
    do 5 (try destruct p as [p | p |]); try lia; reflexivity.
  - apply utf8_printable; [assumption |].
    unfold scalar_value in V. apply andb_prop in V. destruct V as [V _].
    now apply N.ltb_lt.
Qed.

Lemma encode_chars_printable (s : pystr) :
  forall b, encode_chars s = Some b -> printable b = true.
Proof.
  induction s as [| c s IH]; cbn [encode_chars]; intros b E.
  - now injection E as <-.
  - destruct (scalar_value c) eqn:V; [| discriminate].
    destruct (encode_chars s) as [b' |]; [| discriminate].
    injection E as <-. rewrite printable_app, encode_char_printable by assumption.
    now apply IH.
Qed.

Lemma encode_str_printable (s : pystr) (b : bytes) :
  encode_str s = Some b -> printable b = true.
Proof.
  intros E. apply encode_str_inv in E. destruct E as (body & E & ->).
  cbn [printable forallb]. fold (printable (body ++ [DQUOTE])).
  rewrite printable_app, (encode_chars_printable s body E). reflexivity.
Qed.

Lemma encode_opt_str_printable (o : option pystr) (b : bytes) :
  encode_opt encode_str o = Some b -> printable b = true.
Proof.
  destruct o as [s |]; cbn [encode_opt].
  - apply encode_str_printable.
  - intros E. now injection E as <-.
Qed.

Lemma uint_bytes_printable (u : Decimal.uint) :
  printable (uint_bytes u) = true.
Proof. induction u; cbn; auto. Qed.

Lemma int_repr_printable (z : Z) : printable (int_repr z) = true.
Proof.
  unfold int_repr. destruct (Z.to_int z); cbn [printable forallb];
    apply uint_bytes_printable.
Qed.

Lemma member_printable (name : string) (v : bytes) :
  printable (lit name) = true -> printable v = true ->
  printable (member name v) = true.
Proof.
  intros Pn Pv. unfold member. cbn [printable forallb].
  fold (printable (lit name ++ DQUOTE :: ":"%char :: v)).
  rewrite printable_app, Pn. cbn [printable forallb]. exact Pv.
Qed.

Lemma join_comma_printable (ms : list bytes) :
  Forall (fun m => printable m = true) ms -> printable (join_comma ms) = true.
Proof.
  induction 1 as [| m ms Pm Pms IH]; [reflexivity |].
  destruct ms as [| m' ms']; [exact Pm |].
  rewrite join_comma_cons by discriminate.
  rewrite printable_app, Pm. exact IH.
Qed.

Lemma envelope_members_printable (e : SwarmEnvelope) (ms : list bytes) :
  envelope_members e = Some ms -> Forall (fun m => printable m = true) ms.
Proof.
  intros H. apply envelope_members_inv in H.
  destruct H
    as (ver & eid & int & cid & tid & txt & org & cat
        & E0 & E1 & E2 & E6 & E7 & E3 & E4 & E5 & ->).
  apply encode_int_inv in E0, E6. destruct E0 as [-> _], E6 as [-> _].
  apply encode_opt_int_inv in E7. destruct E7 as [-> _].
  repeat constructor; apply member_printable; try reflexivity;
    eauto using int_repr_printable, encode_str_printable,
      encode_opt_str_printable.
  destruct (thread_id e); [apply int_repr_printable | reflexivity].
Qed.

Lemma encode_object_printable (ms : list bytes) :
  Forall (fun m => printable m = true) ms ->
  printable (encode_object ms) = true.
Proof.
  intros P. unfold encode_object. cbn [printable forallb].
  fold (printable (join_comma ms ++ ["}"%char])).
  now rewrite printable_app, join_comma_printable.
Qed.

(** The encoding of an envelope holds no line feed and is its own
    [strip]. *)
Lemma encoded_line (e : SwarmEnvelope) (b : bytes) :
  msgspec_json_encode e = Some b ->
  ~ In LF b /\ bytes_strip b = b /\ truthy b = true.
Proof.
  unfold msgspec_json_encode.
  destruct (envelope_members e) as [ms |] eqn:E; [| discriminate].
  intros H. injection H as <-. split; [| split].
  - apply printable_no_lf, encode_object_printable.
    now apply envelope_members_printable with (e := e).
  - unfold encode_object, bytes_strip. now apply strip_fixed.
  - reflexivity.
Qed.

(** ** Records that do not decode *)


Lemma members_read_quoted (ms : list bytes) (upd : fields -> fields) :
  members_read ms upd -> Forall quoted ms.
Proof. induction 1; constructor; assumption. Qed.






Lemma read_chunk_file (content : bytes) (off : Z) :
  (0 <= off)%Z ->
  _read_chunk (File content) off = Ok (chunk_read content off, len content).
Proof.
  intros P. unfold _read_chunk, chunk_read.
  assert (L : forall n,
             (Z.of_nat n <= len content)%Z ->
             (Z.of_nat n + len (skipn n content))%Z = len content).
  { intros n Hn. unfold len in *. rewrite length_skipn. lia. }
  destruct (Z.ltb_spec (len content) off).
  - reflexivity.
  - destruct (Z.ltb_spec off 0); [lia |]. do 2 f_equal.
    rewrite <- (Z2Nat.id off) at 1 by assumption. apply L. lia.
Qed.


(** ** A record written in two parts *)

Lemma complete_lines_line (a rest : bytes) :
  ~ In LF a -> complete_lines (a ++ LF :: rest) = a :: complete_lines rest.
Proof.
  intros N. unfold complete_lines. rewrite split_lf_line by assumption.
  apply removelast_cons, split_lf_nonempty.
Qed.

Lemma complete_lines_partial (p : bytes) : ~ In LF p -> complete_lines p = [].
Proof. intros N. unfold complete_lines. now rewrite split_lf_no_lf. Qed.

Lemma firstn_no_lf (k : nat) (b : bytes) : ~ In LF b -> ~ In LF (firstn k b).
Proof.
  intros N H. apply N. rewrite <- (firstn_skipn k b).
  apply in_or_app. now left.
Qed.

Lemma line_of_encoded (e : SwarmEnvelope) (b : bytes) :
  msgspec_json_encode e = Some b -> line_of e = b ++ [LF].
Proof. intros E. unfold line_of. now rewrite E. Qed.

(** [append_swarm_envelope] adds the line of the envelope at the end of
    the file. *)
Lemma append_writes_line (e : SwarmEnvelope) (content : bytes) :
  valid_envelope e = true ->
  append_swarm_envelope (File content) e = Ok (File (content ++ line_of e))
  /\ append_swarm_envelope Missing e = Ok (File (line_of e)).
Proof.
  intros V. destruct (msgspec_json_encode_total e V) as [b E].
  unfold append_swarm_envelope, line_of. now rewrite E.
Qed.

Lemma line_trigger_encoded (e : SwarmEnvelope) (b : bytes) :
  msgspec_json_encode e = Some b ->
  line_trigger b = if translated e then Some e else None.
Proof.
  intros E. destruct (encoded_line e b E) as (_ & S & T).
  unfold line_trigger, translated, _to_synthetic_message.
  rewrite S, T, (decode_encoded e b E), blank_text.
  destruct (intent_eqb (intent e) trigger); cbn [negb andb]; [| reflexivity].
  now destruct (forallb str_isspace (text e)).
Qed.

Lemma observed_idle (n : nat) (content : bytes) (appended : list bytes) :
  observed content (repeat [] n ++ appended)
  = repeat (File content) n ++ observed content appended.
Proof.
  induction n as [| n IH]; [reflexivity |].
  cbn [repeat app observed]. now rewrite app_nil_r, IH.
Qed.

Lemma concat_idle (n : nat) (appended : list bytes) :
  List.concat (repeat [] n ++ appended) = List.concat appended.
Proof. induction n as [| n IH]; [reflexivity | exact IH]. Qed.

(** The messages of a loop over a file that is appended to: their
    envelopes and their ids. *)
Lemma poll_observed_triggers (appended : list bytes) :
  map Message.raw_swarm
    (yielded (fst (poll_swarm_inbox (observed [] appended))))
  = triggers (complete_lines (List.concat appended))
  /\ map Message.message_id
       (yielded (fst (poll_swarm_inbox (observed [] appended))))
     = ids_from (-1) (List.length (triggers (complete_lines (List.concat appended)))).
Proof.
  assert (T : tracks initial_state []) by (split; reflexivity).
  destruct (poll_from_observed appended [] initial_state T)
    as (evs & st & E & _ & Y & _).
  unfold poll_swarm_inbox. rewrite E. cbn [fst]. rewrite Y.
  change (pending [] ++ List.concat appended) with (List.concat appended).
  destruct (process_lines_yields (complete_lines (List.concat appended)) (-1))
    as (H1 & H2 & _).
  now split.
Qed.

Lemma files_idle (before : bytes) (idle : nat) :
  repeat (File before) (S idle) = observed [] (before :: repeat [] idle).
Proof.
  cbn [observed app repeat]. f_equal.
  rewrite <- (app_nil_r (repeat [] idle)), observed_idle.
  now rewrite app_nil_r.
Qed.

Lemma files_idle_then (before more : bytes) (idle : nat) :
  repeat (File before) (S idle) ++ [File (before ++ more)]
  = observed [] (before :: repeat [] idle ++ [more]).
Proof. cbn [observed app repeat]. now rewrite observed_idle. Qed.

Lemma concat_idle_only (before : bytes) (idle : nat) :
  List.concat (before :: repeat [] idle) = before.
Proof.
  cbn [List.concat]. rewrite <- (app_nil_r (repeat [] idle)), concat_idle.
  apply app_nil_r.
Qed.

Lemma concat_idle_then (before more : bytes) (idle : nat) :
  List.concat (before :: repeat [] idle ++ [more]) = before ++ more.
Proof.
  cbn [List.concat]. rewrite concat_idle. cbn [List.concat].
  now rewrite app_nil_r.
Qed.

Lemma complete_lines_three (a b c : bytes) :
  ~ In LF a -> ~ In LF b -> ~ In LF c ->
  complete_lines ((a ++ [LF]) ++ (b ++ [LF]) ++ c ++ [LF]) = [a; b; c].
Proof.
  intros Na Nb Nc.
  replace ((a ++ [LF]) ++ (b ++ [LF]) ++ c ++ [LF])
    with (a ++ LF :: b ++ LF :: c ++ LF :: [])
    by (now rewrite <- !app_assoc).
  now rewrite !complete_lines_line by assumption.
Qed.

Lemma complete_lines_one_and_part (a p : bytes) :
  ~ In LF a -> ~ In LF p -> complete_lines ((a ++ [LF]) ++ p) = [a].
Proof.
  intros Na Np. rewrite <- app_assoc. cbn [app].
  now rewrite complete_lines_line, complete_lines_partial by assumption.
Qed.

Lemma firstn_line (k : nat) (b : bytes) :
  k < List.length (b ++ [LF]) -> firstn k (b ++ [LF]) = firstn k b.
Proof.
  rewrite length_app. cbn [List.length]. intros L.
  rewrite firstn_app. replace (k - List.length b) with 0 by lia.
  now rewrite firstn_0, app_nil_r.
Qed.

(** C2, as the code has it.  A, B and C are envelopes that the encoder
    takes and that are triggers with text that is not blank.  The file
    first holds the record of A and a truncated record of B; later the
    rest of B and the record of C are appended.  As long as B is not complete the stream yields the message
    for A and nothing else; once the rest is there it yields the messages
    for B and for C, in that order, so that the stream as a whole is A, B,
    C, with the ids -1, -2, -3. *)
Theorem partial_record_is_completed (A B C : SwarmEnvelope) (k idle : nat) :
  valid_envelope A = true -> valid_envelope B = true ->
  valid_envelope C = true ->
  translated A = true -> translated B = true -> translated C = true ->
  k < List.length (line_of B) ->
  let before := line_of A ++ firstn k (line_of B) in
  let after := line_of A ++ line_of B ++ line_of C in
  map Message.raw_swarm
    (yielded (fst (poll_swarm_inbox (repeat (File before) (S idle))))) = [A]
  /\ map Message.raw_swarm
       (yielded (fst (poll_swarm_inbox
                        (repeat (File before) (S idle) ++ [File after]))))
     = [A; B; C]
  /\ map Message.message_id
       (yielded (fst (poll_swarm_inbox
                        (repeat (File before) (S idle) ++ [File after]))))
     = [-1; -2; -3]%Z.
Proof.
  intros VA VB VC TA TB TC K.
  destruct (msgspec_json_encode_total A VA) as [a EA].
  destruct (msgspec_json_encode_total B VB) as [b EB].
  destruct (msgspec_json_encode_total C VC) as [c EC].
  rewrite (line_of_encoded A a EA), (line_of_encoded B b EB),
    (line_of_encoded C c EC) in *.
  rewrite (firstn_line k b K).
  destruct (encoded_line A a EA) as (Na & _ & _).
  destruct (encoded_line B b EB) as (Nb & _ & _).
  destruct (encoded_line C c EC) as (Nc & _ & _).
  pose proof (line_trigger_encoded A a EA) as LA. rewrite TA in LA.
  pose proof (line_trigger_encoded B b EB) as LB. rewrite TB in LB.
  pose proof (line_trigger_encoded C c EC) as LC. rewrite TC in LC.
  set (before := (a ++ [LF]) ++ firstn k b).
  set (more := skipn k b ++ [LF] ++ c ++ [LF]).
  assert (AF : (a ++ [LF]) ++ (b ++ [LF]) ++ c ++ [LF] = before ++ more).
  { unfold before, more. rewrite <- (firstn_skipn k b) at 1.
    now rewrite <- !app_assoc. }
  cbv zeta. rewrite AF, !files_idle_then, files_idle.
  destruct (poll_observed_triggers (before :: repeat [] idle)) as [R1 _].
  destruct (poll_observed_triggers (before :: repeat [] idle ++ [more]))
    as [R2 I2].
  rewrite concat_idle_only in R1. rewrite concat_idle_then in R2, I2.
  rewrite <- AF in R2, I2.
  rewrite complete_lines_three in R2, I2 by assumption.
  unfold before in R1.
  rewrite complete_lines_one_and_part in R1
    by (try apply firstn_no_lf; assumption).
  cbn [triggers] in R1, R2, I2. rewrite LA in R1.
  rewrite LA, LB, LC in R2, I2.
  split; [exact R1 |]. split; [exact R2 | exact I2].
Qed.

(** C2, as the claim states it, fails: with the record of [second] cut
    after 40 bytes and completed before the second cycle, the stream is
    [hello], [second], [third], and not [hello] then [third]. *)
Lemma exactly_first_then_third_fails :
  map Message.raw_swarm
    (yielded (fst (poll_swarm_inbox [File partial_file; File completed_file])))
  = [hello; second; third]
  /\ map Message.raw_swarm
       (yielded (fst (poll_swarm_inbox
                        [File partial_file; File completed_file])))
     <> [hello; third].
Proof.
  assert (E : map Message.raw_swarm
                (yielded (fst (poll_swarm_inbox
                                 [File partial_file; File completed_file])))
              = [hello; second; third]) by (vm_compute; reflexivity).
  split; [exact E |]. rewrite E. discriminate.
Qed.

Lemma partial_record_is_completed_witness :
  map Message.raw_swarm
    (yielded (fst (poll_swarm_inbox (repeat (File partial_file) 3)))) = [hello]
  /\ map Message.raw_swarm
       (yielded (fst (poll_swarm_inbox
                        (repeat (File partial_file) 3 ++ [File completed_file]))))
     = [hello; second; third]
  /\ map Message.message_id
       (yielded (fst (poll_swarm_inbox
                        (repeat (File partial_file) 3 ++ [File completed_file]))))
     = [-1; -2; -3]%Z.
Proof.
  apply (partial_record_is_completed hello second third 40 2);
    try reflexivity.
  vm_compute. lia.
Defined.

Lemma envelope_round_trip_witness :
  exists b,
    msgspec_json_encode hello = Some b /\ msgspec_json_decode b = Some hello.
Proof. apply (envelope_round_trip hello). reflexivity. Defined.

Lemma shrunken_file_read_again_witness :
  _read_chunk (File (line_of second)) (offset far_state)
  = Ok (line_of second, len (line_of second))
  /\ poll_cycle (File (line_of second)) far_state =
     if truthy (line_of second) then
       (fst (process_lines
               (complete_lines (remainder far_state ++ line_of second))
               (next_message_id far_state)) ++ [Sleep],
        Ok {| offset := len (line_of second);
              remainder := pending (remainder far_state ++ line_of second);
              next_message_id :=
                snd (process_lines
                       (complete_lines (remainder far_state ++ line_of second))
                       (next_message_id far_state)) |})
     else
       ([Sleep], Ok {| offset := 0; remainder := remainder far_state;
                       next_message_id := next_message_id far_state |}).
Proof.
  apply (shrunken_file_read_again (line_of second) far_state).
  vm_compute. reflexivity.
Defined.

(** The fragment held back is glued to the first line of the file read
    again: that record is lost, with a warning. *)
Example shrunken_file_garbles_first_line :
  fst (poll_cycle (File (line_of second)) far_state)
  = [LogWarning (py "swarm.ingress.decode_failed"); Sleep].
Proof. vm_compute. reflexivity. Qed.

(** The test of [tests/test_swarm_ingress.py]: a control record, then a
    trigger record. *)
Example test_poll_swarm_inbox_yields_trigger_message :
  map (fun m => (Message.chat_id m, Message.thread_id m, Message.text m,
                 Message.ingress_source m, Message.ingress_intent m,
                 Message.origin_agent m, Message.message_id m))
    (yielded (fst (poll_swarm_inbox
                     [File (line_of control_only ++ line_of hello)])))
  = [(123%Z, Some 19%Z, py "hello from swarm", py "swarm", trigger,
      Some (py "manager"), (-1)%Z)].
Proof. vm_compute. reflexivity. Qed.

(** ** The reconciliation *)

Lemma creations_app (a b : list call) :
  creations (a ++ b) = creations a + creations b.
Proof. unfold creations. now rewrite filter_app, length_app. Qed.

Lemma dict_get_single (key alias : pystr) :
  dict_get [(key, alias)] key key = alias.
Proof. cbn. now rewrite str_eqb_refl. Qed.

Lemma synthesized_status (chat thread : Z) (key alias : pystr)
    (branch : option pystr) (bind_state : bool) (title : pystr) :
  snapshot_to_status
    (synthesized chat thread (requested_context key branch) bind_state title)
    [(key, alias)]
  = {| TopicStatus.chat_id := chat;
       TopicStatus.thread_id := thread;
       TopicStatus.project := if bind_state then Some alias else None;
       TopicStatus.branch := if bind_state then branch else None;
       TopicStatus.topic_title := Some title;
       TopicStatus.default_engine := None;
       TopicStatus.sessions := [] |}.
Proof.
  destruct bind_state; unfold snapshot_to_status, synthesized; cbn;
    now rewrite ?str_eqb_refl.
Qed.

Section Reconciliation.
Context {St Bt : Type} {store_ops : TopicStateStore St}
      {bot_ops : TelegramClient Bt}.

(** The creation path, when the platform creates the topic. *)
Lemma create_topic_thread_runs (w : world St Bt) (chat : Z)
  (key alias : pystr) (branch : option pystr) (bind_state : bool)
  (topic : ForumTopic) (b' : Bt) :
let ctx := requested_context key branch in
let title := build_topic_title alias branch in
let t := message_thread_id topic in
let s' := if bind_state then set_context (store w) chat t ctx title
          else store w in
create_forum_topic (bot w) chat title = (Some topic, b') ->
create_topic_thread chat key alias ctx title bind_state w
= (Ok (status_of s' chat t key alias branch bind_state, true),
   {| store := s'; bot := b';
      calls := calls w ++ [CreateForumTopic chat title]
                 ++ (if bind_state then [SetContext chat t ctx title] else [])
                 ++ [GetThread chat t] |}).
Proof.
intros ctx title t s' C.
unfold create_topic_thread, bind, bot_create_forum_topic. rewrite C.
unfold status_of, s'. fold ctx title t.
destruct bind_state;
  unfold store_set_context, store_get_thread, ret, logged;
  cbn [store bot calls]; rewrite <- ?app_assoc; reflexivity.
Qed.

(** The reuse path, when the platform renames the topic. *)
Lemma reuse_runs (w : world St Bt) (chat : Z) (key alias : pystr)
  (branch : option pystr) (bind_state : bool) (t : Z) (b' : Bt) :
let ctx := requested_context key branch in
let title := build_topic_title alias branch in
let s' := if bind_state then set_context (store w) chat t ctx title
          else store w in
find_thread_for_context (store w) chat ctx = Some t ->
edit_forum_topic (bot w) chat t title = (true, b') ->
ensure_topic_thread chat key alias branch bind_state w
= (Ok (status_of s' chat t key alias branch bind_state, false),
   {| store := s'; bot := b';
      calls := calls w
                 ++ [FindThreadForContext chat ctx; EditForumTopic chat t title]
                 ++ (if bind_state then [SetContext chat t ctx title] else [])
                 ++ [GetThread chat t] |}).
Proof.
intros ctx title s' F E.
unfold ensure_topic_thread, bind, store_find_thread_for_context.
fold (requested_context key branch). fold ctx title.
cbn [store bot calls]. rewrite F.
unfold bot_edit_forum_topic. cbn [store bot calls]. rewrite E.
unfold status_of, s'. fold ctx title.
destruct bind_state;
  unfold store_set_context, store_get_thread, ret, logged;
  cbn [store bot calls]; rewrite <- ?app_assoc; reflexivity.
Qed.

(** The drift path: the topic cannot be renamed. *)
Lemma drift_runs (w : world St Bt) (chat : Z) (key alias : pystr)
  (branch : option pystr) (bind_state : bool) (old : Z) (b' : Bt) :
let ctx := requested_context key branch in
let title := build_topic_title alias branch in
find_thread_for_context (store w) chat ctx = Some old ->
edit_forum_topic (bot w) chat old title = (false, b') ->
ensure_topic_thread chat key alias branch bind_state w
= create_topic_thread chat key alias ctx title bind_state
    {| store := delete_thread (store w) chat old; bot := b';
       calls := calls w
                  ++ [FindThreadForContext chat ctx;
                      EditForumTopic chat old title;
                      DeleteThread chat old] |}.
Proof.
intros ctx title F E.
unfold ensure_topic_thread, bind, store_find_thread_for_context.
fold (requested_context key branch). fold ctx title.
cbn [store bot calls]. rewrite F.
unfold bot_edit_forum_topic. cbn [store bot calls]. rewrite E.
unfold store_delete_thread, logged. cbn [store bot calls].
rewrite <- ?app_assoc. reflexivity.
Qed.

(** No thread bound yet. *)
Lemma fresh_runs (w : world St Bt) (chat : Z) (key alias : pystr)
  (branch : option pystr) (bind_state : bool) :
let ctx := requested_context key branch in
let title := build_topic_title alias branch in
find_thread_for_context (store w) chat ctx = None ->
ensure_topic_thread chat key alias branch bind_state w
= create_topic_thread chat key alias ctx title bind_state
    {| store := store w; bot := bot w;
       calls := calls w ++ [FindThreadForContext chat ctx] |}.
Proof.
intros ctx title F.
unfold ensure_topic_thread, bind, store_find_thread_for_context.
fold (requested_context key branch). fold ctx title.
cbn [store bot calls]. now rewrite F.
Qed.

End Reconciliation.

Section ReconciliationProperties.
Context {St Bt : Type} {store_ops : TopicStateStore St}
      {bot_ops : TelegramClient Bt}.

Lemma status_of_thread (s : St) (chat thread : Z) (key alias : pystr)
  (branch : option pystr) (bind_state : bool) :
(forall snapshot,
   get_thread s chat thread = Some snapshot ->
   TopicThreadSnapshot.thread_id snapshot = thread) ->
TopicStatus.thread_id (status_of s chat thread key alias branch bind_state)
= thread.
Proof.
intros A. unfold status_of.
destruct (get_thread s chat thread) as [snapshot |]; cbn; auto.
Qed.

(** C3. The store has a thread bound to the context but the topic cannot
  be renamed: the binding is deleted with [delete_thread], a new topic
  is created, and the status returned carries the id of the new thread,
  not the old one, with created = true. *)
Theorem stale_binding_is_replaced (w : world St Bt) (chat : Z)
  (key alias : pystr) (branch : option pystr) (bind_state : bool)
  (old : Z) (b1 : Bt) (topic : ForumTopic) (b2 : Bt) :
let ctx := requested_context key branch in
let title := build_topic_title alias branch in
let new := message_thread_id topic in
find_thread_for_context (store w) chat ctx = Some old ->
edit_forum_topic (bot w) chat old title = (false, b1) ->
create_forum_topic b1 chat title = (Some topic, b2) ->
(forall s snapshot,
   get_thread s chat new = Some snapshot ->
   TopicThreadSnapshot.thread_id snapshot = new) ->
exists status w',
  ensure_topic_thread chat key alias branch bind_state w
  = (Ok (status, true), w')
  /\ TopicStatus.thread_id status = new
  /\ (new <> old -> TopicStatus.thread_id status <> old)
  /\ store w'
     = (if bind_state
        then set_context (delete_thread (store w) chat old) chat new ctx title
        else delete_thread (store w) chat old)
  /\ calls w'
     = calls w
         ++ [FindThreadForContext chat ctx; EditForumTopic chat old title;
             DeleteThread chat old; CreateForumTopic chat title]
         ++ (if bind_state then [SetContext chat new ctx title] else [])
         ++ [GetThread chat new].
Proof.
intros ctx title new F E C A.
rewrite (drift_runs w chat key alias branch bind_state old b1 F E).
fold ctx title.
rewrite (create_topic_thread_runs
           {| store := delete_thread (store w) chat old; bot := b1;
              calls := calls w
                         ++ [FindThreadForContext chat ctx;
                             EditForumTopic chat old title;
                             DeleteThread chat old] |}
           chat key alias branch bind_state topic b2 C).
fold ctx title new. cbn [store bot calls].
eexists; eexists. split; [reflexivity |].
assert (T : TopicStatus.thread_id
              (status_of
                 (if bind_state
                  then set_context (delete_thread (store w) chat old) chat new
                         ctx title
                  else delete_thread (store w) chat old)
                 chat new key alias branch bind_state) = new)
  by (apply status_of_thread; intros; eapply A; eassumption).
split; [exact T |]. split; [now rewrite T |]. split; [reflexivity |].
cbn [calls]. now rewrite <- !app_assoc.
Qed.

(** C10. When the store has no snapshot for the thread the call ends
  on, the status is made up: with bind_state = false it carries no
  project and no branch, although the call was made for a project and a
  branch; with bind_state = true it carries the alias of the project and
  the branch asked for. *)
Theorem made_up_status_context (w : world St Bt) (chat : Z)
  (key alias : pystr) (branch : option pystr) (bind_state : bool)
  (status : TopicStatus.t) (created : bool) (w' : world St Bt) :
ensure_topic_thread chat key alias branch bind_state w
= (Ok (status, created), w') ->
exists thread,
  last (calls w') (GetThread 0 0) = GetThread chat thread
  /\ (get_thread (store w') chat thread = None ->
      status
      = snapshot_to_status
          (synthesized chat thread (requested_context key branch) bind_state
             (build_topic_title alias branch))
          [(key, alias)]
      /\ TopicStatus.thread_id status = thread
      /\ TopicStatus.project status
         = (if bind_state then Some alias else None)
      /\ TopicStatus.branch status = (if bind_state then branch else None)).
Proof.
intros R.
assert (G : forall s t,
           get_thread s chat t = None ->
           let st := status_of s chat t key alias branch bind_state in
           st = snapshot_to_status
                  (synthesized chat t (requested_context key branch)
                     bind_state (build_topic_title alias branch))
                  [(key, alias)]
           /\ TopicStatus.thread_id st = t
           /\ TopicStatus.project st
              = (if bind_state then Some alias else None)
           /\ TopicStatus.branch st = (if bind_state then branch else None)).
{ intros s t N. unfold status_of. rewrite N. cbv zeta.
  split; [reflexivity |]. rewrite synthesized_status. now cbn. }
assert (K : forall (w0 : world St Bt),
           create_topic_thread chat key alias (requested_context key branch)
             (build_topic_title alias branch) bind_state w0
           = (Ok (status, created), w') ->
           exists thread,
             last (calls w') (GetThread 0 0) = GetThread chat thread
             /\ (get_thread (store w') chat thread = None ->
                 status
                 = snapshot_to_status
                     (synthesized chat thread (requested_context key branch)
                        bind_state (build_topic_title alias branch))
                     [(key, alias)]
                 /\ TopicStatus.thread_id status = thread
                 /\ TopicStatus.project status
                    = (if bind_state then Some alias else None)
                 /\ TopicStatus.branch status
                    = (if bind_state then branch else None))).
{ intros w0 R0.
  destruct (create_forum_topic (bot w0) chat (build_topic_title alias branch))
    as [[topic |] b'] eqn:C.
  - rewrite (create_topic_thread_runs w0 chat key alias branch bind_state
               topic b' C) in R0.
    injection R0 as <- <- <-. exists (message_thread_id topic).
    cbn [store calls]. split; [| apply G].
    rewrite last_app_nonempty by discriminate. now destruct bind_state.
  - unfold create_topic_thread, bind, bot_create_forum_topic in R0.
    rewrite C in R0. discriminate. }
destruct (find_thread_for_context (store w) chat (requested_context key branch))
  as [t |] eqn:F.
- destruct (edit_forum_topic (bot w) chat t (build_topic_title alias branch))
    as [[|] b'] eqn:E.
  + rewrite (reuse_runs w chat key alias branch bind_state t b' F E) in R.
    injection R as <- <- <-. exists t.
    cbn [store calls]. split; [| apply G].
    rewrite last_app_nonempty by discriminate. now destruct bind_state.
  + rewrite (drift_runs w chat key alias branch bind_state t b' F E) in R.
    exact (K _ R).
- rewrite (fresh_runs w chat key alias branch bind_state F) in R.
  exact (K _ R).
Qed.

End ReconciliationProperties.

Section Idempotence.
Context {St Bt : Type} {store_ops : TopicStateStore St}
      {bot_ops : TelegramClient Bt} {exists_on : Bt -> Z -> Z -> Prop}
      {healthy : Healthy St Bt exists_on}.

Lemma first_call (w : world St Bt) (chat : Z) (key alias : pystr)
  (branch : option pystr) :
let ctx := requested_context key branch in
find_thread_for_context (store w) chat ctx = None ->
exists status w1,
  ensure_topic_thread chat key alias branch true w = (Ok (status, true), w1)
  /\ find_thread_for_context (store w1) chat ctx
     = Some (TopicStatus.thread_id status)
  /\ exists_on (bot w1) chat (TopicStatus.thread_id status)
  /\ creations (calls w1) = creations (calls w) + 1.
Proof.
intros ctx F.
rewrite (fresh_runs w chat key alias branch true F).
destruct (create_succeeds (bot w) chat (build_topic_title alias branch))
  as (topic & b' & C & X).
rewrite (create_topic_thread_runs
           {| store := store w; bot := bot w;
              calls := calls w ++ [FindThreadForContext chat ctx] |}
           chat key alias branch true topic b' C).
eexists; eexists. split; [reflexivity |]. cbn [store bot calls].
rewrite status_of_thread by (intros; eapply get_thread_answers; eassumption).
split; [apply find_after_set_context |]. split; [exact X |].
rewrite !creations_app. cbn. lia.
Qed.

Lemma later_call (w : world St Bt) (chat : Z) (key alias : pystr)
  (branch : option pystr) (t : Z) :
let ctx := requested_context key branch in
find_thread_for_context (store w) chat ctx = Some t ->
exists_on (bot w) chat t ->
exists status w1,
  ensure_topic_thread chat key alias branch true w = (Ok (status, false), w1)
  /\ TopicStatus.thread_id status = t
  /\ find_thread_for_context (store w1) chat ctx = Some t
  /\ exists_on (bot w1) chat t
  /\ creations (calls w1) = creations (calls w).
Proof.
intros ctx F X.
destruct (edit_succeeds (bot w) chat t (build_topic_title alias branch) X)
  as (b' & E & X').
rewrite (reuse_runs w chat key alias branch true t b' F E).
eexists; eexists. split; [reflexivity |]. cbn [store bot calls].
split;
  [apply status_of_thread; intros; eapply get_thread_answers; eassumption |].
split; [apply find_after_set_context |]. split; [exact X' |].
rewrite !creations_app. cbn. lia.
Qed.

Lemma later_calls (n : nat) (chat : Z) (key alias : pystr)
  (branch : option pystr) (t : Z) :
forall w : world St Bt,
  find_thread_for_context (store w) chat (requested_context key branch)
  = Some t ->
  exists_on (bot w) chat t ->
  Forall (reused t)
    (fst (ensure_repeatedly n chat key alias branch true w))
  /\ List.length (fst (ensure_repeatedly n chat key alias branch true w)) = n
  /\ creations
       (calls (snd (ensure_repeatedly n chat key alias branch true w)))
     = creations (calls w).
Proof.
induction n as [| n IH]; intros w F X; cbn [ensure_repeatedly].
- repeat split. constructor.
- destruct (later_call w chat key alias branch t F X)
    as (status & w1 & R & T & F1 & X1 & C1).
  rewrite R. destruct (IH w1 F1 X1) as (A & L & C).
  destruct (ensure_repeatedly n chat key alias branch true w1) as [rs w2].
  cbn [fst snd List.length] in *. split; [| split; [lia | congruence]].
  constructor; [| assumption]. exists status. now split.
Qed.

(** Without [bind_state] a call records nothing: from a store where
  nothing is bound to the context, it creates a topic and leaves the
  store as it was. *)
Lemma unbound_call (w : world St Bt) (chat : Z) (key alias : pystr)
  (branch : option pystr) :
find_thread_for_context (store w) chat (requested_context key branch)
= None ->
exists status w1,
  ensure_topic_thread chat key alias branch false w = (Ok (status, true), w1)
  /\ store w1 = store w
  /\ creations (calls w1) = creations (calls w) + 1.
Proof.
intros F.
rewrite (fresh_runs w chat key alias branch false F).
destruct (create_succeeds (bot w) chat (build_topic_title alias branch))
  as (topic & b' & C & _).
rewrite (create_topic_thread_runs
           {| store := store w; bot := bot w;
              calls := calls w
                         ++ [FindThreadForContext chat
                               (requested_context key branch)] |}
           chat key alias branch false topic b' C).
eexists; eexists. split; [reflexivity |]. cbn [store bot calls].
split; [reflexivity |]. rewrite !creations_app. cbn. lia.
Qed.

Lemma unbound_calls (n : nat) (chat : Z) (key alias : pystr)
  (branch : option pystr) :
forall w : world St Bt,
  find_thread_for_context (store w) chat (requested_context key branch)
  = None ->
  Forall created_anew
    (fst (ensure_repeatedly n chat key alias branch false w))
  /\ List.length (fst (ensure_repeatedly n chat key alias branch false w)) = n
  /\ creations
       (calls (snd (ensure_repeatedly n chat key alias branch false w)))
     = creations (calls w) + n.
Proof.
induction n as [| n IH]; intros w F; cbn [ensure_repeatedly].
- repeat split; [constructor | cbn [snd]; lia].
- destruct (unbound_call w chat key alias branch F)
    as (status & w1 & R & S & C1).
  rewrite R. rewrite <- S in F. destruct (IH w1 F) as (A & L & C).
  destruct (ensure_repeatedly n chat key alias branch false w1) as [rs w2].
  cbn [fst snd List.length] in *. split; [| split; lia].
  constructor; [| assumption]. now exists status.
Qed.

(** C1, as the code has it.  Against a healthy store and platform, and
  from a store where nothing is bound to the context yet: with
  bind_state = true the first call creates a topic and returns
  created = true with its thread id T, every call after it, with the
  same arguments, returns created = false with the same T, and over all
  these calls [create_forum_topic] is called once; with
  bind_state = false no call records a binding, so every one of n calls
  with the same arguments returns created = true and
  [create_forum_topic] is called n times. *)
Theorem ensure_is_idempotent (w : world St Bt) (chat : Z)
  (key alias : pystr) (branch : option pystr) (n : nat) :
find_thread_for_context (store w) chat (requested_context key branch)
= None ->
(exists T status w1,
   ensure_topic_thread chat key alias branch true w = (Ok (status, true), w1)
   /\ TopicStatus.thread_id status = T
   /\ Forall (reused T)
        (fst (ensure_repeatedly n chat key alias branch true w1))
   /\ List.length (fst (ensure_repeatedly n chat key alias branch true w1)) = n
   /\ creations
        (calls (snd (ensure_repeatedly n chat key alias branch true w1)))
      = creations (calls w) + 1)
/\ (Forall created_anew
      (fst (ensure_repeatedly n chat key alias branch false w))
    /\ List.length (fst (ensure_repeatedly n chat key alias branch false w))
       = n
    /\ creations
         (calls (snd (ensure_repeatedly n chat key alias branch false w)))
       = creations (calls w) + n).
Proof.
intros F. split; [| now apply unbound_calls].
destruct (first_call w chat key alias branch F)
  as (status & w1 & R & F1 & X1 & C1).
exists (TopicStatus.thread_id status), status, w1.
destruct (later_calls n chat key alias branch _ w1 F1 X1) as (A & L & C).
repeat split; try assumption. congruence.
Qed.

End Idempotence.

(** ** The collaborators of the examples are healthy *)

Lemma opt_str_eqb_refl (o : option pystr) : opt_str_eqb o o = true.
Proof. destruct o; [apply str_eqb_refl | reflexivity]. Qed.

Lemma context_eqb_refl (c : RunContext.t) : context_eqb c c = true.
Proof. unfold context_eqb. now rewrite !opt_str_eqb_refl. Qed.

Lemma memory_platform_healthy :
  Healthy (list TopicThreadSnapshot.t) platform
    (fun b chat thread => topic_exists b chat thread = true).
Proof.
  constructor.
  - intros s chat thread ctx title. cbn [find_thread_for_context memory_store].
    cbn [find]. unfold bound_to at 1. cbn.
    now rewrite Z.eqb_refl, context_eqb_refl.
  - intros s chat thread snapshot H.
    cbn [get_thread memory_store] in H. apply find_some in H.
    destruct H as [_ H]. unfold is_thread in H.
    apply andb_prop in H. destruct H as [_ H]. now apply Z.eqb_eq.
  - intros b chat title. eexists; eexists. split; [reflexivity |].
    unfold topic_exists. cbn. now rewrite !Z.eqb_refl.
  - intros b chat thread name X. exists b.
    cbn [edit_forum_topic forum_platform]. now rewrite X.
Qed.

Lemma ensure_is_idempotent_witness :
  (exists T status w1,
     ensure_topic_thread 1 (py "demo") (py "demo") None true fresh_world
     = (Ok (status, true), w1)
     /\ TopicStatus.thread_id status = T
     /\ Forall (reused T)
          (fst (ensure_repeatedly 3 1 (py "demo") (py "demo") None true w1))
     /\ List.length
          (fst (ensure_repeatedly 3 1 (py "demo") (py "demo") None true w1))
        = 3
     /\ creations
          (calls (snd (ensure_repeatedly 3 1 (py "demo") (py "demo") None
                         true w1)))
        = creations (calls fresh_world) + 1)
  /\ (Forall created_anew
        (fst (ensure_repeatedly 3 1 (py "demo") (py "demo") None false
                fresh_world))
      /\ List.length
           (fst (ensure_repeatedly 3 1 (py "demo") (py "demo") None false
                   fresh_world)) = 3
      /\ creations
           (calls (snd (ensure_repeatedly 3 1 (py "demo") (py "demo") None
                          false fresh_world)))
         = creations (calls fresh_world) + 3).
Proof.
  apply (ensure_is_idempotent (healthy := memory_platform_healthy)
           fresh_world 1 (py "demo") (py "demo") None 3).
  reflexivity.
Defined.

(** C1, as the claim states it, fails.  The store and the platform of
    the examples are healthy; two calls with identical inputs, with
    bind_state = false, return created = true with the thread 1 and then
    created = true with the thread 2: the second call does not reuse the
    thread of the first, and [create_forum_topic] is called twice. *)
Lemma identical_calls_create_twice :
  Healthy (list TopicThreadSnapshot.t) platform
    (fun b chat thread => topic_exists b chat thread = true)
  /\ exists s1 s2,
       fst (ensure_repeatedly 2 1 (py "demo") (py "demo") None false
              fresh_world)
       = [Ok (s1, true); Ok (s2, true)]
       /\ TopicStatus.thread_id s1 = 1%Z
       /\ TopicStatus.thread_id s2 = 2%Z
       /\ ~ reused (TopicStatus.thread_id s1) (Ok (s2, true))
       /\ creations
            (calls (snd (ensure_repeatedly 2 1 (py "demo") (py "demo") None
                           false fresh_world)))
          = 2.
Proof.
  split; [exact memory_platform_healthy |].
  eexists; eexists. split; [vm_compute; reflexivity |].
  split; [reflexivity |]. split; [reflexivity |]. split; [| reflexivity].
  intros (status & E & _). discriminate.
Qed.

(** The test of the spec: chat 1, project "demo", no branch. *)
Example ensure_twice_for_demo :
  map (fun r => match r with
                | Ok (status, created) =>
                    Some (created, TopicStatus.thread_id status)
                | Raise _ => None
                end)
    (fst (ensure_repeatedly 2 1 (py "demo") (py "demo") None true fresh_world))
  = [Some (true, 1%Z); Some (false, 1%Z)].
Proof. vm_compute. reflexivity. Qed.

(** Without [bind_state] nothing is bound, and the second call creates a
    second topic. *)
Example ensure_twice_without_binding :
  map (fun r => match r with
                | Ok (status, created) =>
                    Some (created, TopicStatus.thread_id status)
                | Raise _ => None
                end)
    (fst (ensure_repeatedly 2 1 (py "demo") (py "demo") None false fresh_world))
  = [Some (true, 1%Z); Some (true, 2%Z)].
Proof. vm_compute. reflexivity. Qed.

Lemma stale_binding_is_replaced_witness :
  exists status w',
    ensure_topic_thread 1 (py "demo") (py "demo") None true drifted_world
    = (Ok (status, true), w')
    /\ TopicStatus.thread_id status = 7%Z
    /\ TopicStatus.thread_id status <> 5%Z
    /\ get_thread (store w') 1 5 = None.
Proof.
  pose proof (stale_binding_is_replaced drifted_world 1 (py "demo") (py "demo")
                None true 5 (bot drifted_world) {| message_thread_id := 7 |}
                {| topics := [(1, 7); (1, 6)]%Z; next_thread := 8 |}) as H.
  cbv zeta in H.
  assert (F : find_thread_for_context (store drifted_world) 1
                (requested_context (py "demo") None) = Some 5%Z)
    by reflexivity.
  assert (E : edit_forum_topic (bot drifted_world) 1 5
                (build_topic_title (py "demo") None)
              = (false, bot drifted_world)) by reflexivity.
  assert (C : create_forum_topic (bot drifted_world) 1
                (build_topic_title (py "demo") None)
              = (Some {| message_thread_id := 7 |},
                 {| topics := [(1, 7); (1, 6)]%Z; next_thread := 8 |}))
    by reflexivity.
  destruct (H F E C
              (fun s snapshot G =>
                 get_thread_answers (Healthy := memory_platform_healthy)
                   s 1%Z 7%Z snapshot G))
    as (status & w' & R & T & O & S & _).
  exists status, w'. split; [exact R |]. split; [exact T |].
  split; [apply O; discriminate |]. rewrite S. reflexivity.
Defined.

Lemma made_up_status_context_witness :
  exists status created w',
    ensure_topic_thread 1 (py "demo") (py "Demo") (Some (py "main")) false
      lagging_world
    = (Ok (status, created), w')
    /\ TopicStatus.project status = None
    /\ TopicStatus.branch status = None.
Proof.
  destruct (ensure_topic_thread 1 (py "demo") (py "Demo") (Some (py "main"))
              false lagging_world) as [[[status created] | e] w'] eqn:R.
  - exists status, created, w'. split; [reflexivity |].
    destruct (made_up_status_context lagging_world 1 (py "demo") (py "Demo")
                (Some (py "main")) false status created w' R)
      as (thread & _ & H).
    destruct (H eq_refl) as (_ & _ & P & B). split; [exact P | exact B].
  - vm_compute in R. discriminate.
Defined.

(** With [bind_state] the status made up carries the context. *)
Example made_up_status_with_binding :
  match ensure_topic_thread 1 (py "demo") (py "Demo") (Some (py "main")) true
          lagging_world with
  | (Ok (status, created), _) =>
      Some (created, TopicStatus.project status, TopicStatus.branch status)
  | (Raise _, _) => None
  end
  = Some (true, Some (py "Demo"), Some (py "main")).
Proof. vm_compute. reflexivity. Qed.

(* ===================================================================== *)
(** * Part III. Further properties                                       *)
(* ===================================================================== *)

(** ** From the writer to the reader *)

Lemma append_all_valid (es : list SwarmEnvelope) :
  Forall (fun e => valid_envelope e = true) es ->
  forall content,
    append_all (File content) es
    = Ok (File (content ++ List.concat (map line_of es)))
    /\ (es <> [] ->
        append_all Missing es = Ok (File (List.concat (map line_of es)))).
Proof.
  induction 1 as [| e es V Vs IH]; intros content.
  - cbn. rewrite app_nil_r. split; [reflexivity | congruence].
  - destruct (append_writes_line e content V) as [A1 _].
    destruct (append_writes_line e [] V) as [_ A2].
    cbn [append_all map List.concat]. rewrite A1, A2.
    destruct (IH (content ++ line_of e)) as [I1 _].
    destruct (IH (line_of e)) as [I2 _].
    rewrite I1, I2, <- app_assoc. split; reflexivity.
Qed.

Lemma written_file (batches : list (list SwarmEnvelope)) :
  Forall (Forall (fun e => valid_envelope e = true)) batches ->
  forall content,
    written (File content) batches
    = observed content (map (fun b => List.concat (map line_of b)) batches).
Proof.
  induction 1 as [| b batches V Vs IH]; intros content; [reflexivity |].
  cbn [written map observed].
  destruct (append_all_valid b V content) as [-> _]. now rewrite IH.
Qed.

Lemma triggers_of_lines (es : list SwarmEnvelope) :
  Forall (fun e => valid_envelope e = true) es ->
  triggers (complete_lines (List.concat (map line_of es)))
  = filter translated es.
Proof.
  induction 1 as [| e es V Vs IH]; [reflexivity |].
  destruct (msgspec_json_encode_total e V) as [b E].
  destruct (encoded_line e b E) as (N & _ & _).
  cbn [map List.concat filter].
  rewrite (line_of_encoded e b E), <- app_assoc. cbn [app].
  rewrite complete_lines_line by assumption. cbn [triggers].
  rewrite (line_trigger_encoded e b E), IH.
  now destruct (translated e).
Qed.

Lemma concat_lines_of_batches (batches : list (list SwarmEnvelope)) :
  List.concat (map (fun b => List.concat (map line_of b)) batches)
  = List.concat (map line_of (List.concat batches)).
Proof.
  induction batches as [| b batches IH]; [reflexivity |].
  cbn [map List.concat]. now rewrite map_app, concat_app, IH.
Qed.

Lemma Forall_concat {A} (P : A -> Prop) (ls : list (list A)) :
  Forall (Forall P) ls -> Forall P (List.concat ls).
Proof.
  induction 1 as [| l ls H Hs IH]; [constructor |].
  cbn [List.concat]. apply Forall_app. now split.
Qed.

Lemma poll_one_missing (files : list file_state) :
  poll_swarm_inbox (Missing :: files)
  = (Sleep :: fst (poll_swarm_inbox files), snd (poll_swarm_inbox files)).
Proof.
  unfold poll_swarm_inbox. exact (poll_from_missing 1 files).
Qed.

Lemma written_stream (batches : list (list SwarmEnvelope)) :
  Forall (Forall (fun e => valid_envelope e = true)) batches ->
  map Message.raw_swarm
    (yielded (fst (poll_swarm_inbox (written Missing batches))))
  = filter translated (List.concat batches)
  /\ map Message.message_id
       (yielded (fst (poll_swarm_inbox (written Missing batches))))
     = ids_from (-1) (List.length (filter translated (List.concat batches))).
Proof.
  induction 1 as [| b batches V Vs IH]; [now split |].
  destruct b as [| e b].
  - cbn [written append_all List.concat app].
    rewrite poll_one_missing. cbn [fst yielded]. exact IH.
  - destruct (append_all_valid (e :: b) V []) as [_ A].
    cbn [written]. rewrite (A ltac:(discriminate)).
    rewrite (written_file batches Vs).
    set (first := List.concat (map line_of (e :: b))).
    change (File first
              :: observed first
                   (map (fun b0 => List.concat (map line_of b0)) batches))
      with (observed []
              (map (fun b0 => List.concat (map line_of b0))
                 ((e :: b) :: batches))).
    destruct (poll_observed_triggers
                (map (fun b0 => List.concat (map line_of b0))
                   ((e :: b) :: batches))) as [R I].
    rewrite concat_lines_of_batches in R, I.
    rewrite triggers_of_lines in R, I
      by (apply Forall_concat; now constructor).
    now split.
Qed.

(** A cycle on a file that opens, or that is not there, ends well. *)
Lemma poll_cycle_readable (f : file_state) (st : poll_state) :
  readable f -> settled st ->
  exists evs st',
    poll_cycle f st = (evs, Ok st')
    /\ settled st'
    /\ (forall content, f = File content -> offset st' = len content).
Proof.
  intros Rd [P N]. destruct f as [| | content]; [| now elim Rd |].
  - eexists; eexists. split; [reflexivity |]. split.
    + split; cbn; [lia | tauto].
    + discriminate.
  - unfold poll_cycle. rewrite (read_chunk_file content (offset st) P).
    pose proof (len_nonneg content) as L.
    destruct (truthy (chunk_read content (offset st))).
    + rewrite pop_or_empty_split. destruct (process_lines _ _).
      eexists; eexists. split; [reflexivity |]. split.
      * split; cbn; [assumption | apply pending_no_lf].
      * intros c H. now injection H as <-.
    + eexists; eexists. split; [reflexivity |]. split.
      * split; cbn; assumption.
      * intros c H. now injection H as <-.
Qed.

Lemma poll_from_readable (files : list file_state) :
  Forall readable files ->
  forall st,
    settled st ->
    exists evs st', poll_from st files = (evs, Ok st') /\ settled st'.
Proof.
  induction 1 as [| f files Rd Rds IH]; intros st S.
  - exists [], st. now split.
  - destruct (poll_cycle_readable f st Rd S) as (evs & st1 & E & S1 & _).
    destruct (IH st1 S1) as (evs' & st2 & E' & S2).
    cbn [poll_from]. rewrite E, E'. eexists; eexists. now split.
Qed.

Lemma settled_initial : settled initial_state.
Proof. split; cbn; [lia | tauto]. Qed.

Lemma append_all_readable (es : list SwarmEnvelope) :
  forall f f', readable f -> append_all f es = Ok f' -> readable f'.
Proof.
  induction es as [| e es IH]; intros f f' Rd; cbn [append_all].
  - intros H. now injection H as <-.
  - unfold append_swarm_envelope.
    destruct (msgspec_json_encode e); [| discriminate].
    destruct f; [| now elim Rd |]; apply IH; discriminate.
Qed.

Lemma written_readable (batches : list (list SwarmEnvelope)) :
  forall f, readable f -> Forall readable (written f batches).
Proof.
  induction batches as [| b batches IH]; intros f Rd; [constructor |].
  cbn [written]. destruct (append_all f b) as [f' |] eqn:A; [| constructor].
  pose proof (append_all_readable b f f' Rd A). constructor; auto.
Qed.

Lemma length_observed (appended : list bytes) :
  forall content,
    List.length (observed content appended) = List.length appended.
Proof.
  induction appended as [| a appended IH]; intros content; [reflexivity |].
  cbn [observed List.length]. now rewrite IH.
Qed.

Lemma written_length (batches : list (list SwarmEnvelope)) :
  Forall (Forall (fun e => valid_envelope e = true)) batches ->
  List.length (written Missing batches) = List.length batches.
Proof.
  induction 1 as [| b batches V Vs IH]; [reflexivity |].
  destruct b as [| e b].
  - cbn [written append_all List.length]. now rewrite IH.
  - destruct (append_all_valid (e :: b) V []) as [_ A].
    cbn [written]. rewrite (A ltac:(discriminate)).
    rewrite (written_file batches Vs). cbn [List.length].
    now rewrite length_observed, length_map.
Qed.

(** X1. What the writer appends, the reader delivers: when envelopes that
    the encoder takes (strings that UTF-8 can carry, ints within the
    limit of the conversion) are appended with [append_swarm_envelope] to
    a file that did not exist, in any batches between the cycles of one
    reader, every batch is written and the stream yields one message for
    each trigger envelope with text, in the order they were appended,
    each of them once, with the ids -1, -2, ...; control envelopes and
    triggers with blank text give no message and use no id; and the
    stream does not end. *)
Theorem appended_envelopes_are_delivered
    (batches : list (list SwarmEnvelope)) :
  Forall (Forall (fun e => valid_envelope e = true)) batches ->
  List.length (written Missing batches) = List.length batches
  /\ map Message.raw_swarm
       (yielded (fst (poll_swarm_inbox (written Missing batches))))
     = filter translated (List.concat batches)
  /\ map Message.message_id
       (yielded (fst (poll_swarm_inbox (written Missing batches))))
     = ids_from (-1) (List.length (filter translated (List.concat batches)))
  /\ exists st, snd (poll_swarm_inbox (written Missing batches)) = Ok st.
Proof.
  intros V. destruct (written_stream batches V) as [R I].
  split; [now apply written_length |].
  split; [exact R |]. split; [exact I |].
  destruct (poll_from_readable (written Missing batches)
              (written_readable batches Missing ltac:(discriminate))
              initial_state settled_initial) as (evs & st & E & _).
  exists st. unfold poll_swarm_inbox. now rewrite E.
Qed.

Lemma appended_envelopes_are_delivered_witness :
  map Message.raw_swarm
    (yielded (fst (poll_swarm_inbox
                     (written Missing [[]; [control_only; hello]; []; [third]]))))
  = [hello; third].
Proof.
  destruct (appended_envelopes_are_delivered
              [[]; [control_only; hello]; []; [third]]) as (_ & R & _).
  - repeat constructor.
  - exact R.
Defined.

Lemma process_lines_encoded (e : SwarmEnvelope) (b : bytes)
    (rest : list bytes) (n : Z) :
  msgspec_json_encode e = Some b -> translated e = true ->
  process_lines (b :: rest) n
  = (Yield (message_of e n) :: fst (process_lines rest (n - 1)),
     snd (process_lines rest (n - 1))).
Proof.
  intros E T. destruct (encoded_line e b E) as (_ & S & Tr).
  cbn [process_lines]. rewrite S, Tr, (decode_encoded e b E). cbn [negb].
  unfold translated in T. apply andb_prop in T. destruct T as [T1 T2].
  unfold _to_synthetic_message. rewrite T1, blank_text, T2. cbn [negb app].
  fold (message_of e n). now destruct (process_lines rest (n - 1)).
Qed.

Lemma new_swarm_envelope_valid (uuid4_hex now_iso : pystr)
    (i : SwarmIntent) (chat : Z) (thread : option Z) (txt : pystr)
    (origin : option pystr) :
  valid_str uuid4_hex = true -> valid_str now_iso = true ->
  valid_str txt = true -> valid_opt_str origin = true ->
  valid_int chat = true -> valid_opt_int thread = true ->
  valid_envelope (new_swarm_envelope uuid4_hex now_iso i chat thread txt origin)
  = true.
Proof.
  intros V1 V2 V3 V4 V5 V6. unfold valid_envelope, new_swarm_envelope.
  cbn [version event_id chat_id thread_id text origin_agent created_at
       valid_opt_str].
  rewrite V1, V2, V3, V4, V5, V6. reflexivity.
Qed.

(** X2. A trigger made by [new_swarm_envelope] from values that the
    encoder takes (text that UTF-8 can carry, ids within the limit of the
    conversion) and appended to a file whose records are all complete is
    delivered by the next cycle of a reader that had read that file: one
    message, with the chat id, the thread id, the text and the origin
    agent that were given, under the next id of the stream; the reader is
    then at the end of the file, with nothing held back. *)
Theorem queued_trigger_is_delivered (uuid4_hex now_iso txt : pystr)
    (chat : Z) (thread : option Z) (origin : option pystr)
    (content : bytes) (st : poll_state) :
  valid_str uuid4_hex = true -> valid_str now_iso = true ->
  valid_str txt = true -> valid_opt_str origin = true ->
  valid_int chat = true -> valid_opt_int thread = true ->
  forallb str_isspace txt = false ->
  tracks st content -> pending content = [] ->
  exists line m,
    append_swarm_envelope (File content)
      (new_swarm_envelope uuid4_hex now_iso trigger chat thread txt origin)
    = Ok (File (content ++ line))
    /\ poll_cycle (File (content ++ line)) st
       = ([Yield m; Sleep],
          Ok {| offset := (offset st + len line)%Z; remainder := [];
                next_message_id := (next_message_id st - 1)%Z |})
    /\ Message.chat_id m = chat
    /\ Message.thread_id m = thread
    /\ Message.text m = txt
    /\ Message.origin_agent m = origin
    /\ Message.ingress_intent m = trigger
    /\ Message.message_id m = next_message_id st.
Proof.
  intros V1 V2 V3 V4 V5 V6 B T P.
  set (e := new_swarm_envelope uuid4_hex now_iso trigger chat thread txt origin).
  assert (V : valid_envelope e = true)
    by now apply new_swarm_envelope_valid.
  assert (Tr : translated e = true)
    by (unfold translated, e; cbn; now rewrite B).
  destruct (msgspec_json_encode_total e V) as [b E].
  destruct (encoded_line e b E) as (N & _ & _).
  destruct (append_writes_line e content V) as [A _].
  exists (line_of e), (message_of e (next_message_id st)).
  split; [exact A |]. split; [| now repeat split].
  rewrite (poll_cycle_appended content (line_of e) st T).
  rewrite pending_app, P. cbn [app].
  rewrite (line_of_encoded e b E).
  replace (complete_lines (b ++ [LF])) with [b]
    by (now rewrite complete_lines_line by assumption).
  replace (pending (b ++ [LF])) with (@nil ascii)
    by (unfold pending; now rewrite split_lf_line by assumption).
  now rewrite (process_lines_encoded e b [] _ E Tr).
Qed.

Lemma queued_trigger_is_delivered_witness :
  exists line m,
    append_swarm_envelope (File (line_of control_only))
      (new_swarm_envelope (py "00ff") (py "2025-01-01T00:00:00+00:00")
         trigger 123 (Some 19%Z) (py "hello from swarm") (Some (py "manager")))
    = Ok (File (line_of control_only ++ line))
    /\ Message.text m = py "hello from swarm"
    /\ Message.message_id m = (-1)%Z.
Proof.
  destruct (queued_trigger_is_delivered (py "00ff")
              (py "2025-01-01T00:00:00+00:00") (py "hello from swarm")
              123 (Some 19%Z) (Some (py "manager")) (line_of control_only)
              {| offset := len (line_of control_only); remainder := [];
                 next_message_id := -1 |})
    as (line & m & A & _ & _ & _ & T & _ & _ & I);
    try reflexivity.
  - split; reflexivity.
  - exists line, m. now repeat split.
Defined.

(** ** Files that come and go *)

Lemma poll_from_app (files1 files2 : list file_state) :
  forall st,
    poll_from st (files1 ++ files2)
    = match poll_from st files1 with
      | (evs, Ok st') =>
          (evs ++ fst (poll_from st' files2), snd (poll_from st' files2))
      | (evs, Raise x) => (evs, Raise x)
      end.
Proof.
  induction files1 as [| f files1 IH]; intros st.
  - cbn. now destruct (poll_from st files2).
  - cbn [app poll_from]. destruct (poll_cycle f st) as [evs [st1 | x]];
      [| reflexivity].
    rewrite IH. destruct (poll_from st1 files1) as [evs1 [st2 | x]];
      [| reflexivity].
    now rewrite app_assoc.
Qed.

(** The envelopes delivered by a cycle depend on the offset and on the
    fragment held back, not on the next id. *)
Lemma poll_cycle_raw (f : file_state) (st1 st2 : poll_state) :
  offset st1 = offset st2 -> remainder st1 = remainder st2 ->
  map Message.raw_swarm (yielded (fst (poll_cycle f st1)))
  = map Message.raw_swarm (yielded (fst (poll_cycle f st2)))
  /\ match snd (poll_cycle f st1), snd (poll_cycle f st2) with
     | Ok s1, Ok s2 => offset s1 = offset s2 /\ remainder s1 = remainder s2
     | Raise x1, Raise x2 => x1 = x2
     | _, _ => False
     end.
Proof.
  intros O R. unfold poll_cycle. rewrite <- O, <- R.
  destruct (_read_chunk f (offset st1)) as [[chunk o] | x].
  - destruct (truthy chunk); [| now split].
    destruct (pop_or_empty _) as [ls r].
    destruct (process_lines_yields ls (next_message_id st1)) as (H1 & _).
    destruct (process_lines_yields ls (next_message_id st2)) as (H2 & _).
    destruct (process_lines ls (next_message_id st1)).
    destruct (process_lines ls (next_message_id st2)).
    cbn [fst snd] in *. split; [| now split].
    rewrite !yielded_app, !map_app. cbn [yielded map]. rewrite !app_nil_r.
    exact (eq_trans H1 (eq_sym H2)).
  - destruct x; now split.
Qed.

Lemma poll_from_raw (files : list file_state) :
  forall st1 st2,
    offset st1 = offset st2 -> remainder st1 = remainder st2 ->
    map Message.raw_swarm (yielded (fst (poll_from st1 files)))
    = map Message.raw_swarm (yielded (fst (poll_from st2 files))).
Proof.
  induction files as [| f files IH]; intros st1 st2 O R; [reflexivity |].
  cbn [poll_from]. destruct (poll_cycle_raw f st1 st2 O R) as [H S].
  destruct (poll_cycle f st1) as [e1 [s1 | x1]];
    destruct (poll_cycle f st2) as [e2 [s2 | x2]]; cbn [fst snd] in *;
    try contradiction; [| assumption].
  destruct S as [O' R']. specialize (IH s1 s2 O' R').
  destruct (poll_from s1 files), (poll_from s2 files). cbn [fst] in *.
  rewrite !yielded_app, !map_app. f_equal; assumption.
Qed.

(** X3. A cycle that finds no file makes the reader forget what it had
    read: the files found afterwards are read from their first byte, as by
    a new stream, so that records delivered before are delivered again
    when the file comes back with them. *)
Theorem missing_file_restarts_the_reader (files1 files2 : list file_state)
    (st : poll_state) :
  snd (poll_swarm_inbox files1) = Ok st ->
  map Message.raw_swarm
    (yielded (fst (poll_swarm_inbox (files1 ++ Missing :: files2))))
  = map Message.raw_swarm (yielded (fst (poll_swarm_inbox files1)))
    ++ map Message.raw_swarm (yielded (fst (poll_swarm_inbox files2))).
Proof.
  unfold poll_swarm_inbox. intros E. rewrite poll_from_app.
  destruct (poll_from initial_state files1) as [evs r]. cbn [snd] in E.
  subst r. cbn [fst poll_from]. rewrite poll_cycle_missing.
  rewrite (poll_from_raw files2 initial_state
             {| offset := 0; remainder := [];
                next_message_id := next_message_id st |} eq_refl eq_refl).
  destruct (poll_from _ files2). cbn [fst].
  now rewrite !yielded_app, !map_app.
Qed.

Lemma missing_file_restarts_the_reader_witness :
  map Message.raw_swarm
    (yielded (fst (poll_swarm_inbox
                     ([File (line_of hello)] ++ Missing :: [File (line_of hello)]))))
  = [hello; hello].
Proof.
  rewrite (missing_file_restarts_the_reader [File (line_of hello)]
             [File (line_of hello)]
             {| offset := len (line_of hello); remainder := [];
                next_message_id := -2 |}).
  - vm_compute. reflexivity.
  - vm_compute. reflexivity.
Defined.

(** X4. Only a missing file is forgiven: when the file cannot be opened
    for another reason the error leaves the generator, and nothing is
    yielded for the files that would have followed. *)
Theorem unreadable_file_ends_the_stream (files1 files2 : list file_state)
    (st : poll_state) :
  snd (poll_swarm_inbox files1) = Ok st ->
  poll_swarm_inbox (files1 ++ Unreadable :: files2)
  = (fst (poll_swarm_inbox files1), Raise OSError).
Proof.
  unfold poll_swarm_inbox. intros E. rewrite poll_from_app.
  destruct (poll_from initial_state files1) as [evs r]. cbn [snd] in E.
  subst r. cbn. now rewrite app_nil_r.
Qed.

Lemma unreadable_file_ends_the_stream_witness :
  poll_swarm_inbox ([Missing; File (line_of hello)] ++ Unreadable
                      :: [File (line_of hello ++ line_of third)])
  = (fst (poll_swarm_inbox [Missing; File (line_of hello)]), Raise OSError).
Proof.
  apply (unreadable_file_ends_the_stream [Missing; File (line_of hello)]
           [File (line_of hello ++ line_of third)]
           {| offset := len (line_of hello); remainder := [];
              next_message_id := -2 |}).
  vm_compute. reflexivity.
Defined.

(** ** What the state of the reader always satisfies *)

Lemma poll_cycle_ok_readable (f : file_state) (st : poll_state)
    (evs : list event) (st' : poll_state) :
  poll_cycle f st = (evs, Ok st') -> readable f.
Proof. intros E ->. discriminate. Qed.

Lemma poll_from_invariant (files : list file_state) :
  forall st evs st',
    settled st ->
    poll_from st files = (evs, Ok st') ->
    settled st'
    /\ next_message_id st'
       = (next_message_id st - Z.of_nat (List.length (yielded evs)))%Z
    /\ (forall content,
          files <> [] -> last files Missing = File content ->
          offset st' = len content).
Proof.
  induction files as [| f files IH]; intros st evs st' S E.
  - cbn in E. injection E as <- <-. cbn. split; [assumption |].
    split; [lia | congruence].
  - cbn [poll_from] in E.
    destruct (poll_cycle f st) as [evs1 [st1 | x]] eqn:C; [| discriminate].
    pose proof (poll_cycle_ok_readable f st evs1 st1 C) as Rd.
    destruct (poll_cycle_readable f st Rd S) as (evs1' & st1' & C' & S1 & O1).
    rewrite C in C'. injection C' as <- <-.
    destruct (poll_cycle_ids f st) as [_ I1]. rewrite C in I1.
    specialize (I1 st1 eq_refl). cbn [fst] in I1.
    destruct (poll_from st1 files) as [evs2 r] eqn:P.
    injection E as <- ->.
    destruct (IH st1 evs2 st' S1 P) as (S2 & I2 & O2).
    split; [assumption |]. split.
    + rewrite yielded_app, length_app. lia.
    + intros content _ L. destruct files as [| f' files'].
      * cbn in P. injection P as _ <-. cbn in L. now apply O1.
      * apply O2; [discriminate |]. exact L.
Qed.

(** X5. Whatever files the cycles find, as long as the stream goes on
    the offset is not negative and is, after a cycle that read a file, the
    length of that file; the fragment held back holds no line feed; and the
    next id is -1 minus the number of messages yielded so far: an id is
    used for a message only, and never twice. *)
Theorem reader_state_invariant (files : list file_state)
    (evs : list event) (st : poll_state) :
  poll_swarm_inbox files = (evs, Ok st) ->
  (0 <= offset st)%Z
  /\ ~ In LF (remainder st)
  /\ next_message_id st = (-1 - Z.of_nat (List.length (yielded evs)))%Z
  /\ (forall content,
        files <> [] -> last files Missing = File content ->
        offset st = len content).
Proof.
  intros E.
  destruct (poll_from_invariant files initial_state evs st settled_initial E)
    as ([P N] & I & O).
  repeat split; assumption.
Qed.

Lemma reader_state_invariant_witness :
  exists evs st,
    poll_swarm_inbox [Missing; File partial_file] = (evs, Ok st)
    /\ offset st = len partial_file
    /\ next_message_id st = (-1 - Z.of_nat (List.length (yielded evs)))%Z.
Proof.
  destruct (poll_swarm_inbox [Missing; File partial_file])
    as [evs [st | x]] eqn:E.
  - exists evs, st. split; [reflexivity |].
    destruct (reader_state_invariant [Missing; File partial_file] evs st E)
      as (_ & _ & I & O).
    split; [apply O; [discriminate | reflexivity] | exact I].
  - vm_compute in E. discriminate.
Defined.

(** ** Whitespace around a record *)

Section PaddingFacts.
Context {A : Type} (sp : A -> bool).

Lemma lstrip_padding (ws l : list A) :
  forallb sp ws = true -> lstrip sp (ws ++ l) = lstrip sp l.
Proof.
  induction ws as [| c ws IH]; [reflexivity |]. cbn.
  intros H. apply andb_prop in H. destruct H as [-> H]. auto.
Qed.

Lemma lstrip_app_kept (l ws : list A) :
  forallb sp l = false -> lstrip sp (l ++ ws) = lstrip sp l ++ ws.
Proof.
  induction l as [| c l IH]; cbn; [discriminate |].
  destruct (sp c); [assumption | reflexivity].
Qed.

Lemma forallb_rev (l : list A) : forallb sp (rev l) = forallb sp l.
Proof.
  induction l as [| c l IH]; [reflexivity |].
  cbn [rev forallb]. rewrite forallb_app, IH. cbn. now rewrite andb_true_r, andb_comm.
Qed.

Lemma rstrip_padding (l ws : list A) :
  forallb sp ws = true -> rstrip sp (l ++ ws) = rstrip sp l.
Proof.
  intros H. unfold rstrip. rewrite rev_app_distr, lstrip_padding;
    [reflexivity | now rewrite forallb_rev].
Qed.

(** [strip] does not see the whitespace put around its argument. *)
Lemma strip_padding (ws1 l ws2 : list A) :
  forallb sp ws1 = true -> forallb sp ws2 = true ->
  strip sp (ws1 ++ l ++ ws2) = strip sp l.
Proof.
  intros H1 H2. unfold strip. rewrite lstrip_padding by assumption.
  destruct (forallb sp l) eqn:F.
  - rewrite lstrip_padding by assumption.
    now rewrite (lstrip_all sp ws2 H2), (lstrip_all sp l F).
  - rewrite lstrip_app_kept by assumption. now apply rstrip_padding.
Qed.
End PaddingFacts.

(** X6. The loop strips each segment before it decodes it: a record with
    spaces, tabs or carriage returns before or after it gives the same
    events as the record alone, so that a file written with CR LF line
    ends is read like one written with LF. *)
Theorem padded_record_is_read (ws1 line ws2 : bytes) (rest : list bytes)
    (n : Z) :
  forallb bytes_isspace ws1 = true -> forallb bytes_isspace ws2 = true ->
  process_lines ((ws1 ++ line ++ ws2) :: rest) n
  = process_lines (line :: rest) n.
Proof.
  intros H1 H2. cbn [process_lines]. unfold bytes_strip.
  now rewrite (strip_padding bytes_isspace ws1 line ws2 H1 H2).
Qed.

Lemma padded_record_is_read_witness :
  process_lines
    [lit "  " ++ removelast (line_of hello) ++ [chr 13; chr 9]] (-1)
  = process_lines [removelast (line_of hello)] (-1).
Proof. apply padded_record_is_read; reflexivity. Defined.

(** A record of [hello] that ends with CR LF. *)
Example carriage_return_is_stripped :
  yielded (fst (poll_swarm_inbox
                  [File (removelast (line_of hello) ++ [chr 13; LF])]))
  = [message_of hello (-1)].
Proof. vm_compute. reflexivity. Qed.

(** ** Fields that are not in a record *)






(** ** Branches and titles *)

Section StripIdempotent.
Context {A : Type} (sp : A -> bool).

Lemma lstrip_fixed (l : list A) : lstrip sp (lstrip sp l) = lstrip sp l.
Proof.
  destruct (lstrip sp l) as [| c l'] eqn:E; [reflexivity |].
  apply lstrip_head in E. cbn. now rewrite E.
Qed.

Lemma lstrip_split (l : list A) :
  exists ws, l = ws ++ lstrip sp l /\ forallb sp ws = true.
Proof.
  induction l as [| c l (ws & E & F)]; [now exists [] |].
  cbn [lstrip]. destruct (sp c) eqn:C.
  - exists (c :: ws). cbn. rewrite C, F. split; [now f_equal | reflexivity].
  - now exists [].
Qed.

Lemma rstrip_split (l : list A) :
  exists ws, l = rstrip sp l ++ ws /\ forallb sp ws = true.
Proof.
  destruct (lstrip_split (rev l)) as (ws & E & F).
  exists (rev ws). unfold rstrip. split.
  - rewrite <- rev_app_distr, <- E. now rewrite rev_involutive.
  - now rewrite forallb_rev.
Qed.

Lemma rstrip_fixed (l : list A) : rstrip sp (rstrip sp l) = rstrip sp l.
Proof. unfold rstrip. now rewrite rev_involutive, lstrip_fixed. Qed.

Lemma lstrip_rstrip (l : list A) :
  lstrip sp l = l -> lstrip sp (rstrip sp l) = rstrip sp l.
Proof.
  intros H. destruct (rstrip_split l) as (ws & E & F).
  destruct (rstrip sp l) as [| c r] eqn:R; [reflexivity |].
  rewrite E in H. cbn [app lstrip] in H. cbn [lstrip].
  destruct (sp c) eqn:C; [| reflexivity].
  exfalso. pose proof (lstrip_split (r ++ ws)) as (ws' & E' & _).
  apply (f_equal (@List.length A)) in H. apply (f_equal (@List.length A)) in E'.
  cbn [List.length] in H. rewrite E', length_app in H. lia.
Qed.

Lemma strip_strip (l : list A) : strip sp (strip sp l) = strip sp l.
Proof.
  unfold strip. rewrite (lstrip_rstrip (lstrip sp l) (lstrip_fixed l)).
  apply rstrip_fixed.
Qed.
End StripIdempotent.

(** X8. [normalize_branch] gives a branch that is its own normal form:
    normalizing twice is normalizing once; a branch that comes out is not
    empty and has no whitespace at either end; and no branch comes out
    exactly when none was given or when what was given is all
    whitespace. *)
Theorem normalize_branch_normal (value : option pystr) :
  normalize_branch (normalize_branch value) = normalize_branch value
  /\ (forall b,
        normalize_branch value = Some b ->
        b <> [] /\ str_strip b = b /\ normalize_branch (Some b) = Some b)
  /\ (normalize_branch value = None <->
      value = None
      \/ exists s, value = Some s /\ forallb str_isspace s = true).
Proof.
  assert (K : forall s b,
             normalize_branch (Some s) = Some b ->
             b <> [] /\ str_strip b = b /\ normalize_branch (Some b) = Some b).
  { intros s b. unfold normalize_branch.
    destruct (truthy (str_strip s)) eqn:T; [| discriminate].
    intros H. injection H as <-.
    assert (S : str_strip (str_strip s) = str_strip s)
      by apply (strip_strip str_isspace).
    rewrite S, T. repeat split; try assumption.
    intros E. rewrite E in T. discriminate. }
  split; [| split].
  - destruct value as [s |]; [| reflexivity].
    destruct (normalize_branch (Some s)) as [b |] eqn:E; [| reflexivity].
    now destruct (K s b E) as (_ & _ & ->).
  - intros b E. destruct value as [s |]; [| discriminate]. now apply (K s).
  - split.
    + destruct value as [s |]; [| now left].
      unfold normalize_branch. rewrite blank_text.
      destruct (forallb str_isspace s) eqn:F; [| discriminate].
      intros _. right. now exists s.
    + intros [-> | (s & -> & F)]; [reflexivity |].
      unfold normalize_branch. now rewrite blank_text, F.
Qed.

(** X9. The title tells the branches of a project apart: for one alias,
    two branches that are not empty give the same title only when they are
    the same branch, and the title of a branch is never the title without
    branch. *)
Theorem titles_tell_branches_apart (alias : pystr) (b1 b2 : option pystr) :
  b1 <> Some [] -> b2 <> Some [] ->
  build_topic_title alias b1 = build_topic_title alias b2 -> b1 = b2.
Proof.
  assert (L : forall b : pystr, alias ++ py " @" ++ b <> alias).
  { intros b H. apply (f_equal (@List.length N)) in H.
    rewrite !length_app in H. cbn in H. lia. }
  intros N1 N2. unfold build_topic_title.
  destruct b1 as [[| c1 b1] |], b2 as [[| c2 b2] |]; try congruence;
    cbn [truthy]; intros H;
    first [ now (exfalso; apply N1)
          | now (exfalso; apply N2)
          | reflexivity
          | now apply L in H
          | symmetry in H; now apply L in H
          | apply app_inv_head in H; cbn in H; congruence ].
Qed.

Lemma titles_tell_branches_apart_witness :
  build_topic_title (py "demo") (Some (py "main"))
  = build_topic_title (py "demo") (normalize_branch (Some (py " main  ")))
  /\ Some (py "main") = normalize_branch (Some (py " main  ")).
Proof.
  split; [reflexivity |].
  apply (titles_tell_branches_apart (py "demo"));
    [vm_compute; discriminate | vm_compute; discriminate | reflexivity].
Defined.

(** ** The sessions of a status *)

Lemma str_leb_total (a : pystr) :
  forall b, str_leb a b = false -> str_leb b a = true.
Proof.
  induction a as [| x a IH]; intros [| y b]; cbn; try congruence.
  destruct (N.ltb_spec x y); [discriminate |].
  destruct (N.ltb_spec y x); [reflexivity |]. apply IH.
Qed.

Lemma str_leb_antisym (a : pystr) :
  forall b, str_leb a b = true -> str_leb b a = true -> a = b.
Proof.
  induction a as [| x a IH]; intros [| y b]; cbn; try congruence.
  destruct (N.ltb_spec x y), (N.ltb_spec y x); try discriminate; try lia.
  intros H1 H2. f_equal; [lia | now apply IH].
Qed.

Lemma str_leb_trans (a : pystr) :
  forall b c, str_leb a b = true -> str_leb b c = true -> str_leb a c = true.
Proof.
  induction a as [| x a IH]; intros [| y b] [| z c]; cbn; try congruence.
  destruct (N.ltb_spec x y), (N.ltb_spec y x), (N.ltb_spec y z),
    (N.ltb_spec z y), (N.ltb_spec x z), (N.ltb_spec z x);
    try discriminate; try reflexivity; try lia.
  apply IH.
Qed.

Lemma insert_sorted_perm (x : pystr) (l : list pystr) :
  Permutation (insert_sorted x l) (x :: l).
Proof.
  induction l as [| y l IH]; cbn; [reflexivity |].
  destruct (str_leb x y); [reflexivity |].
  rewrite IH. apply perm_swap.
Qed.

Lemma sorted_perm (l : list pystr) : Permutation (sorted l) l.
Proof.
  induction l as [| x l IH]; cbn; [reflexivity |].
  rewrite insert_sorted_perm. now constructor.
Qed.

Lemma insert_sorted_sorted (x : pystr) (l : list pystr) :
  Sorted str_le l -> Sorted str_le (insert_sorted x l).
Proof.
  induction 1 as [| y l S IH H]; cbn.
  - repeat constructor.
  - destruct (str_leb x y) eqn:C.
    + constructor; [now constructor |]. now constructor.
    + constructor; [assumption |].
      apply str_leb_total in C.
      destruct l as [| z l]; cbn; [now constructor |].
      destruct (str_leb x z); constructor; [assumption |].
      now inversion H.
Qed.

Lemma sorted_sorted (l : list pystr) : Sorted str_le (sorted l).
Proof.
  induction l as [| x l IH]; cbn; [constructor |].
  now apply insert_sorted_sorted.
Qed.

Lemma insert_sorted_two (x y : pystr) (l : list pystr) :
  (if str_leb x y then x :: y :: l else y :: x :: l)
  = (if str_leb y x then y :: x :: l else x :: y :: l).
Proof.
  destruct (str_leb x y) eqn:A, (str_leb y x) eqn:B; try reflexivity.
  - now rewrite (str_leb_antisym x y A B).
  - apply str_leb_total in A. congruence.
Qed.

Lemma insert_sorted_comm (x y : pystr) (l : list pystr) :
  insert_sorted x (insert_sorted y l) = insert_sorted y (insert_sorted x l).
Proof.
  induction l as [| z l IH]; cbn [insert_sorted].
  - apply insert_sorted_two.
  - destruct (str_leb x z) eqn:A, (str_leb y z) eqn:B; cbn [insert_sorted];
      rewrite ?A, ?B.
    + apply insert_sorted_two.
    + destruct (str_leb y x) eqn:C; [| reflexivity].
      rewrite (str_leb_trans y x z C A) in B. discriminate.
    + destruct (str_leb x y) eqn:C; [| reflexivity].
      rewrite (str_leb_trans x y z C B) in A. discriminate.
    + now rewrite IH.
Qed.

Lemma sorted_of_permutation (l1 l2 : list pystr) :
  Permutation l1 l2 -> sorted l1 = sorted l2.
Proof.
  unfold sorted.
  induction 1 as [| x l1 l2 P IH | x y l | l1 l2 l3 P1 IH1 P2 IH2];
    cbn [fold_right].
  - reflexivity.
  - now rewrite IH.
  - apply insert_sorted_comm.
  - congruence.
Qed.

(** X10. The sessions of a status are the keys of the sessions of the
    snapshot, in ascending order: the same keys, each as often, sorted; so
    the status does not depend on the order in which the sessions were
    put into the snapshot. *)
Theorem status_sessions_are_sorted (snapshot : TopicThreadSnapshot.t)
    (aliases : list (pystr * pystr)) :
  Sorted str_le (TopicStatus.sessions (snapshot_to_status snapshot aliases))
  /\ Permutation (TopicStatus.sessions (snapshot_to_status snapshot aliases))
       (map fst (TopicThreadSnapshot.sessions snapshot))
  /\ (forall other,
        Permutation (TopicThreadSnapshot.sessions snapshot)
          (TopicThreadSnapshot.sessions other) ->
        TopicStatus.sessions (snapshot_to_status other aliases)
        = TopicStatus.sessions (snapshot_to_status snapshot aliases)).
Proof.
  cbn [snapshot_to_status TopicStatus.sessions].
  split; [apply sorted_sorted |]. split; [apply sorted_perm |].
  intros other P. apply sorted_of_permutation.
  apply Permutation_map. now symmetry.
Qed.

(** ** Integers beyond the limit of the conversion *)

Lemma encode_int_beyond (z : Z) :
  (int_max_str_digits < int_digits z)%nat -> encode_int z = None.
Proof.
  intros L. unfold encode_int. apply Nat.ltb_lt in L. now rewrite L.
Qed.

Lemma scan_digits_longer (u : Decimal.uint) (rest : bytes) :
  (Decimal.nb_digits u
   <= Decimal.nb_digits (fst (scan_digits (uint_bytes u ++ rest))))%nat.
Proof.
  induction u; cbn [uint_bytes app Decimal.nb_digits]; [lia | ..];
    cbn [scan_digits];
    match goal with
    | |- context [digit_of ?c] =>
        first [ change (digit_of c) with (Some Decimal.D0)
              | change (digit_of c) with (Some Decimal.D1)
              | change (digit_of c) with (Some Decimal.D2)
              | change (digit_of c) with (Some Decimal.D3)
              | change (digit_of c) with (Some Decimal.D4)
              | change (digit_of c) with (Some Decimal.D5)
              | change (digit_of c) with (Some Decimal.D6)
              | change (digit_of c) with (Some Decimal.D7)
              | change (digit_of c) with (Some Decimal.D8)
              | change (digit_of c) with (Some Decimal.D9) ]
    end;
    destruct (scan_digits (uint_bytes u ++ rest)) as [v r];
    cbn [fst Decimal.nb_digits] in *; lia.
Qed.

Lemma decode_digits_beyond (neg : bool) (s : bytes) :
  (int_max_str_digits < Decimal.nb_digits (fst (scan_digits s)))%nat ->
  (let (u, rest) := scan_digits s in
   match u with
   | Decimal.Nil => None
   | _ =>
       if leading_zero u || float_follows rest then None
       else if (int_max_str_digits <? Decimal.nb_digits u)%nat then None
       else Some (Z.of_int (if neg then Decimal.Neg u else Decimal.Pos u),
                  rest)
   end) = None.
Proof.
  destruct (scan_digits s) as [u rest]. cbn [fst]. intros L.
  apply Nat.ltb_lt in L.
  destruct u; [reflexivity | ..];
    (destruct (leading_zero _ || float_follows rest); [reflexivity |]);
    now rewrite L.
Qed.

Lemma decode_int_beyond (z : Z) (rest : bytes) :
  (int_max_str_digits < int_digits z)%nat ->
  decode_int (int_repr z ++ rest) = None.
Proof.
  unfold decode_int, int_repr, int_digits.
  destruct z as [| p | p]; simpl Z.to_int; intros L.
  - exfalso. cbn [Decimal.nb_digits] in L.
    assert (K : (1 <= int_max_str_digits)%nat)
      by (apply Nat.leb_le; reflexivity).
    lia.
  - destruct (uint_bytes_head _ (DecimalPos.Unsigned.to_uint_nonnil p))
      as (c & tl & E & D).
    pose proof (scan_digits_longer (Pos.to_uint p) rest) as G.
    rewrite E in *. cbn [app] in *.
    assert (M : (code c =? 45)%N = false).
    { destruct (N.eqb_spec (code c) 45) as [K |]; [| reflexivity].
      exfalso; apply D. unfold digit_of. now rewrite K. }
    rewrite M. apply (decode_digits_beyond false). lia.
  - cbn [app]. change (code "-" =? 45)%N with true. cbn iota.
    pose proof (scan_digits_longer (Pos.to_uint p) rest) as G.
    apply (decode_digits_beyond true). lia.
Qed.

Lemma encode_beyond (e : SwarmEnvelope) :
  beyond_limit e -> msgspec_json_encode e = None.
Proof.
  intros B. unfold msgspec_json_encode, envelope_members.
  destruct B as [L | [L | (t & T & L)]].
  - now rewrite (encode_int_beyond _ L).
  - rewrite (encode_int_beyond _ L).
    destruct (encode_int (version e)), (encode_str (event_id e)),
      (encode_str (intent_name (intent e))); reflexivity.
  - rewrite T. cbn [encode_opt]. rewrite (encode_int_beyond _ L).
    destruct (encode_int (version e)), (encode_str (event_id e)),
      (encode_str (intent_name (intent e))), (encode_int (chat_id e));
      reflexivity.
Qed.

Lemma huge_id_digits : (int_max_str_digits < int_digits huge_id)%nat.
Proof.
  unfold int_digits, huge_id. rewrite DecimalZ.to_of.
  apply Nat.ltb_lt. vm_compute. reflexivity.
Qed.

(** C8, as the claim states it, fails: the fields of [oversized] are
    well typed (its chat id is an int, of 4301 digits) and the encoder
    raises on it, so that there are no bytes to decode. *)
Lemma oversized_envelope_is_not_encoded :
  msgspec_json_encode oversized = None
  /\ ~ (exists b,
          msgspec_json_encode oversized = Some b
          /\ msgspec_json_decode b = Some oversized).
Proof.
  assert (N : msgspec_json_encode oversized = None)
    by (apply encode_beyond; right; left; exact huge_id_digits).
  split; [exact N |]. intros (b & E & _). rewrite N in E. discriminate.
Qed.

(** X11. An envelope with an int of more digits than the limit of the
    conversion (the version, the chat id or the thread id) is not
    written: the encoder raises, so [append_swarm_envelope] raises and
    leaves the file as it was, whatever the file. *)
Theorem oversized_int_is_not_written (e : SwarmEnvelope) (f : file_state) :
  beyond_limit e ->
  msgspec_json_encode e = None
  /\ append_swarm_envelope f e = Raise EncodeError
  /\ append_all f [e] = Raise EncodeError
  /\ written f [[e]] = [].
Proof.
  intros B. pose proof (encode_beyond e B) as N.
  assert (A : append_swarm_envelope f e = Raise EncodeError)
    by (unfold append_swarm_envelope; now rewrite N).
  split; [exact N |]. split; [exact A |].
  cbn [written append_all]. rewrite A. now split.
Qed.

Lemma oversized_int_is_not_written_witness :
  beyond_limit oversized
  /\ append_swarm_envelope (File (line_of hello)) oversized
     = Raise EncodeError.
Proof.
  assert (B : beyond_limit oversized).
  { right. left. exact huge_id_digits. }
  split; [exact B |].
  now destruct (oversized_int_is_not_written oversized (File (line_of hello)) B)
    as (_ & A & _).
Defined.

(** X12. An integer of more digits than the limit is not read: the
    decoder of a field of type [int] rejects it, whatever follows, for
    each of the three fields of that type; so a record that begins with
    such a chat id does not decode. *)
Theorem oversized_int_is_not_read (z : Z) (rest : bytes) (f : fields) :
  (int_max_str_digits < int_digits z)%nat ->
  decode_int (int_repr z ++ rest) = None
  /\ decode_field (py "version") (int_repr z ++ rest) f = None
  /\ decode_field (py "chat_id") (int_repr z ++ rest) f = None
  /\ decode_field (py "thread_id") (int_repr z ++ rest) f = None
  /\ msgspec_json_decode ("{"%char :: member "chat_id" (int_repr z) ++ rest)
     = None.
Proof.
  intros L. pose proof (decode_int_beyond z rest L) as D.
  split; [exact D |].
  assert (T : decode_field (py "thread_id") (int_repr z ++ rest) f = None).
  { change (decode_field (py "thread_id") ?s f)
      with (set_field (decode_opt decode_int) (with_thread_id f) s).
    unfold set_field, decode_opt.
    destruct (int_repr_head z) as (c & tl & E & I).
    rewrite E in *. cbn [app] in *.
    rewrite (int_start_not_null c I). now rewrite D. }
  assert (C : forall f0,
            decode_field (py "chat_id") (int_repr z ++ rest) f0 = None).
  { intros f0.
    change (decode_field (py "chat_id") ?s f0)
      with (set_field decode_int (with_chat_id f0) s).
    unfold set_field. now rewrite D. }
  split; [| split; [apply C | split; [exact T |]]].
  - change (decode_field (py "version") ?s f)
      with (set_field decode_int (with_version f) s).
    unfold set_field. now rewrite D.
  - unfold msgspec_json_decode.
    change (skip_ws ("{"%char :: member "chat_id" (int_repr z) ++ rest))
      with ("{"%char :: member "chat_id" (int_repr z) ++ rest).
    cbn [decode_object]. change (code "{" =? 123)%N with true. cbn iota.
    unfold member.
    change (skip_ws ((DQUOTE :: lit "chat_id" ++ DQUOTE :: ":"%char
                        :: int_repr z) ++ rest))
      with ((DQUOTE :: lit "chat_id" ++ DQUOTE :: ":"%char :: int_repr z)
              ++ rest).
    cbn [app lit list_ascii_of_string].
    change (code DQUOTE =? 125)%N with false. cbn iota.
    cbn [List.length decode_members].
    match goal with
    | |- context [decode_str ?s] =>
        replace (decode_str s)
          with (Some (py "chat_id", ":"%char :: int_repr z ++ rest))
          by reflexivity
    end.
    change (skip_ws (":"%char :: int_repr z ++ rest))
      with (":"%char :: int_repr z ++ rest).
    change (code ":" =? 58)%N with true. cbn iota.
    rewrite skip_ws_int, C. reflexivity.
Qed.

Lemma oversized_int_is_not_read_witness :
  msgspec_json_decode
    ("{"%char :: member "chat_id" (int_repr huge_id) ++ lit ",}") = None.
Proof.
  now destruct (oversized_int_is_not_read huge_id (lit ",}") no_fields
                  huge_id_digits)
    as (_ & _ & _ & _ & D).
Defined.

(** ** Calls that fail, calls that do not bind *)

Section CreationFails.
Context {St Bt : Type} {store_ops : TopicStateStore St}
      {bot_ops : TelegramClient Bt}.

(** The creation path, when the platform gives no topic. *)
Lemma create_topic_thread_fails (w : world St Bt) (chat : Z)
  (key alias : pystr) (ctx : RunContext.t) (title : pystr)
  (bind_state : bool) (b' : Bt) :
create_forum_topic (bot w) chat title = (None, b') ->
create_topic_thread chat key alias ctx title bind_state w
= (Raise (RuntimeError (py "failed to create telegram forum topic")),
   {| store := store w; bot := b';
      calls := calls w ++ [CreateForumTopic chat title] |}).
Proof.
intros C. unfold create_topic_thread, bind, bot_create_forum_topic.
now rewrite C.
Qed.

(** X13. When the platform gives no topic the call raises RuntimeError.
  Nothing was bound and the store was not asked for a snapshot; but on
  the drift path the stale binding was deleted before the creation was
  tried, and it stays deleted. *)
Theorem failed_creation_raises (w : world St Bt) (chat : Z)
  (key alias : pystr) (branch : option pystr) (bind_state : bool)
  (b1 b2 : Bt) :
let ctx := requested_context key branch in
let title := build_topic_title alias branch in
match find_thread_for_context (store w) chat ctx with
| Some old => edit_forum_topic (bot w) chat old title = (false, b1)
| None => b1 = bot w
end ->
create_forum_topic b1 chat title = (None, b2) ->
ensure_topic_thread chat key alias branch bind_state w
= (Raise (RuntimeError (py "failed to create telegram forum topic")),
   {| store :=
        match find_thread_for_context (store w) chat ctx with
        | Some old => delete_thread (store w) chat old
        | None => store w
        end;
      bot := b2;
      calls :=
        calls w
          ++ FindThreadForContext chat ctx
          :: match find_thread_for_context (store w) chat ctx with
             | Some old =>
                 [EditForumTopic chat old title; DeleteThread chat old]
             | None => []
             end
          ++ [CreateForumTopic chat title] |}).
Proof.
intros ctx title E C.
destruct (find_thread_for_context (store w) chat ctx) as [old |] eqn:F.
- rewrite (drift_runs w chat key alias branch bind_state old b1 F E).
  fold ctx title.
  rewrite (create_topic_thread_fails _ chat key alias ctx title bind_state b2)
    by exact C.
  cbn [store bot calls]. now rewrite <- app_assoc.
- subst b1.
  rewrite (fresh_runs w chat key alias branch bind_state F).
  fold ctx title.
  rewrite (create_topic_thread_fails _ chat key alias ctx title bind_state b2)
    by exact C.
  cbn [store bot calls]. now rewrite <- app_assoc.
Qed.

(** X14. Without [bind_state] a call binds nothing, whatever the store
  and the platform answer and whether the call returns or raises:
  [set_context] is not called; the store is left as it was, or without
  the stale binding when the topic could not be renamed. *)
Theorem no_binding_without_bind_state (w : world St Bt) (chat : Z)
  (key alias : pystr) (branch : option pystr) :
let ctx := requested_context key branch in
let title := build_topic_title alias branch in
let w' := snd (ensure_topic_thread chat key alias branch false w) in
filter is_set_context (calls w') = filter is_set_context (calls w)
/\ store w'
   = match find_thread_for_context (store w) chat ctx with
     | Some old =>
         if fst (edit_forum_topic (bot w) chat old title) then store w
         else delete_thread (store w) chat old
     | None => store w
     end.
Proof.
intros ctx title.
assert (K : forall w0 : world St Bt,
          let w1 := snd (create_topic_thread chat key alias ctx title false w0)
          in filter is_set_context (calls w1)
             = filter is_set_context (calls w0)
             /\ store w1 = store w0).
{ intros w0.
  destruct (create_forum_topic (bot w0) chat title) as [[topic |] b'] eqn:C.
  - unfold ctx, title in *.
    rewrite (create_topic_thread_runs w0 chat key alias branch false
               topic b' C).
    cbn [snd store calls]. rewrite !filter_app. cbn. rewrite !app_nil_r.
    now split.
  - rewrite (create_topic_thread_fails w0 chat key alias ctx title false b' C).
    cbn [snd store calls]. rewrite filter_app. cbn. rewrite app_nil_r.
    now split. }
cbv zeta in *.
destruct (find_thread_for_context (store w) chat ctx) as [old |] eqn:F.
- destruct (edit_forum_topic (bot w) chat old title) as [[|] b'] eqn:E.
  + unfold ctx, title in *.
    rewrite (reuse_runs w chat key alias branch false old b' F E).
    cbn [snd fst store calls]. rewrite !filter_app. cbn.
    rewrite !app_nil_r. now split.
  + unfold ctx, title in F, E.
    rewrite (drift_runs w chat key alias branch false old b' F E).
    fold ctx title.
    destruct (K {| store := delete_thread (store w) chat old; bot := b';
                   calls := calls w
                              ++ [FindThreadForContext chat ctx;
                                  EditForumTopic chat old title;
                                  DeleteThread chat old] |}) as [K1 K2].
    rewrite K1, K2. cbn [fst store calls]. rewrite filter_app. cbn.
    rewrite app_nil_r. now split.
- unfold ctx in F.
  rewrite (fresh_runs w chat key alias branch false F). fold ctx title.
  destruct (K {| store := store w; bot := bot w;
                 calls := calls w ++ [FindThreadForContext chat ctx] |})
    as [K1 K2].
  rewrite K1, K2. cbn [store calls]. rewrite filter_app. cbn.
  rewrite app_nil_r. now split.
Qed.

End CreationFails.

Lemma failed_creation_raises_witness :
  ensure_topic_thread 1 (py "demo") (py "demo") None true refused_world
  = (Raise (RuntimeError (py "failed to create telegram forum topic")),
     {| store := []; bot := tt;
        calls := [FindThreadForContext 1 (requested_context (py "demo") None);
                  EditForumTopic 1 5 (py "demo"); DeleteThread 1 5;
                  CreateForumTopic 1 (py "demo")] |}).
Proof.
  exact (failed_creation_raises refused_world 1 (py "demo") (py "demo") None
           true tt tt eq_refl eq_refl).
Defined.

Section Repair.
Context {St Bt : Type} {store_ops : TopicStateStore St}
      {bot_ops : TelegramClient Bt} {exists_on : Bt -> Z -> Z -> Prop}
      {healthy : Healthy St Bt exists_on}.

(** X15. A binding that was repaired is reused: against a healthy store
  and platform, when the thread bound to the context cannot be renamed,
  the call creates a topic and returns created = true with its thread
  id T, and every call after it, with the same arguments, returns
  created = false with the same T; [create_forum_topic] is called once
  over all these calls. *)
Theorem repaired_binding_is_reused (w : world St Bt) (chat : Z)
  (key alias : pystr) (branch : option pystr) (old : Z) (b1 : Bt)
  (n : nat) :
find_thread_for_context (store w) chat (requested_context key branch)
= Some old ->
edit_forum_topic (bot w) chat old (build_topic_title alias branch)
= (false, b1) ->
exists T status w1,
  ensure_topic_thread chat key alias branch true w = (Ok (status, true), w1)
  /\ TopicStatus.thread_id status = T
  /\ store w1
     = set_context (delete_thread (store w) chat old) chat T
         (requested_context key branch) (build_topic_title alias branch)
  /\ Forall (reused T)
       (fst (ensure_repeatedly n chat key alias branch true w1))
  /\ List.length (fst (ensure_repeatedly n chat key alias branch true w1)) = n
  /\ creations
       (calls (snd (ensure_repeatedly n chat key alias branch true w1)))
     = creations (calls w) + 1.
Proof.
intros F E.
rewrite (drift_runs w chat key alias branch true old b1 F E).
destruct (create_succeeds b1 chat (build_topic_title alias branch))
  as (topic & b2 & C & X).
rewrite (create_topic_thread_runs
           {| store := delete_thread (store w) chat old; bot := b1;
              calls := calls w
                         ++ [FindThreadForContext chat
                               (requested_context key branch);
                             EditForumTopic chat old
                               (build_topic_title alias branch);
                             DeleteThread chat old] |}
           chat key alias branch true topic b2 C).
cbn [store bot calls].
eexists; eexists; eexists. split; [reflexivity |].
rewrite status_of_thread by (intros; eapply get_thread_answers; eassumption).
split; [reflexivity |]. split; [reflexivity |].
match goal with
| |- context [ensure_repeatedly n chat key alias branch true ?w1] =>
    destruct (later_calls n chat key alias branch (message_thread_id topic) w1)
      as (A & L & K)
end.
- cbn [store]. apply find_after_set_context.
- exact X.
- split; [exact A |]. split; [exact L |].
  rewrite K. cbn [calls]. rewrite !creations_app. cbn. lia.
Qed.

End Repair.

Lemma repaired_binding_is_reused_witness :
  exists T status w1,
    ensure_topic_thread 1 (py "demo") (py "demo") None true drifted_world
    = (Ok (status, true), w1)
    /\ TopicStatus.thread_id status = T
    /\ Forall (reused T)
         (fst (ensure_repeatedly 3 1 (py "demo") (py "demo") None true w1))
    /\ creations
         (calls (snd (ensure_repeatedly 3 1 (py "demo") (py "demo") None true
                        w1)))
       = 1.
Proof.
  destruct (repaired_binding_is_reused (healthy := memory_platform_healthy)
              drifted_world 1 (py "demo") (py "demo") None 5
              (bot drifted_world) 3 eq_refl eq_refl)
    as (T & status & w1 & R & I & _ & A & _ & K).
  exists T, status, w1. now repeat split.
Defined.
